(** * EDDN listener: a shallow embedding of [eddn_listener.py]

    The listener subscribes to the EDDN relay, queues the compressed frames
    it receives and lets a pool of workers decode, classify, filter and
    persist them into the TradeDangerous database.

    Layout of the development:
    - [Text]:      characters and strings as Python and SQLite see them;
    - [Unicode]:   UTF-8 and the decimal digits of [\d] and [int];
    - [Regex]:     the backtracking matcher behind [re.match] and
                   [datetime.strptime], and the language of a pattern;
    - [Sql]:       the [LIKE] operator and [REPLACE(name, ' ', '')];
    - [Timestamp]: [strptime] / [strftime] for the two formats of the code;
    - [Store]:     the three tables the code reads and writes;
    - [Listener]:  [is_carrier] and [process_message], one message at a time;
    - [Pool]:      the threads around the shared queue and the run flag;
    - [Spec]:      the shapes and relations the specification names;
    - [Batch]:     a message seen as a sequence of row updates;
    - [Sample]:    a small store, a few messages and stand-ins for the
                   libraries, to run the model on;
    - [Views], [Shutdown], [Cases]: what the later facts are stated with.
    The facts follow the definitions, one section per part of the code.

    A text is the sequence of the bytes of its UTF-8 encoding, which is what
    SQLite is handed; where Python goes by characters ([\d], [int]) the
    bytes are decoded. A text is taken to be one that has such an encoding:
    a lone surrogate, which Python can hold and can neither print nor bind,
    is outside the model.

    The calls into the libraries that can raise on what a message holds are
    parameters of the worker: the decoders of a frame, the console of
    [rich], and [cursor.execute]. What stays fixed is the environment: the
    database file is there with its three tables and can be opened,
    committed to and closed. *)

From Stdlib Require Import List String Ascii ZArith NArith Bool Arith Lia.
Import ListNotations.

(* ------------------------------------------------------------------ *)
(** ** Characters and strings *)

Module Text.

Definition code (c : ascii) : nat := nat_of_ascii c.

Definition in_range (lo hi c : ascii) : bool :=
  (code lo <=? code c)%nat && (code c <=? code hi)%nat.

(** The class [[0-9]]. *)
Definition is_digit (c : ascii) : bool := in_range "0" "9" c.

(** The class [[a-zA-Z0-9]]. *)
Definition is_alnum (c : ascii) : bool :=
  in_range "a" "z" c || in_range "A" "Z" c || in_range "0" "9" c.

(** ASCII lower-casing, the folding used by [re.IGNORECASE] on ASCII text
    and by SQLite's default [LIKE]. *)
Definition lower (c : ascii) : ascii :=
  if in_range "A" "Z" c then ascii_of_nat (code c + 32) else c.

Definition eq_nocase (a b : ascii) : bool := Ascii.eqb (lower a) (lower b).

Definition newline : ascii := ascii_of_nat 10.
Definition space : ascii := " "%char.
Definition nul : ascii := ascii_of_nat 0.

Fixpoint string_eq_nocase (a b : string) : bool :=
  match a, b with
  | EmptyString, EmptyString => true
  | String x a', String y b' => eq_nocase x y && string_eq_nocase a' b'
  | _, _ => false
  end.

Definition is_empty (s : string) : bool :=
  match s with EmptyString => true | String _ _ => false end.

(** Python truthiness of an [Optional[str]]: [None] and [''] are false. *)
Definition truthy (o : option string) : bool :=
  match o with
  | None => false
  | Some s => negb (is_empty s)
  end.

(** [needle in haystack] on Python strings. *)
Fixpoint contains (needle hay : string) : bool :=
  prefix needle hay ||
  match hay with
  | EmptyString => false
  | String _ hay' => contains needle hay'
  end.

End Text.

(* ------------------------------------------------------------------ *)
(** ** Characters beyond ASCII *)

Module Unicode.
Local Open Scope N_scope.

Definition byte (c : ascii) : N := N_of_ascii c.

(** A byte of the form 10xxxxxx. *)
Definition is_cont (c : ascii) : bool := (128 <=? byte c) && (byte c <? 192).

Definition low6 (c : ascii) : N := byte c - 128.

(** The first character of a text: its code point, its bytes and the text
    behind it; nothing if the text is empty or does not begin with the
    encoding of a character. *)
Definition next (s : string) : option (N * string * string) :=
  match s with
  | EmptyString => None
  | String a s1 =>
      if byte a <? 128 then Some (byte a, String a EmptyString, s1)
      else if byte a <? 192 then None
      else if byte a <? 224 then
        match s1 with
        | String b s2 =>
            if is_cont b
            then Some ((byte a - 192) * 64 + low6 b, String a (String b EmptyString), s2)
            else None
        | _ => None
        end
      else if byte a <? 240 then
        match s1 with
        | String b (String c s3) =>
            if is_cont b && is_cont c
            then Some (((byte a - 224) * 64 + low6 b) * 64 + low6 c,
                       String a (String b (String c EmptyString)), s3)
            else None
        | _ => None
        end
      else if byte a <? 248 then
        match s1 with
        | String b (String c (String d s4)) =>
            if is_cont b && is_cont c && is_cont d
            then Some ((((byte a - 240) * 64 + low6 b) * 64 + low6 c) * 64 + low6 d,
                       String a (String b (String c (String d EmptyString))), s4)
            else None
        | _ => None
        end
      else None
  end.

(** The characters with the property Decimal_Number beyond ASCII come in
    runs of ten, zero to nine; these are the zeros (Unicode 14.0, the
    database of CPython 3.11). *)
Definition decimal_zeros : list N :=
  [ 1632; 1776; 1984; 2406; 2534; 2662; 2790; 2918; 3046; 3174; 3302; 3430;
    3558; 3664; 3792; 3872; 4160; 4240; 6112; 6160; 6470; 6608; 6784; 6800;
    6992; 7088; 7232; 7248; 42528; 43216; 43264; 43472; 43504; 43600; 44016;
    65296; 66720; 68912; 69734; 69872; 69942; 70096; 70384; 70736; 70864;
    71248; 71360; 71472; 71904; 72016; 72784; 73040; 73120; 92768; 92864;
    93008; 120782; 120792; 120802; 120812; 120822; 123200; 123632; 125264;
    130032 ].

(** The value of a decimal digit, as [int] and [\d] read it. *)
Definition decimal (cp : N) : option N :=
  if cp <? 128 then
    if (48 <=? cp) && (cp <=? 57) then Some (cp - 48) else None
  else
    match find (fun z => (z <=? cp) && (cp <? z + 10)) decimal_zeros with
    | Some z => Some (cp - z)
    | None => None
    end.

Definition is_decimal (cp : N) : bool :=
  match decimal cp with Some _ => true | None => false end.

End Unicode.

(* ------------------------------------------------------------------ *)
(** ** Regular expressions with backtracking *)

Module Regex.
Import Text.

Inductive re : Type :=
| Chr (p : ascii -> bool)        (* one ASCII character of a class *)
| Uni (p : N -> bool)            (* one character of a class of code points *)
| Bol                            (* [^] *)
| Eol                            (* [$] *)
| Eps
| Cat (r1 r2 : re)
| Alt (r1 r2 : re)
| Grp (name : string) (r : re).  (* [(?P<name>r)] *)

Definition captures := list (string * string).

(** Without [re.MULTILINE], [$] matches at the end of the string and just
    before a newline that is the last character of the string. *)
Definition at_eol (s : string) : bool :=
  match s with
  | EmptyString => true
  | String c EmptyString => Ascii.eqb c newline
  | _ => false
  end.

(** All the ways [r] matches a prefix of [s] that starts at position [pos],
    in the order the backtracking engine tries them: each is the groups
    captured, the text consumed and the text left. *)
Fixpoint rmatch (r : re) (pos : nat) (s : string)
  : list (captures * string * string) :=
  match r with
  | Chr p =>
      match s with
      | String c s' => if p c then [([], String c EmptyString, s')] else []
      | EmptyString => []
      end
  | Uni p =>
      match Unicode.next s with
      | Some (cp, c, s') => if p cp then [([], c, s')] else []
      | None => []
      end
  | Bol => if (pos =? 0)%nat then [([], EmptyString, s)] else []
  | Eol => if at_eol s then [([], EmptyString, s)] else []
  | Eps => [([], EmptyString, s)]
  | Cat r1 r2 =>
      flat_map
        (fun m1 => let '(g1, c1, s1) := m1 in
           map (fun m2 => let '(g2, c2, s2) := m2 in
                  (g1 ++ g2, (c1 ++ c2)%string, s2))
               (rmatch r2 (String.length c1 + pos) s1))
        (rmatch r1 pos s)
  | Alt r1 r2 => rmatch r1 pos s ++ rmatch r2 pos s
  | Grp n r0 =>
      map (fun m => let '(g, c, s1) := m in ((n, c) :: g, c, s1))
          (rmatch r0 pos s)
  end.

(** What a group [n] with text [txt], followed by the separator [sep], adds
    to a match of what comes after. *)
Definition wrap (n txt : string) (sep : ascii) (m : captures * string * string)
  : captures * string * string :=
  let '(g, c, r) := m in ((n, txt) :: g, (txt ++ String sep c)%string, r).

(** [re.match(r, s)]: the first match found from position 0. *)
Definition re_match (r : re) (s : string) : option (captures * string * string) :=
  hd_error (rmatch r 0 s).

Fixpoint rep (n : nat) (r : re) : re :=
  match n with
  | O => Eps
  | S k => Cat r (rep k r)
  end.

Definition lit (c : ascii) : re := Chr (Ascii.eqb c).
Definition lit_nocase (c : ascii) : re := Chr (eq_nocase c).

Fixpoint seq (rs : list re) : re :=
  match rs with
  | [] => Eps
  | r :: rs' => Cat r (seq rs')
  end.

Fixpoint alts (r : re) (rs : list re) : re :=
  match rs with
  | [] => r
  | r' :: rs' => Alt r (alts r' rs')
  end.

(** The texts a regular expression without anchors matches, with the
    groups they fill: what it means, as against how the engine searches. *)
Inductive sem : re -> string -> captures -> Prop :=
| sem_chr p c : p c = true -> sem (Chr p) (String c EmptyString) []
| sem_uni p cp c :
    Unicode.next c = Some (cp, c, EmptyString) -> p cp = true -> sem (Uni p) c []
| sem_eps : sem Eps EmptyString []
| sem_cat r1 r2 c1 c2 g1 g2 :
    sem r1 c1 g1 -> sem r2 c2 g2 -> sem (Cat r1 r2) (c1 ++ c2) (g1 ++ g2)
| sem_alt_l r1 r2 c g : sem r1 c g -> sem (Alt r1 r2) c g
| sem_alt_r r1 r2 c g : sem r2 c g -> sem (Alt r1 r2) c g
| sem_grp n r c g : sem r c g -> sem (Grp n r) c ((n, c) :: g).

Fixpoint anchor_free (r : re) : bool :=
  match r with
  | Bol | Eol => false
  | Chr _ | Uni _ | Eps => true
  | Cat r1 r2 | Alt r1 r2 => anchor_free r1 && anchor_free r2
  | Grp _ r0 => anchor_free r0
  end.

Fixpoint group (g : captures) (n : string) : option string :=
  match g with
  | [] => None
  | (k, v) :: g' => if String.eqb k n then Some v else group g' n
  end.

End Regex.

(* ------------------------------------------------------------------ *)
(** ** The SQL operators of the statements *)

Module Sql.
Import Text.
Local Open Scope N_scope.

(** [REPLACE(x, ' ', '')]. *)
Fixpoint remove_spaces (s : string) : string :=
  match s with
  | EmptyString => EmptyString
  | String c s' =>
      if Ascii.eqb c space then remove_spaces s' else String c (remove_spaces s')
  end.

(** The text as the C code of SQLite reads it: up to its first NUL. *)
Fixpoint c_string (s : string) : string :=
  match s with
  | EmptyString => EmptyString
  | String c s' => if Ascii.eqb c nul then EmptyString else String c (c_string s')
  end.

Fixpoint has_space (s : string) : bool :=
  match s with
  | EmptyString => false
  | String c s' => Ascii.eqb c space || has_space s'
  end.

(** [sqlite3Utf8Trans1]: the bits a lead byte brings. *)
Definition lead_bits (b : N) : N :=
  if b <? 224 then b - 192
  else if b <? 240 then b - 224
  else if b <? 248 then b - 240
  else if b <? 252 then b - 248
  else if b <? 254 then b - 252
  else 0.

(** The end of [sqlite3Utf8Read]: what was put together from a lead byte
    and the bytes after it is replaced by U+FFFD when it is below 0x80, a
    surrogate, or 0xFFFE or 0xFFFF. *)
Definition settle (c : N) : N :=
  if (c <? 128) || (N.land c 4294965248 =? 55296) || (N.land c 4294967294 =? 65534)
  then 65533 else c.

Definition begins (b : N) (chars_of_rest : option N -> list N) : list N :=
  if b =? 0 then []
  else if 192 <=? b then chars_of_rest (Some (lead_bits b))
  else b :: chars_of_rest None.

(** The characters [patternCompare] reads off a text with [Utf8Read], up
    to the first NUL: a byte below 0xC0 is a character; a lead byte takes
    every byte of the form 10xxxxxx behind it, six bits each, in 32-bit
    arithmetic. [cur] is the character begun, if one is. *)
Fixpoint chars_from (cur : option N) (s : string) : list N :=
  match s with
  | EmptyString =>
      match cur with
      | Some c => [settle c]
      | None => []
      end
  | String a s' =>
      let b := Unicode.byte a in
      match cur with
      | Some c =>
          if Unicode.is_cont a
          then chars_from (Some ((c * 64 + (b - 128)) mod 4294967296)) s'
          else settle c :: begins b (fun cur' => chars_from cur' s')
      | None => begins b (fun cur' => chars_from cur' s')
      end
  end.

Definition chars (s : string) : list N := chars_from None s.

Definition percent : N := 37.
Definition underscore : N := 95.

(** [sqlite3Tolower] on a character below 0x80. *)
Definition fold (c : N) : N := if (65 <=? c) && (c <=? 90) then c + 32 else c.

(** Two characters that are the same, or the same ASCII letter in either
    case. *)
Definition same_char (c d : N) : bool :=
  (c =? d) || ((c <? 128) && (d <? 128) && (fold c =? fold d)).

(** [patternCompare] for [LIKE] without ESCAPE: [%] stands for any run of
    characters, [_] for any one character, every other character for
    itself up to ASCII case. *)
Fixpoint like_chars (pat x : list N) {struct pat} : bool :=
  match pat with
  | [] => match x with [] => true | _ :: _ => false end
  | c :: pat' =>
      if c =? percent then
        (fix any (y : list N) : bool :=
           like_chars pat' y ||
           match y with
           | [] => false
           | _ :: y' => any y'
           end) x
      else
        match x with
        | [] => false
        | d :: x' => ((c =? underscore) || same_char c d) && like_chars pat' x'
        end
  end.

(** [x LIKE pat], for a pattern the database takes. *)
Definition like (pat x : string) : bool := like_chars (chars pat) (chars x).

End Sql.

(* ------------------------------------------------------------------ *)
(** ** Python exceptions and results *)

(** The exception classes the worker can meet. Each carries the text that
    decides its message: the message itself where it is a fixed one, the
    text the call was given where the message depends on it. *)
Inductive exn : Type :=
| ValueError (detail : string)        (* strptime on a text it refuses *)
| TypeError (detail : string)         (* strptime(None, _), None > 0 *)
| DecodeError (detail : string)       (* zlib.decompress or bytes.decode *)
| JSONError (detail : string)         (* from_json on a payload of another shape *)
| MarkupError (detail : string)       (* rich, on a line it cannot render *)
| OverflowError (detail : string)     (* sqlite3, binding an integer *)
| OperationalError (detail : string). (* sqlite3, running a statement *)

Definition detail (e : exn) : string :=
  match e with
  | ValueError d | TypeError d | DecodeError d | JSONError d
  | MarkupError d | OverflowError d | OperationalError d => d
  end.

Inductive result (A : Type) : Type :=
| Ok (a : A)
| Raise (e : exn).

Arguments Ok {A} a.
Arguments Raise {A} e.

Definition bind {A B} (m : result A) (k : A -> result B) : result B :=
  match m with
  | Ok a => k a
  | Raise e => Raise e
  end.

Notation "'do' x <- m ; k" := (bind m (fun x => k))
  (at level 10, x name, m at level 100, k at level 200).

(* ------------------------------------------------------------------ *)
(** ** Timestamps *)

Module Timestamp.
Import Text Regex.
Local Open Scope Z_scope.

Record datetime : Type := {
  year : Z; month : Z; day : Z; hour : Z; minute : Z; second : Z
}.

Definition is_leap (y : Z) : bool :=
  (y mod 4 =? 0) && (negb (y mod 100 =? 0) || (y mod 400 =? 0)).

Definition days_in_month (y m : Z) : Z :=
  if m =? 2 then (if is_leap y then 29 else 28)
  else if (m =? 4) || (m =? 6) || (m =? 9) || (m =? 11) then 30
  else 31.

(** The checks of the [datetime] constructor. *)
Definition valid (t : datetime) : bool :=
  (1 <=? year t) && (year t <=? 9999) &&
  (1 <=? month t) && (month t <=? 12) &&
  (1 <=? day t) && (day t <=? days_in_month (year t) (month t)) &&
  (0 <=? hour t) && (hour t <=? 23) &&
  (0 <=? minute t) && (minute t <=? 59) &&
  (0 <=? second t) && (second t <=? 59).

(** The constructor: the value, or nothing where it raises. *)
Definition datetime_new (y m d hh mm ss : Z) : option datetime :=
  let t := {| year := y; month := m; day := d;
              hour := hh; minute := mm; second := ss |} in
  if valid t then Some t else None.

(** The regular expressions [_strptime.TimeRE] gives the directives. In a
    pattern on [str], [\d] is any decimal digit of Unicode; a range such as
    [[0-2]] holds its ASCII digits only. *)
Definition dig : re := Uni Unicode.is_decimal.
Definition cls (lo hi : ascii) : re := Chr (in_range lo hi).

Definition re_Y : re := Grp "Y" (seq [dig; dig; dig; dig]).
Definition re_m : re :=
  Grp "m" (alts (Cat (lit "1") (cls "0" "2"))
                [Cat (lit "0") (cls "1" "9"); cls "1" "9"]).
Definition re_d : re :=
  Grp "d" (alts (Cat (lit "3") (cls "0" "1"))
                [Cat (cls "1" "2") dig; Cat (lit "0") (cls "1" "9");
                 cls "1" "9"; Cat (lit " ") (cls "1" "9")]).
Definition re_H : re :=
  Grp "H" (alts (Cat (lit "2") (cls "0" "3")) [Cat (cls "0" "1") dig; dig]).
Definition re_M : re := Grp "M" (alts (Cat (cls "0" "5") dig) [dig]).
Definition re_S : re :=
  Grp "S" (alts (Cat (lit "6") (cls "0" "1")) [Cat (cls "0" "5") dig; dig]).

(** ['%Y-%m-%dT%H:%M:%SZ'], compiled with [IGNORECASE]. *)
Definition wire_regex : re :=
  seq [re_Y; lit "-"; re_m; lit "-"; re_d; lit_nocase "T";
       re_H; lit ":"; re_M; lit ":"; re_S; lit_nocase "Z"].

(** The digits of a text, read as a number; [n] bounds the characters. *)
Fixpoint digits_value (n : nat) (acc : Z) (s : string) : option Z :=
  match s with
  | EmptyString => Some acc
  | String _ _ =>
      match n with
      | O => None
      | S k =>
          match Unicode.next s with
          | Some (cp, _, s') =>
              match Unicode.decimal cp with
              | Some v => digits_value k (10 * acc + Z.of_N v) s'
              | None => None
              end
          | None => None
          end
      end
  end.

Fixpoint lstrip (s : string) : string :=
  match s with
  | String c s' => if Ascii.eqb c space then lstrip s' else s
  | EmptyString => s
  end.

(** [int(s)] on the text of a group: blanks around the digits are dropped
    (the groups of [wire_regex] can only carry one leading blank). *)
Definition int (s : string) : option Z :=
  match lstrip s with
  | EmptyString => None
  | t => digits_value (String.length t) 0 t
  end.

Definition field (g : captures) (n : string) : option Z :=
  match group g n with
  | Some v => int v
  | None => None
  end.

(** What [strptime] makes of a text, or nothing where it raises: the text
    does not match the format, data remains behind the match, or the
    fields name no date or time. *)
Definition parse (s : string) : option datetime :=
  match re_match wire_regex s with
  | None => None
  | Some (g, _, rest) =>
      if negb (is_empty rest) then None
      else
        match field g "Y", field g "m", field g "d",
              field g "H", field g "M", field g "S" with
        | Some y, Some m, Some d, Some hh, Some mm, Some ss =>
            datetime_new y m d hh mm ss
        | _, _, _, _, _, _ => None
        end
  end.

(** [datetime.strptime(s, '%Y-%m-%dT%H:%M:%SZ')]; the message of the
    [ValueError] is made from [s]. *)
Definition strptime (s : string) : result datetime :=
  match parse s with
  | Some t => Ok t
  | None => Raise (ValueError s)
  end.

(** The same call on an [Optional[str]]. *)
Definition strptime_opt (o : option string) : result datetime :=
  match o with
  | None => Raise (TypeError "strptime() argument 1 must be str, not None")
  | Some s => strptime s
  end.

Definition digit_char (n : Z) : ascii := ascii_of_nat (Z.to_nat (48 + n mod 10)).

Definition pad2 (n : Z) : string :=
  String (digit_char (n / 10)) (String (digit_char n) EmptyString).

Fixpoint strip_zeros (s : string) : string :=
  match s with
  | String c (String _ _ as s') => if Ascii.eqb c "0" then strip_zeros s' else s
  | _ => s
  end.

(** [%Y] is the C library's conversion: the year in decimal, which takes
    four characters from year 1000 on. *)
Definition year_text (y : Z) : string :=
  strip_zeros (pad2 (y / 100) ++ pad2 (y mod 100)).

(** [t.strftime('%Y-%m-%d %H:%M:%S')]. *)
Definition strftime (t : datetime) : string :=
  year_text (year t) ++ "-" ++ pad2 (month t) ++ "-" ++ pad2 (day t) ++ " " ++
  pad2 (hour t) ++ ":" ++ pad2 (minute t) ++ ":" ++ pad2 (second t).

(** The two lines that turn the EDDN timestamp into the one TD expects. *)
Definition db_timestamp (wire : string) : result string :=
  do t <- strptime wire; Ok (strftime t).

Definition db_timestamp_opt (wire : option string) : result string :=
  do t <- strptime_opt wire; Ok (strftime t).

End Timestamp.

(* ------------------------------------------------------------------ *)
(** ** The dataclasses of the messages *)

Module Commodity.
Record t : Type := {
  name : string;
  meanPrice : Z;
  buyPrice : Z;
  stock : Z;
  sellPrice : Z;
  demand : Z;
  statusFlags : option (list string)
}.
End Commodity.

Module Economy.
(** [proportion] is a float the listener never reads; it is kept as the
    text of the number. *)
Record t : Type := { name : string; proportion : string }.
End Economy.

Module CommodityMessage.
Record t : Type := {
  systemName : string;
  stationName : string;
  marketId : Z;
  timestamp : string;
  commodities : list Commodity.t;
  stationType : option string;
  carrierDockingAccess : option string;
  horizons : option bool;
  odyssey : option bool;
  economies : option (list Economy.t);
  prohibited : option (list string)
}.
End CommodityMessage.

Module FSDJumpMessage.
(** [StarPos] is a list of floats the listener never reads; kept as text. *)
Record t : Type := {
  StarSystem : string;
  event : option string;
  timestamp : option string;
  StarPos : option (list string);
  SystemAddress : option Z;
  SystemAllegiance : option string;
  SystemSecurity : option string;
  Population : option Z;
  Powers : option (list string);
  ControllingPower : option string;
  PowerplayState : option string
}.
End FSDJumpMessage.

Module Header.
Record t : Type := {
  uploaderID : string;
  softwareName : string;
  softwareVersion : string;
  gameVersion : option string;
  gameBuild : option string;
  gatewayTimestamp : option string
}.
End Header.

Module EDDNCommodityMessage.
Record t : Type := {
  schema_ref : string;
  header : Header.t;
  message : CommodityMessage.t
}.
End EDDNCommodityMessage.

Module EDDNFSDJumpMessage.
Record t : Type := {
  schema_ref : string;
  header : Header.t;
  message : FSDJumpMessage.t
}.
End EDDNFSDJumpMessage.

(* ------------------------------------------------------------------ *)
(** ** The trading store *)

Module Store.
Import Text Sql.
Local Open Scope Z_scope.

(** Modelled from the spec: the schema of TradeDangerous.db is not part of
    the listener; the rows carry the columns the spec lists for [Item],
    [StationItem] and [System], which are the columns the statements name. *)
Module ItemRow.
Record t : Type := { item_id : Z; name : string; avg_price : Z }.
End ItemRow.

Module StationItemRow.
Record t : Type := {
  station_id : Z;
  item_id : Z;
  demand_price : Z;
  demand_units : Z;
  demand_level : Z;
  supply_price : Z;
  supply_units : Z;
  supply_level : Z;
  modified : string;
  from_live : Z
}.
End StationItemRow.

Module SystemRow.
(** [power] is nullable: [None] is SQL NULL. *)
Record t : Type := { name : string; power : option string; modified : string }.
End SystemRow.

(** A table is the list of its rows in the order a scan visits them. *)
Record db : Type := {
  Item : list ItemRow.t;
  StationItem : list StationItemRow.t;
  System : list SystemRow.t
}.

(** The statements [process_message] executes, with their bound values. *)
Inductive stmt : Type :=
| SelectItemId (pat : string)
| UpdateStationItem (sell demand buy stock : Z) (ts : string) (station item : Z)
| UpdateItem (mean item : Z)
| UpdateSystem (power : option string) (ts : string) (pat : string).

Definition is_update (q : stmt) : bool :=
  match q with
  | SelectItemId _ => false
  | _ => true
  end.

(** [SELECT item_id FROM Item WHERE REPLACE(name, ' ', '') LIKE ?] followed
    by [fetchone()]: the first row of the scan that qualifies, if any. *)
Definition item_matches (pat : string) (r : ItemRow.t) : bool :=
  like pat (remove_spaces (ItemRow.name r)).

Definition select_item_id (items : list ItemRow.t) (pat : string) : option Z :=
  match find (item_matches pat) items with
  | Some r => Some (ItemRow.item_id r)
  | None => None
  end.

(** [UPDATE StationItem SET ... WHERE station_id = ? AND item_id = ?]. *)
Definition station_item_matches (station item : Z) (r : StationItemRow.t) : bool :=
  (StationItemRow.station_id r =? station) && (StationItemRow.item_id r =? item).

Definition set_station_item (sell demand buy stock : Z) (ts : string)
    (r : StationItemRow.t) : StationItemRow.t :=
  {| StationItemRow.station_id := StationItemRow.station_id r;
     StationItemRow.item_id := StationItemRow.item_id r;
     StationItemRow.demand_price := sell;
     StationItemRow.demand_units := demand;
     StationItemRow.demand_level := 0;
     StationItemRow.supply_price := buy;
     StationItemRow.supply_units := stock;
     StationItemRow.supply_level := 0;
     StationItemRow.modified := ts;
     StationItemRow.from_live := 1 |}.

Definition update_station_item (sell demand buy stock : Z) (ts : string)
    (station item : Z) (rows : list StationItemRow.t) : list StationItemRow.t :=
  map (fun r => if station_item_matches station item r
                then set_station_item sell demand buy stock ts r else r) rows.

(** [UPDATE Item SET avg_price = ? WHERE item_id = ?]. *)
Definition set_avg_price (mean : Z) (r : ItemRow.t) : ItemRow.t :=
  {| ItemRow.item_id := ItemRow.item_id r;
     ItemRow.name := ItemRow.name r;
     ItemRow.avg_price := mean |}.

Definition update_item (mean item : Z) (rows : list ItemRow.t) : list ItemRow.t :=
  map (fun r => if ItemRow.item_id r =? item then set_avg_price mean r else r) rows.

(** [UPDATE System SET power = ?, modified = ? WHERE name LIKE ?]. *)
Definition set_power (power : option string) (ts : string) (r : SystemRow.t)
  : SystemRow.t :=
  {| SystemRow.name := SystemRow.name r;
     SystemRow.power := power;
     SystemRow.modified := ts |}.

Definition update_system (power : option string) (ts pat : string)
    (rows : list SystemRow.t) : list SystemRow.t :=
  map (fun r => if like pat (SystemRow.name r) then set_power power ts r else r) rows.

(** What a statement does to the tables. *)
Definition run (q : stmt) (d : db) : db :=
  match q with
  | SelectItemId _ => d
  | UpdateStationItem sell demand buy stock ts station item =>
      {| Item := Item d;
         StationItem := update_station_item sell demand buy stock ts station item
                          (StationItem d);
         System := System d |}
  | UpdateItem mean item =>
      {| Item := update_item mean item (Item d);
         StationItem := StationItem d;
         System := System d |}
  | UpdateSystem power ts pat =>
      {| Item := Item d;
         StationItem := StationItem d;
         System := update_system power ts pat (System d) |}
  end.

(** The key columns of the tables, in scan order. *)
Definition item_keys (d : db) : list (Z * string) :=
  map (fun r => (ItemRow.item_id r, ItemRow.name r)) (Item d).

Definition station_keys (d : db) : list (Z * Z) :=
  map (fun r => (StationItemRow.station_id r, StationItemRow.item_id r)) (StationItem d).

Definition system_names (d : db) : list string :=
  map SystemRow.name (System d).

(** What the listener never writes: the rows there are, with their keys
    and names. *)
Record shape : Type := {
  items : list (Z * string);
  station_items : list (Z * Z);
  systems : list string
}.

Definition shape_of (d : db) : shape :=
  {| items := item_keys d;
     station_items := station_keys d;
     systems := system_names d |}.

End Store.

(* ------------------------------------------------------------------ *)
(** ** The worker: [is_carrier] and [process_message] *)

Module Listener.
Import Text Regex Timestamp Store.
Local Open Scope Z_scope.

(** [r'^[a-zA-Z0-9]{3}-[a-zA-Z0-9]{3}$'] *)
Definition carrier_pattern : re :=
  seq [Bol; rep 3 (Chr is_alnum); lit "-"; rep 3 (Chr is_alnum); Eol].

(** [bool(re.match(pattern, s))] *)
Definition is_carrier (s : string) : bool :=
  match re_match carrier_pattern s with
  | Some _ => true
  | None => false
  end.

(** What a worker does that can be seen from outside: the lines it prints,
    its calls on the database connection that return, and the exception
    that leaves [process_message], if one does. *)
Inductive event : Type :=
| Print_Market (systemName stationName softwareName softwareVersion : string)
| Print_System (StarSystem : string) (ControllingPower PowerplayState : option string)
               (softwareName softwareVersion : string)
| Print_Error (e : exn)
| Connect
| Execute (q : stmt)
| Commit
| Close
| Uncaught (e : exn).

Definition is_write (e : event) : bool :=
  match e with
  | Execute q => is_update q
  | _ => false
  end.

Definition is_db_access (e : event) : bool :=
  match e with
  | Connect | Execute _ | Commit | Close => true
  | _ => false
  end.

Definition is_uncaught (e : event) : bool :=
  match e with
  | Uncaught _ => true
  | _ => false
  end.

(** Whether the events end the worker. *)
Definition raised (ev : list event) : bool := existsb is_uncaught ev.

(** The connection of one message: the tables as its statements see them
    and the events so far. *)
Record txn : Type := { work : db; log : list event }.

Definition emit (e : event) (t : txn) : txn :=
  {| work := work t; log := log t ++ [e] |}.

(** A stretch of code on the connection: the connection after it, and the
    exception if it raised. *)
Definition call : Type := txn -> txn * option exn.

Definition and_then (m k : call) : call :=
  fun t =>
    match m t with
    | (t1, None) => k t1
    | (t1, Some e) => (t1, Some e)
    end.

(** What handling one message comes to: the store it leaves, or the
    exception that ended it, and the events on the way. *)
Record attempt : Type := { outcome : result db; events : list event }.

(** [Population > 0]; comparing [None] with an int raises. *)
Definition gt_zero (o : option Z) : result bool :=
  match o with
  | Some n => Ok (0 <? n)
  | None =>
      Raise (TypeError "'>' not supported between instances of 'NoneType' and 'int'")
  end.

Definition opt_eqb (o : option string) (s : string) : bool :=
  match o with
  | Some x => String.eqb x s
  | None => false
  end.

(** The condition of the system branch:
    [Population > 0 and (ControllingPower or PowerplayState == 'Unoccupied')] *)
Definition system_filter (m : FSDJumpMessage.t) : result bool :=
  do populated <- gt_zero (FSDJumpMessage.Population m);
  Ok (populated &&
      (truthy (FSDJumpMessage.ControllingPower m) ||
       opt_eqb (FSDJumpMessage.PowerplayState m) "Unoccupied")).

(** The line of the commodity branch and the line of the system branch,
    by the fields they show. *)
Definition market_line (eddn_message : EDDNCommodityMessage.t) : event :=
  let m := EDDNCommodityMessage.message eddn_message in
  let h := EDDNCommodityMessage.header eddn_message in
  Print_Market (CommodityMessage.systemName m) (CommodityMessage.stationName m)
               (Header.softwareName h) (Header.softwareVersion h).

Definition system_line (eddn_message : EDDNFSDJumpMessage.t) : event :=
  let m := EDDNFSDJumpMessage.message eddn_message in
  let h := EDDNFSDJumpMessage.header eddn_message in
  Print_System (FSDJumpMessage.StarSystem m) (FSDJumpMessage.ControllingPower m)
               (FSDJumpMessage.PowerplayState m)
               (Header.softwareName h) (Header.softwareVersion h).

(** The branch the text of a payload selects. *)
Inductive route : Type := CommodityUpdate | SystemEvent | Discard.

Definition classify (json_string : string) : route :=
  if contains "commodity" json_string then CommodityUpdate
  else if contains "journal" json_string && contains "FSDJump" json_string
       then SystemEvent
       else Discard.

Section Libraries.

(** The calls into the libraries that can raise on what a message holds.
    [rich_print line] is the exception [print] of [rich] raises on a line,
    if it raises: the line is markup, and a field that holds a tag can make
    it one [rich] refuses. [sqlite_raises q s] is the exception
    [cursor.execute] raises on a statement, if it raises: an integer that
    does not fit 64 bits cannot be bound, a [LIKE] pattern beyond the
    length limit is refused when a row is tested against it; it goes by
    the statement and by the rows there are, not by the values the
    listener writes. *)
Variable rich_print : event -> option exn.
Variable sqlite_raises : stmt -> shape -> option exn.

(** [cursor.execute(sql, params)] *)
Definition execute (q : stmt) : call :=
  fun t =>
    match sqlite_raises q (shape_of (work t)) with
    | Some e => (t, Some e)
    | None => ({| work := run q (work t); log := log t ++ [Execute q] |}, None)
    end.

(** The body of [for commodity in eddn_message.message.commodities]. *)
Definition commodity_step (ts : string) (marketId : Z) (commodity : Commodity.t)
  : call :=
  and_then
    (execute (SelectItemId (Commodity.name commodity)))
    (fun t =>
       match select_item_id (Item (work t)) (Commodity.name commodity) with
       | Some commodity_id =>
           and_then
             (execute (UpdateStationItem
                         (Commodity.sellPrice commodity) (Commodity.demand commodity)
                         (Commodity.buyPrice commodity) (Commodity.stock commodity)
                         ts marketId commodity_id))
             (execute (UpdateItem (Commodity.meanPrice commodity) commodity_id))
             t
       | None => (t, None)
       end).

Fixpoint commodity_loop (ts : string) (marketId : Z)
    (commodities : list Commodity.t) : call :=
  match commodities with
  | [] => fun t => (t, None)
  | commodity :: rest =>
      and_then (commodity_step ts marketId commodity)
               (commodity_loop ts marketId rest)
  end.

(** The commodity branch once the payload is parsed. An exception leaves
    the connection as it is: nothing of it is committed. *)
Definition persist_commodity (store : db) (eddn_message : EDDNCommodityMessage.t)
  : attempt :=
  let m := EDDNCommodityMessage.message eddn_message in
  if is_carrier (CommodityMessage.stationName m) then
    {| outcome := Ok store; events := [] |}
  else
    match rich_print (market_line eddn_message) with
    | Some e => {| outcome := Raise e; events := [] |}
    | None =>
        let t0 := emit Connect
                    (emit (market_line eddn_message) {| work := store; log := [] |}) in
        match db_timestamp (CommodityMessage.timestamp m) with
        | Raise e => {| outcome := Raise e; events := log t0 |}
        | Ok ts =>
            match commodity_loop ts (CommodityMessage.marketId m)
                                 (CommodityMessage.commodities m) t0 with
            | (t1, Some e) => {| outcome := Raise e; events := log t1 |}
            | (t1, None) =>
                let t2 := emit Close (emit Commit t1) in
                {| outcome := Ok (work t2); events := log t2 |}
            end
        end
    end.

(** The system branch once the payload is parsed. *)
Definition persist_fsdjump (store : db) (eddn_message : EDDNFSDJumpMessage.t)
  : attempt :=
  let m := EDDNFSDJumpMessage.message eddn_message in
  match system_filter m with
  | Raise e => {| outcome := Raise e; events := [] |}
  | Ok false => {| outcome := Ok store; events := [] |}
  | Ok true =>
      match rich_print (system_line eddn_message) with
      | Some e => {| outcome := Raise e; events := [] |}
      | None =>
          let t0 := emit Connect
                      (emit (system_line eddn_message) {| work := store; log := [] |}) in
          match db_timestamp_opt (FSDJumpMessage.timestamp m) with
          | Raise e => {| outcome := Raise e; events := log t0 |}
          | Ok ts =>
              match execute (UpdateSystem (FSDJumpMessage.ControllingPower m) ts
                                          (FSDJumpMessage.StarSystem m)) t0 with
              | (t1, Some e) => {| outcome := Raise e; events := log t1 |}
              | (t1, None) =>
                  let t2 := emit Close (emit Commit t1) in
                  {| outcome := Ok (work t2); events := log t2 |}
              end
          end
      end
  end.

Section Worker.

(** The library calls on the way in: [zlib.decompress(m).decode('utf-8')]
    and the two [from_json] class methods. *)
Variable decompress : string -> result string.
Variable commodity_from_json : string -> result EDDNCommodityMessage.t.
Variable fsdjump_from_json : string -> result EDDNFSDJumpMessage.t.

(** The [if] / [elif] on the decoded payload. *)
Definition handle_payload (store : db) (json_string : string) : attempt :=
  match classify json_string with
  | CommodityUpdate =>
      match commodity_from_json json_string with
      | Raise e => {| outcome := Raise e; events := [] |}
      | Ok eddn_message => persist_commodity store eddn_message
      end
  | SystemEvent =>
      match fsdjump_from_json json_string with
      | Raise e => {| outcome := Raise e; events := [] |}
      | Ok eddn_message => persist_fsdjump store eddn_message
      end
  | Discard => {| outcome := Ok store; events := [] |}
  end.

(** The [try] block for one frame taken from the queue. *)
Definition try_frame (store : db) (message : string) : attempt :=
  match decompress message with
  | Raise e => {| outcome := Raise e; events := [] |}
  | Ok json_string => handle_payload store json_string
  end.

(** One turn of the loop on a frame: [except Exception] prints the error
    and the store keeps what was committed before. The handler prints with
    [rich] as well: an exception there is caught by nothing. *)
Definition process_frame (store : db) (message : string) : db * list event :=
  let a := try_frame store message in
  match outcome a with
  | Ok store' => (store', events a)
  | Raise e =>
      match rich_print (Print_Error e) with
      | None => (store, events a ++ [Print_Error e])
      | Some e' => (store, events a ++ [Uncaught e'])
      end
  end.

(** [process_message] run by one worker alone on the items it finds in the
    queue, [None] being the sentinel, with the flag [run_loop] as given.
    It returns the store, the events and the items left in the queue; an
    empty queue ends the model's run (the code keeps polling it), and so
    does an exception that leaves the loop. *)
Fixpoint process_message (run_loop : bool) (store : db)
    (message_queue : list (option string))
  : db * list event * list (option string) :=
  if run_loop then
    match message_queue with
    | [] => (store, [], [])
    | None :: rest => (store, [], rest)
    | Some message :: rest =>
        let '(store1, ev1) := process_frame store message in
        if raised ev1 then (store1, ev1, rest)
        else
          let '(store2, ev2, remaining) := process_message run_loop store1 rest in
          (store2, ev1 ++ ev2, remaining)
    end
  else (store, [], message_queue).

End Worker.

End Libraries.

End Listener.

(* ------------------------------------------------------------------ *)
(** ** The threads around the queue *)

Module Pool.

(** Where a worker stands in [process_message]. *)
Inductive wstate : Type :=
| AtLoopTest        (* about to evaluate [while run_loop] *)
| InGet             (* inside [message_queue.get(timeout=0.1)] *)
| Stopped.          (* the function has returned, or an exception has left it *)

(** Where [subscribe_to_eddn] stands. *)
Inductive sub_state : Type :=
| SubTest                       (* about to evaluate [while run_loop] *)
| SubPolled                     (* [poll] returned, [if not run_loop] is next *)
| SubPut (frame : string)       (* [recv] returned, [message_queue.put] is next *)
| SubClosed.                    (* socket closed, thread finished *)

(** Where the main thread stands once the threads are started. *)
Inductive main_state : Type :=
| MainJoinSub                   (* [eddn_thread.join()] *)
| MainPut (todo : nat)          (* [for _ in workers: message_queue.put(None)] *)
| MainJoinWorkers               (* [for worker in workers: worker.join()] *)
| MainDone.

(** The shared state. [enqueued] and [dequeued] are histories: every item
    ever put into the queue, and every item ever taken from it with the
    number of the worker that took it, in order. *)
Record pool : Type := {
  run_loop : bool;
  message_queue : list (option string);
  enqueued : list (option string);
  dequeued : list (nat * option string);
  eddn_thread : sub_state;
  main_thread : main_state;
  workers : list wstate
}.

(** One atomic move of one thread. *)
Inductive action : Type :=
| Interrupt                         (* [handle_sigint] or [on_press] *)
| Sub (polled : option string)      (* the subscriber; the frame [poll] finds *)
| Main
| Work (i : nat)
| Crash (i : nat).                  (* worker [i] takes a frame and an exception
                                       leaves [process_message] *)

Fixpoint set_nth {A} (i : nat) (x : A) (l : list A) : list A :=
  match l, i with
  | [], _ => []
  | _ :: l', O => x :: l'
  | y :: l', S j => y :: set_nth j x l'
  end.

Definition all_stopped (ws : list wstate) : bool :=
  forallb (fun w => match w with Stopped => true | _ => false end) ws.

Definition put (x : option string) (s : pool) : pool :=
  {| run_loop := run_loop s;
     message_queue := message_queue s ++ [x];
     enqueued := enqueued s ++ [x];
     dequeued := dequeued s;
     eddn_thread := eddn_thread s;
     main_thread := main_thread s;
     workers := workers s |}.

Definition with_sub (t : sub_state) (s : pool) : pool :=
  {| run_loop := run_loop s;
     message_queue := message_queue s;
     enqueued := enqueued s;
     dequeued := dequeued s;
     eddn_thread := t;
     main_thread := main_thread s;
     workers := workers s |}.

Definition with_main (t : main_state) (s : pool) : pool :=
  {| run_loop := run_loop s;
     message_queue := message_queue s;
     enqueued := enqueued s;
     dequeued := dequeued s;
     eddn_thread := eddn_thread s;
     main_thread := t;
     workers := workers s |}.

Definition with_worker (i : nat) (w : wstate) (s : pool) : pool :=
  {| run_loop := run_loop s;
     message_queue := message_queue s;
     enqueued := enqueued s;
     dequeued := dequeued s;
     eddn_thread := eddn_thread s;
     main_thread := main_thread s;
     workers := set_nth i w (workers s) |}.

(** [message_queue.get] by worker [i] when the queue holds [x :: rest]. *)
Definition take (i : nat) (x : option string) (rest : list (option string))
    (s : pool) : pool :=
  {| run_loop := run_loop s;
     message_queue := rest;
     enqueued := enqueued s;
     dequeued := dequeued s ++ [(i, x)];
     eddn_thread := eddn_thread s;
     main_thread := main_thread s;
     workers := workers s |}.

Definition clear_flag (s : pool) : pool :=
  {| run_loop := false;
     message_queue := message_queue s;
     enqueued := enqueued s;
     dequeued := dequeued s;
     eddn_thread := eddn_thread s;
     main_thread := main_thread s;
     workers := workers s |}.

(** The next move of [subscribe_to_eddn]. *)
Definition sub_step (polled : option string) (s : pool) : option pool :=
  match eddn_thread s with
  | SubTest => Some (with_sub (if run_loop s then SubPolled else SubClosed) s)
  | SubPolled =>
      if run_loop s then
        match polled with
        | Some frame => Some (with_sub (SubPut frame) s)
        | None => Some (with_sub SubTest s)          (* sleep, loop again *)
        end
      else Some (with_sub SubClosed s)               (* break *)
  | SubPut frame => Some (with_sub SubTest (put (Some frame) s))
  | SubClosed => None
  end.

(** The next move of the main thread. *)
Definition main_step (s : pool) : option pool :=
  match main_thread s with
  | MainJoinSub =>
      match eddn_thread s with
      | SubClosed => Some (with_main (MainPut (List.length (workers s))) s)
      | _ => None
      end
  | MainPut (S k) => Some (with_main (MainPut k) (put None s))
  | MainPut O => Some (with_main MainJoinWorkers s)
  | MainJoinWorkers =>
      if all_stopped (workers s) then Some (with_main MainDone s) else None
  | MainDone => None
  end.

(** The next move of worker [i]: the loop test, or the [get] and what
    follows it (a frame is handled within the move). *)
Definition worker_step (i : nat) (s : pool) : option pool :=
  match nth_error (workers s) i with
  | Some AtLoopTest =>
      Some (with_worker i (if run_loop s then InGet else Stopped) s)
  | Some InGet =>
      match message_queue s with
      | [] => Some (with_worker i AtLoopTest s)                     (* queue.Empty *)
      | None :: rest => Some (with_worker i Stopped (take i None rest s))    (* break *)
      | Some frame :: rest =>
          Some (with_worker i AtLoopTest (take i (Some frame) rest s))
      end
  | Some Stopped => None
  | None => None
  end.

(** The move of worker [i] that ends it on a frame: the handler could not
    print the error. *)
Definition crash_step (i : nat) (s : pool) : option pool :=
  match nth_error (workers s) i with
  | Some InGet =>
      match message_queue s with
      | Some frame :: rest => Some (with_worker i Stopped (take i (Some frame) rest s))
      | _ => None
      end
  | _ => None
  end.

Definition step (a : action) (s : pool) : option pool :=
  match a with
  | Interrupt => Some (clear_flag s)
  | Sub polled => sub_step polled s
  | Main => main_step s
  | Work i => worker_step i s
  | Crash i => crash_step i s
  end.

(** A schedule is a list of moves; it runs if each move is enabled. *)
Fixpoint run (sched : list action) (s : pool) : option pool :=
  match sched with
  | [] => Some s
  | a :: sched' =>
      match step a s with
      | Some s' => run sched' s'
      | None => None
      end
  end.

(** The state [__main__] leaves once its threads are started. *)
Definition boot (num_workers : nat) : pool :=
  {| run_loop := true;
     message_queue := [];
     enqueued := [];
     dequeued := [];
     eddn_thread := SubTest;
     main_thread := MainJoinSub;
     workers := repeat AtLoopTest num_workers |}.

Definition is_sentinel (x : option string) : bool :=
  match x with None => true | Some _ => false end.

Definition sentinels (l : list (option string)) : nat :=
  List.length (filter is_sentinel l).

(** The frames among the items taken: those a worker put through its
    [try] block. *)
Fixpoint handled (l : list (option string)) : list string :=
  match l with
  | [] => []
  | Some f :: l' => f :: handled l'
  | None :: l' => handled l'
  end.

Definition in_get (w : wstate) : nat :=
  match w with InGet => 1 | _ => 0 end.

Definition is_stopped (w : wstate) : nat :=
  match w with Stopped => 1 | _ => 0 end.

(** The moves a worker can still make once the flag is cleared. *)
Definition moves_left (w : wstate) : nat :=
  match w with InGet => 2 | AtLoopTest => 1 | Stopped => 0 end.

(** Where worker [i] stands; a worker that does not exist stands stopped. *)
Definition state_of (i : nat) (s : pool) : wstate := nth i (workers s) Stopped.

(** The items worker [i] took. *)
Definition taken_by (i : nat) (l : list (nat * option string))
  : list (option string) :=
  map snd (filter (fun x => Nat.eqb (fst x) i) l).

(** The moves of worker [i] in a schedule. *)
Definition moves_of (i : nat) (sched : list action) : nat :=
  List.length (filter (fun a => match a with
                                | Work j | Crash j => Nat.eqb j i
                                | _ => false
                                end) sched).

(** What a move of a worker does: from where it stands, given the flag and
    the queue, the items it takes (none or one) and where it stands then. *)
Inductive move (flag : bool) (q : list (option string))
  : wstate -> list (option string) -> wstate -> Prop :=
| move_test : move flag q AtLoopTest [] (if flag then InGet else Stopped)
| move_empty : q = [] -> move flag q InGet [] AtLoopTest
| move_sentinel rest : q = None :: rest -> move flag q InGet [None] Stopped
| move_frame frame rest :
    q = Some frame :: rest -> move flag q InGet [Some frame] AtLoopTest
| move_crash frame rest :
    q = Some frame :: rest -> move flag q InGet [Some frame] Stopped.

(** The sentinels the main thread has still to put. *)
Definition pending (s : pool) : nat :=
  match main_thread s with
  | MainJoinSub => List.length (workers s)
  | MainPut k => k
  | _ => 0
  end.

(** What every state reached from [boot n] satisfies. *)
Definition inv (n : nat) (s : pool) : Prop :=
  enqueued s = map snd (dequeued s) ++ message_queue s /\
  List.length (workers s) = n /\
  sentinels (enqueued s) + pending s = n /\
  (forall i, sentinels (taken_by i (dequeued s)) <= is_stopped (state_of i s)) /\
  (eddn_thread s = SubClosed -> run_loop s = false) /\
  (main_thread s <> MainJoinSub -> eddn_thread s = SubClosed) /\
  (main_thread s = MainDone -> all_stopped (workers s) = true).

End Pool.

(* ------------------------------------------------------------------ *)
(** ** The words of the specification *)

Module Spec.
Import Text.

(** "three alphanumeric characters, a hyphen, three alphanumeric characters" *)
Definition carrier_name (s : string) : bool :=
  match s with
  | String a (String b (String c (String h (String d (String e (String f EmptyString)))))) =>
      is_alnum a && is_alnum b && is_alnum c && Ascii.eqb h "-" &&
      is_alnum d && is_alnum e && is_alnum f
  | _ => false
  end.

(** "equal after disregarding spaces (case-insensitively)" *)
Definition same_ignoring_spaces (a b : string) : bool :=
  string_eq_nocase (Sql.remove_spaces a) (Sql.remove_spaces b).

Fixpoint shaped (shape s : string) : bool :=
  match shape, s with
  | EmptyString, EmptyString => true
  | String p shape', String c s' =>
      (if Ascii.eqb p "d" then is_digit c else Ascii.eqb p c) && shaped shape' s'
  | _, _ => false
  end.

(** "wire format yyyy-mm-ddThh:mm:ssZ": digits where the letters stand. *)
Definition wire_format (s : string) : bool := shaped "dddd-dd-ddTdd:dd:ddZ" s.

(** "store format yyyy-mm-dd hh:mm:ss" *)
Definition store_format (s : string) : bool := shaped "dddd-dd-dd dd:dd:dd" s.

(** A date and time written in the wire format, as
    [t.strftime('%Y-%m-%dT%H:%M:%SZ')] writes it. *)
Definition wire_text (t : Timestamp.datetime) : string :=
  (Timestamp.year_text (Timestamp.year t) ++ "-" ++
   Timestamp.pad2 (Timestamp.month t) ++ "-" ++
   Timestamp.pad2 (Timestamp.day t) ++ "T" ++
   Timestamp.pad2 (Timestamp.hour t) ++ ":" ++
   Timestamp.pad2 (Timestamp.minute t) ++ ":" ++
   Timestamp.pad2 (Timestamp.second t) ++ "Z")%string.

(** The spellings [strptime] takes for the fields of
    [%Y-%m-%dT%H:%M:%SZ]. [digits n s]: [s] is [n] decimal digits, of any
    script. *)
Fixpoint digits (n : nat) (s : string) : bool :=
  match n with
  | O => is_empty s
  | S k =>
      match Unicode.next s with
      | Some (cp, _, s') => Unicode.is_decimal cp && digits k s'
      | None => false
      end
  end.

(** One ASCII character between [lo] and [hi]. *)
Definition one_of (lo hi : ascii) (s : string) : bool :=
  match s with
  | String c EmptyString => in_range lo hi c
  | _ => false
  end.

(** 1 to 12, in ASCII digits, with or without a leading zero. *)
Definition month_text (s : string) : bool :=
  match s with
  | String a rest =>
      (Ascii.eqb "1" a && one_of "0" "2" rest) ||
      (Ascii.eqb "0" a && one_of "1" "9" rest) ||
      (in_range "1" "9" a && is_empty rest)
  | EmptyString => false
  end.

(** 1 to 31, with or without a leading zero or blank; the second digit of
    10 to 29 in any script. *)
Definition day_text (s : string) : bool :=
  match s with
  | String a rest =>
      (Ascii.eqb "3" a && one_of "0" "1" rest) ||
      (in_range "1" "2" a && digits 1 rest) ||
      (Ascii.eqb "0" a && one_of "1" "9" rest) ||
      (in_range "1" "9" a && is_empty rest) ||
      (Ascii.eqb " " a && one_of "1" "9" rest)
  | EmptyString => false
  end.

(** 0 to 23 in one or two digits; a single digit, and the second digit of
    00 to 19, in any script. *)
Definition hour_text (s : string) : bool :=
  (match s with
   | String a rest =>
       (Ascii.eqb "2" a && one_of "0" "3" rest) ||
       (in_range "0" "1" a && digits 1 rest)
   | EmptyString => false
   end) || digits 1 s.

(** 0 to 59 in one or two digits. *)
Definition minute_text (s : string) : bool :=
  (match s with
   | String a rest => in_range "0" "5" a && digits 1 rest
   | EmptyString => false
   end) || digits 1 s.

(** 0 to 61 in one or two digits. *)
Definition second_text (s : string) : bool :=
  (match s with
   | String a rest =>
       (Ascii.eqb "6" a && one_of "0" "1" rest) ||
       (in_range "0" "5" a && digits 1 rest)
   | EmptyString => false
   end) || digits 1 s.

(** A text [strptime] reads as the date and time [t]: four digits for the
    year, the fields in the spellings above between the separators [-],
    [-], [T], [:], [:] and [Z], the letters in either case, nothing before
    and nothing after, and numbers that make a date and a time. *)
Definition lenient (s : string) (t : Timestamp.datetime) : Prop :=
  exists Y m d T H M S Z,
    s = (Y ++ String "-" (m ++ String "-" (d ++ String T
           (H ++ String ":" (M ++ String ":" (S ++ String Z EmptyString))))))%string /\
    digits 4 Y = true /\ month_text m = true /\ day_text d = true /\
    eq_nocase "T" T = true /\
    hour_text H = true /\ minute_text M = true /\ second_text S = true /\
    eq_nocase "Z" Z = true /\
    exists y mo dd hh mi ss,
      Timestamp.int Y = Some y /\ Timestamp.int m = Some mo /\
      Timestamp.int d = Some dd /\ Timestamp.int H = Some hh /\
      Timestamp.int M = Some mi /\ Timestamp.int S = Some ss /\
      Timestamp.datetime_new y mo dd hh mi ss = Some t.

End Spec.

(* ------------------------------------------------------------------ *)
(** ** A message as a batch of row updates *)

Module Batch.
Import Text Timestamp Store Listener.
Local Open Scope Z_scope.

Section Rows.
Variables (Row U : Type).
Variable hit : U -> Row -> bool.     (* the WHERE clause *)
Variable set : U -> Row -> Row.      (* the SET clause *)

Definition upd (u : U) (r : Row) : Row := if hit u r then set u r else r.

(** What a sequence of updates does to one row. *)
Definition apply_all (us : list U) (r : Row) : Row :=
  fold_left (fun r u => upd u r) us r.

End Rows.

Arguments upd {Row U} hit set u r.
Arguments apply_all {Row U} hit set us r.

(** The commodities of a message that find an item, each with the id found,
    in message order. *)
Definition resolve (items : list ItemRow.t) (cs : list Commodity.t)
  : list (Z * Commodity.t) :=
  flat_map (fun c => match select_item_id items (Commodity.name c) with
                     | Some id => [(id, c)]
                     | None => []
                     end) cs.

Definition hit_station_item (marketId : Z) (u : Z * Commodity.t)
    (r : StationItemRow.t) : bool :=
  station_item_matches marketId (fst u) r.

Definition set_from_commodity (ts : string) (u : Z * Commodity.t)
    (r : StationItemRow.t) : StationItemRow.t :=
  set_station_item (Commodity.sellPrice (snd u)) (Commodity.demand (snd u))
                   (Commodity.buyPrice (snd u)) (Commodity.stock (snd u)) ts r.

Definition hit_item (u : Z * Commodity.t) (r : ItemRow.t) : bool :=
  ItemRow.item_id r =? fst u.

Definition set_mean (u : Z * Commodity.t) (r : ItemRow.t) : ItemRow.t :=
  set_avg_price (Commodity.meanPrice (snd u)) r.

(** The statements one commodity issues, given the tables' items. *)
Definition queries (items : list ItemRow.t) (ts : string) (marketId : Z)
    (c : Commodity.t) : list stmt :=
  SelectItemId (Commodity.name c) ::
  match select_item_id items (Commodity.name c) with
  | Some id =>
      [UpdateStationItem (Commodity.sellPrice c) (Commodity.demand c)
                         (Commodity.buyPrice c) (Commodity.stock c)
                         ts marketId id;
       UpdateItem (Commodity.meanPrice c) id]
  | None => []
  end.

Definition statements (items : list ItemRow.t) (ts : string) (marketId : Z)
    (c : Commodity.t) : list event :=
  map Execute (queries items ts marketId c).

(** The statements of a commodity message, when its timestamp converts to
    [ts]. *)
Definition message_queries (store : db) (ts : string) (msg : EDDNCommodityMessage.t)
  : list stmt :=
  let m := EDDNCommodityMessage.message msg in
  flat_map (queries (Item store) ts (CommodityMessage.marketId m))
           (CommodityMessage.commodities m).

(** The statement of a system event, when its timestamp converts to [ts]. *)
Definition jump_query (ts : string) (msg : EDDNFSDJumpMessage.t) : stmt :=
  let m := EDDNFSDJumpMessage.message msg in
  UpdateSystem (FSDJumpMessage.ControllingPower m) ts (FSDJumpMessage.StarSystem m).

(** The same message with another list of commodities. *)
Definition with_commodities (cs : list Commodity.t) (msg : EDDNCommodityMessage.t)
  : EDDNCommodityMessage.t :=
  let m := EDDNCommodityMessage.message msg in
  {| EDDNCommodityMessage.schema_ref := EDDNCommodityMessage.schema_ref msg;
     EDDNCommodityMessage.header := EDDNCommodityMessage.header msg;
     EDDNCommodityMessage.message :=
       {| CommodityMessage.systemName := CommodityMessage.systemName m;
          CommodityMessage.stationName := CommodityMessage.stationName m;
          CommodityMessage.marketId := CommodityMessage.marketId m;
          CommodityMessage.timestamp := CommodityMessage.timestamp m;
          CommodityMessage.commodities := cs;
          CommodityMessage.stationType := CommodityMessage.stationType m;
          CommodityMessage.carrierDockingAccess := CommodityMessage.carrierDockingAccess m;
          CommodityMessage.horizons := CommodityMessage.horizons m;
          CommodityMessage.odyssey := CommodityMessage.odyssey m;
          CommodityMessage.economies := CommodityMessage.economies m;
          CommodityMessage.prohibited := CommodityMessage.prohibited m |} |}.

(** The store an attempt leaves: what it committed, or the store as it was. *)
Definition store_after (store : db) (a : attempt) : db :=
  match outcome a with
  | Ok store' => store'
  | Raise _ => store
  end.

Section Libraries.
Variable rich_print : event -> option exn.
Variable sqlite_raises : stmt -> shape -> option exn.

(** None of the statements is one the database refuses. *)
Definition quiet (s : shape) (qs : list stmt) : bool :=
  forallb (fun q => match sqlite_raises q s with
                    | None => true
                    | Some _ => false
                    end) qs.

(** A commodity message goes through on a store, with [ts] for its
    timestamp: its station is no carrier, its line prints, its timestamp
    converts to [ts] and the database refuses none of its statements. *)
Definition goes_through (store : db) (msg : EDDNCommodityMessage.t) (ts : string)
  : Prop :=
  let m := EDDNCommodityMessage.message msg in
  is_carrier (CommodityMessage.stationName m) = false /\
  rich_print (market_line msg) = None /\
  db_timestamp (CommodityMessage.timestamp m) = Ok ts /\
  quiet (shape_of store) (message_queries store ts msg) = true.

(** A system event goes through on a store: the filter lets it pass, its
    line prints, its timestamp converts to [ts] and the database does not
    refuse its statement. *)
Definition jump_goes_through (store : db) (msg : EDDNFSDJumpMessage.t) (ts : string)
  : Prop :=
  let m := EDDNFSDJumpMessage.message msg in
  system_filter m = Ok true /\
  rich_print (system_line msg) = None /\
  db_timestamp_opt (FSDJumpMessage.timestamp m) = Ok ts /\
  sqlite_raises (jump_query ts msg) (shape_of store) = None.

(** Handling one commodity message, seen as a function on the store. *)
Definition apply_message (store : db) (msg : EDDNCommodityMessage.t) : db :=
  store_after store (persist_commodity rich_print sqlite_raises store msg).

(** The store a system event leaves. *)
Definition apply_system (store : db) (msg : EDDNFSDJumpMessage.t) : db :=
  store_after store (persist_fsdjump rich_print sqlite_raises store msg).

End Libraries.

End Batch.

(* ------------------------------------------------------------------ *)
(** ** Sample data *)

Module Sample.
Import Store Listener.
Local Open Scope Z_scope.

Definition header : Header.t :=
  {| Header.uploaderID := "cmdr";
     Header.softwareName := "EDMC";
     Header.softwareVersion := "5.10";
     Header.gameVersion := None;
     Header.gameBuild := None;
     Header.gatewayTimestamp := None |}.

Definition commodity (name : string) (mean buy stock sell demand : Z) : Commodity.t :=
  {| Commodity.name := name;
     Commodity.meanPrice := mean;
     Commodity.buyPrice := buy;
     Commodity.stock := stock;
     Commodity.sellPrice := sell;
     Commodity.demand := demand;
     Commodity.statusFlags := None |}.

Definition market (station ts : string) (cs : list Commodity.t)
  : EDDNCommodityMessage.t :=
  {| EDDNCommodityMessage.schema_ref := "https://eddn.edcd.io/schemas/commodity/3";
     EDDNCommodityMessage.header := header;
     EDDNCommodityMessage.message :=
       {| CommodityMessage.systemName := "Shinrarta Dezhra";
          CommodityMessage.stationName := station;
          CommodityMessage.marketId := 128666762;
          CommodityMessage.timestamp := ts;
          CommodityMessage.commodities := cs;
          CommodityMessage.stationType := None;
          CommodityMessage.carrierDockingAccess := None;
          CommodityMessage.horizons := None;
          CommodityMessage.odyssey := None;
          CommodityMessage.economies := None;
          CommodityMessage.prohibited := None |} |}.

Definition jump (population : option Z) (power state : option string)
    (ts : option string) : EDDNFSDJumpMessage.t :=
  {| EDDNFSDJumpMessage.schema_ref := "https://eddn.edcd.io/schemas/journal/1";
     EDDNFSDJumpMessage.header := header;
     EDDNFSDJumpMessage.message :=
       {| FSDJumpMessage.StarSystem := "Sol";
          FSDJumpMessage.event := Some "FSDJump"%string;
          FSDJumpMessage.timestamp := ts;
          FSDJumpMessage.StarPos := None;
          FSDJumpMessage.SystemAddress := Some 10477373803;
          FSDJumpMessage.SystemAllegiance := None;
          FSDJumpMessage.SystemSecurity := None;
          FSDJumpMessage.Population := population;
          FSDJumpMessage.Powers := None;
          FSDJumpMessage.ControllingPower := power;
          FSDJumpMessage.PowerplayState := state |} |}.

Definition station_item (station item : Z) : StationItemRow.t :=
  {| StationItemRow.station_id := station;
     StationItemRow.item_id := item;
     StationItemRow.demand_price := 900;
     StationItemRow.demand_units := 10;
     StationItemRow.demand_level := 2;
     StationItemRow.supply_price := 800;
     StationItemRow.supply_units := 7;
     StationItemRow.supply_level := 3;
     StationItemRow.modified := "2023-12-31 08:00:00";
     StationItemRow.from_live := 0 |}.

Definition store : db :=
  {| Item := [ {| ItemRow.item_id := 1; ItemRow.name := "Hydrogen Fuel";
                  ItemRow.avg_price := 110 |};
               {| ItemRow.item_id := 2; ItemRow.name := "Tritium";
                  ItemRow.avg_price := 40000 |} ];
     StationItem := [ station_item 128666762 1; station_item 128666762 2;
                      station_item 3228342528 2 ];
     System := [ {| SystemRow.name := "Sol"; SystemRow.power := Some "Federation"%string;
                    SystemRow.modified := "2023-12-31 08:00:00" |};
                 {| SystemRow.name := "Achenar"; SystemRow.power := Some "Empire"%string;
                    SystemRow.modified := "2023-12-31 08:00:00" |} ] |}.

Definition tritium : Commodity.t := commodity "Tritium" 41000 1200 50 1500 200.

(** Stand-ins for the library calls. The console takes every line whose
    fields hold no square bracket and refuses the others, as [rich] refuses
    a line with a closing tag that closes nothing; its error quotes the
    field, as the error of [rich] quotes the tag. *)
Definition shown (o : option string) : string :=
  match o with
  | Some s => s
  | None => "None"
  end.

Definition fields (line : event) : list string :=
  match line with
  | Print_Market systemName stationName softwareName softwareVersion =>
      [systemName; stationName; softwareName; softwareVersion]
  | Print_System StarSystem ControllingPower PowerplayState softwareName softwareVersion =>
      [StarSystem; shown ControllingPower; shown PowerplayState;
       softwareName; softwareVersion]
  | Print_Error e => [detail e]
  | _ => []
  end.

Definition rich_print (line : event) : option exn :=
  match find (Text.contains "[") (fields line) with
  | Some field => Some (MarkupError field)
  | None => None
  end.

(** The database binds the integers of 64 bits and refuses a [LIKE]
    pattern of more than 50000 bytes once there is a row to test, as
    SQLite does on tables without an index on the name. *)
Definition int64 (n : Z) : bool :=
  (-9223372036854775808 <=? n) && (n <=? 9223372036854775807).

Fixpoint size (s : string) : N :=
  match s with
  | EmptyString => 0%N
  | String _ s' => N.succ (size s')
  end.

Definition too_long (pat : string) : bool := (50000 <? size pat)%N.

Definition no_rows {A} (l : list A) : bool :=
  match l with [] => true | _ :: _ => false end.

Definition too_large : exn :=
  OverflowError "Python int too large to convert to SQLite INTEGER".

Definition too_complex : exn :=
  OperationalError "LIKE or GLOB pattern too complex".

Definition sqlite_raises (q : stmt) (s : shape) : option exn :=
  match q with
  | SelectItemId pat =>
      if too_long pat && negb (no_rows (items s)) then Some too_complex else None
  | UpdateStationItem sell demand buy stock _ station item =>
      if int64 sell && int64 demand && int64 buy && int64 stock &&
         int64 station && int64 item
      then None else Some too_large
  | UpdateItem mean item =>
      if int64 mean && int64 item then None else Some too_large
  | UpdateSystem _ _ pat =>
      if too_long pat && negb (no_rows (systems s)) then Some too_complex else None
  end.

(** Frames that are their own text, and parsers that know one message
    each. *)
Definition decompress (frame : string) : result string := Ok frame.

Definition commodity_from_json (json : string) : result EDDNCommodityMessage.t :=
  if Text.contains "Jameson" json
  then Ok (market "Jameson Memorial" "2024-01-01T12:00:00Z" [tritium])
  else if Text.contains "K7Q-B2X" json
       then Ok (market "K7Q-B2X" "yesterday" [tritium])
       else if Text.contains "Orbis" json
            then Ok (market "Jameson Memorial" "[/x]" [tritium])
            else Ok (market "Jameson Memorial" "yesterday" [tritium]).

Definition fsdjump_from_json (json : string) : result EDDNFSDJumpMessage.t :=
  Ok (jump (Some 1000000) None (Some "Unoccupied"%string)
           (Some "2024-01-01T12:00:00Z"%string)).

Definition one_tritium : EDDNCommodityMessage.t :=
  market "Jameson Memorial" "2024-01-01T12:00:00Z" [tritium].

Definition two_tritium : EDDNCommodityMessage.t :=
  market "Jameson Memorial" "2024-01-01T12:00:00Z"
    [tritium; commodity "Tritium" 41000 1250 40 1600 180].

Definition with_unknown : EDDNCommodityMessage.t :=
  market "Jameson Memorial" "2024-01-01T12:00:00Z"
    [commodity "Unobtainium" 1 2 3 4 5; tritium].

(** A commodity name of 50001 bytes. *)
Definition long_name : string := N.iter 50001 (String "x") EmptyString.

Definition with_long_name : EDDNCommodityMessage.t :=
  market "Jameson Memorial" "2024-01-01T12:00:00Z"
    [tritium; commodity long_name 1 2 3 4 5].

Definition undated : EDDNCommodityMessage.t :=
  market "Jameson Memorial" "yesterday" [tritium].

(** A timestamp that is a closing tag of the console's markup. *)
Definition closing_tag : EDDNCommodityMessage.t :=
  market "Jameson Memorial" "[/x]" [tritium].

Definition carrier_undated : EDDNCommodityMessage.t :=
  market "K7Q-B2X" "yesterday" [tritium].

Definition short_fields : EDDNCommodityMessage.t :=
  market "Jameson Memorial" "2024-1-1T1:1:1Z" [tritium].

Definition tritium_item : ItemRow.t :=
  {| ItemRow.item_id := 2; ItemRow.name := "Tritium"; ItemRow.avg_price := 40000 |}.

Definition unoccupied : EDDNFSDJumpMessage.t :=
  jump (Some 1000000) None (Some "Unoccupied"%string)
       (Some "2024-01-01T12:00:00Z"%string).

(** The same event with an empty string for the controlling power. *)
Definition empty_power : EDDNFSDJumpMessage.t :=
  jump (Some 1000000) (Some EmptyString) (Some "Unoccupied"%string)
       (Some "2024-01-01T12:00:00Z"%string).

(** Payloads, as far as the classifier and the stand-in parsers read them. *)
Definition outfitting : string :=
  "schemaRef https://eddn.edcd.io/schemas/outfitting/2".
Definition market_jameson : string :=
  "schemaRef https://eddn.edcd.io/schemas/commodity/3 Jameson".
Definition market_carrier : string :=
  "schemaRef https://eddn.edcd.io/schemas/commodity/3 K7Q-B2X".
Definition market_undated : string :=
  "schemaRef https://eddn.edcd.io/schemas/commodity/3 Hutton".
Definition market_closing_tag : string :=
  "schemaRef https://eddn.edcd.io/schemas/commodity/3 Orbis".

(** A station name with a line feed after the carrier pattern. *)
Definition carrier_and_newline : string :=
  ("ABC-123" ++ String Text.newline EmptyString)%string.

(** Two workers, three frames, an interrupt while both workers wait in
    [get]. *)
Definition backlog_schedule : list Pool.action :=
  [ Pool.Sub None; Pool.Sub (Some "f1"%string); Pool.Sub None;
    Pool.Sub None; Pool.Sub (Some "f2"%string); Pool.Sub None;
    Pool.Sub None; Pool.Sub (Some "f3"%string); Pool.Sub None;
    Pool.Work 0; Pool.Work 1;
    Pool.Interrupt;
    Pool.Work 0; Pool.Work 1;
    Pool.Sub None;
    Pool.Main; Pool.Main; Pool.Main; Pool.Main;
    Pool.Work 0; Pool.Work 1;
    Pool.Main ].

Definition backlog_final : Pool.pool :=
  {| Pool.run_loop := false;
     Pool.message_queue := [Some "f3"%string; None; None];
     Pool.enqueued := [Some "f1"%string; Some "f2"%string; Some "f3"%string; None; None];
     Pool.dequeued := [(0%nat, Some "f1"%string); (1%nat, Some "f2"%string)];
     Pool.eddn_thread := Pool.SubClosed;
     Pool.main_thread := Pool.MainDone;
     Pool.workers := [Pool.Stopped; Pool.Stopped] |}.

(** The worker on the stand-ins. *)
Definition persist_commodity := Listener.persist_commodity rich_print sqlite_raises.
Definition persist_fsdjump := Listener.persist_fsdjump rich_print sqlite_raises.
Definition handle_payload :=
  Listener.handle_payload rich_print sqlite_raises commodity_from_json fsdjump_from_json.
Definition try_frame :=
  Listener.try_frame rich_print sqlite_raises decompress commodity_from_json
                     fsdjump_from_json.
Definition process_frame :=
  Listener.process_frame rich_print sqlite_raises decompress commodity_from_json
                         fsdjump_from_json.
Definition process_message :=
  Listener.process_message rich_print sqlite_raises decompress commodity_from_json
                           fsdjump_from_json.
Definition apply_message := Batch.apply_message rich_print sqlite_raises.
Definition apply_system := Batch.apply_system rich_print sqlite_raises.

End Sample.

(* ------------------------------------------------------------------ *)
(** ** Views of the store and of the events *)

Module Views.
Import Store Listener Batch.

(** An ASCII letter, by its code. *)
Definition letter (c : N) : Prop := (65 <= c <= 90 \/ 97 <= c <= 122)%N.

(** Two characters that are the same up to ASCII case. *)
Definition alike (c d : N) : Prop :=
  c = d \/ (letter c /\ letter d /\ Sql.fold c = Sql.fold d).

(** The characters that stand between the fields of a timestamp. *)
Definition is_sep (c : ascii) : bool :=
  Ascii.eqb c "-" || Ascii.eqb c ":" || Text.eq_nocase "T" c || Text.eq_nocase "Z" c.

(** A text none of whose characters has the property. *)
Fixpoint free_of (p : ascii -> bool) (s : string) : bool :=
  match s with
  | EmptyString => true
  | String c s' => negb (p c) && free_of p s'
  end.

(** The groups of a timestamp, as the pattern of the format names them. *)
Definition wire_groups (Y m d H M S : string) : Regex.captures :=
  [("Y", Y); ("m", m); ("d", d); ("H", H); ("M", M); ("S", S)]%string.

(** A timestamp put together from its fields and the two letters. *)
Definition wire_join (Y m d : string) (T : ascii) (H M S : string) (Z : ascii)
  : string :=
  (Y ++ String "-" (m ++ String "-" (d ++ String T
     (H ++ String ":" (M ++ String ":" (S ++ String Z EmptyString))))))%string.

(** Running statements one after the other. *)
Definition replay (qs : list stmt) (d : db) : db :=
  fold_left (fun d q => run q d) qs d.

Definition is_print (e : event) : bool :=
  match e with
  | Print_Market _ _ _ _ | Print_System _ _ _ _ _ => true
  | _ => false
  end.

(** The forms the [try] block can take on one message: nothing done on the
    database; an exception before the database is touched; a line printed,
    the connection opened, statements executed and an exception, which
    leaves the connection neither committed nor closed; or a line printed,
    the connection opened, statements executed, the whole committed and
    the connection closed. *)
Inductive transaction (store : db) : attempt -> Prop :=
| tx_dropped : transaction store {| outcome := Ok store; events := [] |}
| tx_refused e : transaction store {| outcome := Raise e; events := [] |}
| tx_left_open p qs e :
    is_print p = true ->
    transaction store
      {| outcome := Raise e; events := p :: Connect :: map Execute qs |}
| tx_committed p qs :
    is_print p = true ->
    transaction store
      {| outcome := Ok (replay qs store);
         events := p :: Connect :: map Execute qs ++ [Commit; Close] |}.

(** The ids of the items the commodities of a message find. *)
Definition found_ids (items : list ItemRow.t) (msg : EDDNCommodityMessage.t)
  : list Z :=
  map fst (resolve items (CommodityMessage.commodities (EDDNCommodityMessage.message msg))).

(** The patterns of the lookups among the events, in order. *)
Fixpoint lookups (ev : list event) : list string :=
  match ev with
  | [] => []
  | Execute (SelectItemId pat) :: ev' => pat :: lookups ev'
  | _ :: ev' => lookups ev'
  end.

(** An ASCII character that is no wildcard of [LIKE] and not NUL. *)
Definition plain_char (c : ascii) : bool :=
  let b := Unicode.byte c in
  ((0 <? b) && (b <? 128) && negb (b =? Sql.percent) && negb (b =? Sql.underscore))%N.

(** A name made of such characters. *)
Fixpoint plain (pat : string) : bool :=
  match pat with
  | EmptyString => true
  | String c pat' => plain_char c && plain pat'
  end.

End Views.

(* ------------------------------------------------------------------ *)
(** ** Measures of the shutdown *)

Module Shutdown.
Import Pool.

(** The items of a queue are frames first, sentinels after. *)
Definition ordered (l : list (option string)) : Prop :=
  l = map Some (handled l) ++ repeat None (sentinels l).

(** Whether a move is a move of a thread. *)
Definition is_thread_move (a : action) : bool :=
  match a with Interrupt => false | _ => true end.

Definition thread_moves (sched : list action) : nat :=
  List.length (filter is_thread_move sched).

(** The frame [subscribe_to_eddn] holds between [recv] and [put]. *)
Definition in_hand (t : sub_state) : nat :=
  match t with SubPut _ => 1 | _ => 0 end.

(** The moves the threads can still make once the flag is cleared. *)
Definition sub_effort (t : sub_state) : nat :=
  match t with
  | SubPut _ => 2
  | SubTest | SubPolled => 1
  | SubClosed => 0
  end.

Definition main_effort (num_workers : nat) (t : main_state) : nat :=
  match t with
  | MainJoinSub => num_workers + 3
  | MainPut k => k + 2
  | MainJoinWorkers => 1
  | MainDone => 0
  end.

Definition effort (s : pool) : nat :=
  sub_effort (eddn_thread s) +
  main_effort (List.length (workers s)) (main_thread s) +
  list_sum (map moves_left (workers s)).

End Shutdown.

(* ------------------------------------------------------------------ *)
(** ** More sample data *)

Module Cases.
Import Store Listener Pool.
Local Open Scope Z_scope.

(** A market message about hydrogen fuel, and one about tritium at another
    market. *)
Definition hydrogen : EDDNCommodityMessage.t :=
  Sample.market "Jameson Memorial" "2024-01-01T12:05:00Z"
    [Sample.commodity "HydrogenFuel" 115 100 900 120 30].

Definition tritium_elsewhere : EDDNCommodityMessage.t :=
  {| EDDNCommodityMessage.schema_ref := "https://eddn.edcd.io/schemas/commodity/3";
     EDDNCommodityMessage.header := Sample.header;
     EDDNCommodityMessage.message :=
       {| CommodityMessage.systemName := "Colonia";
          CommodityMessage.stationName := "Jaques Station";
          CommodityMessage.marketId := 3228342528;
          CommodityMessage.timestamp := "2024-01-01T12:10:00Z";
          CommodityMessage.commodities := [Sample.commodity "Tritium" 42000 1300 10 1700 90];
          CommodityMessage.stationType := None;
          CommodityMessage.carrierDockingAccess := None;
          CommodityMessage.horizons := None;
          CommodityMessage.odyssey := None;
          CommodityMessage.economies := None;
          CommodityMessage.prohibited := None |} |}.

Definition federation : EDDNFSDJumpMessage.t :=
  Sample.jump (Some 1000000) (Some "Federation"%string) (Some "Controlled"%string)
              (Some "2024-01-01T11:00:00Z"%string).

(** A system event whose name ends in a wildcard. *)
Definition every_system : EDDNFSDJumpMessage.t :=
  {| EDDNFSDJumpMessage.schema_ref := "https://eddn.edcd.io/schemas/journal/1";
     EDDNFSDJumpMessage.header := Sample.header;
     EDDNFSDJumpMessage.message :=
       {| FSDJumpMessage.StarSystem := "%";
          FSDJumpMessage.event := Some "FSDJump"%string;
          FSDJumpMessage.timestamp := Some "2024-01-01T12:00:00Z"%string;
          FSDJumpMessage.StarPos := None;
          FSDJumpMessage.SystemAddress := None;
          FSDJumpMessage.SystemAllegiance := None;
          FSDJumpMessage.SystemSecurity := None;
          FSDJumpMessage.Population := Some 1;
          FSDJumpMessage.Powers := None;
          FSDJumpMessage.ControllingPower := Some "Nobody"%string;
          FSDJumpMessage.PowerplayState := None |} |}.

(** Two workers at work: one frame handled, a second in the subscriber's
    hand. *)
Definition busy_schedule : list action :=
  [ Sub None; Sub (Some "f1"%string); Sub None;
    Work 0; Work 0; Work 1;
    Sub None; Sub (Some "f2"%string) ].

Definition state_after (sched : list action) : pool :=
  match run sched (boot 2) with
  | Some s => s
  | None => boot 2
  end.

Definition busy_state : pool := Eval vm_compute in state_after busy_schedule.

(** The interrupt comes then; the threads wind down. *)
Definition late_state : pool :=
  Eval vm_compute in state_after (busy_schedule ++ [Interrupt]).

Definition winding_down : list action :=
  [ Sub None; Sub None;
    Main; Main; Main; Main;
    Work 0; Work 1; Work 1;
    Main ].

Definition late_final : pool :=
  Eval vm_compute in state_after (busy_schedule ++ [Interrupt] ++ winding_down).

(** Two workers, one frame whose error the console refuses: the worker
    that takes it ends while the flag is set. *)
Definition crash_schedule : list action :=
  [ Sub None; Sub (Some "f1"%string); Sub None;
    Work 0; Work 1; Crash 0; Work 1 ].

Definition crash_state : pool := Eval vm_compute in state_after crash_schedule.

End Cases.

(* ================================================================== *)
(** * Facts about the listener *)

Import Text Regex Sql Timestamp Store Listener Batch Views.

(* ------------------------------------------------------------------ *)
(** ** The carrier pattern *)

Section CarrierFacts.

Variable rich_print : event -> option exn.
Variable sqlite_raises : stmt -> shape -> option exn.
Local Abbreviation persist_commodity :=
  (Listener.persist_commodity rich_print sqlite_raises).

Local Opaque Ascii.eqb is_alnum at_eol.

Lemma is_carrier_unfold a b c h d e f rest :
  is_carrier (String a (String b (String c (String h (String d (String e (String f rest)))))))
  = is_alnum a && is_alnum b && is_alnum c && Ascii.eqb "-" h &&
    is_alnum d && is_alnum e && is_alnum f && at_eol rest.
Proof.
  unfold is_carrier, re_match, carrier_pattern, lit.
  simpl.
  destruct (is_alnum a); simpl; [|reflexivity].
  destruct (is_alnum b); simpl; [|reflexivity].
  destruct (is_alnum c); simpl; [|reflexivity].
  destruct (Ascii.eqb "-" h); simpl; [|reflexivity].
  destruct (is_alnum d); simpl; [|reflexivity].
  destruct (is_alnum e); simpl; [|reflexivity].
  destruct (is_alnum f); simpl; [|reflexivity].
  destruct (at_eol rest); reflexivity.
Qed.

Lemma is_carrier_short s : (String.length s < 7)%nat -> is_carrier s = false.
Proof.
  unfold is_carrier, re_match, carrier_pattern, lit.
  intros H.
  do 7 (destruct s as [|? s];
        [simpl;
         repeat (match goal with
                 | |- context [if is_alnum ?c then _ else _] =>
                     destruct (is_alnum c); simpl
                 | |- context [if Ascii.eqb ?x ?y then _ else _] =>
                     destruct (Ascii.eqb x y); simpl
                 end); reflexivity|]).
  simpl in H. lia.
Qed.

Lemma carrier_name_unfold a b c h d e f rest :
  Spec.carrier_name (String a (String b (String c (String h (String d (String e (String f rest)))))))
  = is_alnum a && is_alnum b && is_alnum c && Ascii.eqb "-" h &&
    is_alnum d && is_alnum e && is_alnum f && is_empty rest.
Proof.
  unfold Spec.carrier_name. rewrite (Ascii.eqb_sym h).
  destruct rest; simpl; [rewrite andb_true_r; reflexivity|].
  rewrite andb_false_r. reflexivity.
Qed.

Lemma carrier_name_short s : (String.length s < 7)%nat -> Spec.carrier_name s = false.
Proof.
  intros H.
  do 7 (destruct s as [|? s]; [reflexivity|]).
  simpl in H. lia.
Qed.

Local Transparent at_eol.

Lemma at_eol_cases rest :
  at_eol rest = true <-> rest = EmptyString \/ rest = String newline EmptyString.
Proof.
  destruct rest as [|c [|d rest]]; simpl.
  - intuition.
  - rewrite Ascii.eqb_eq. split; [intros ->; now right|intros [H|H]; congruence].
  - split; [discriminate|intros [H|H]; discriminate].
Qed.

Lemma length_append (s t : string) :
  String.length (s ++ t) = (String.length s + String.length t)%nat.
Proof. induction s; simpl; [reflexivity|now rewrite IHs]. Qed.

(** [is_carrier] holds of the names of the carrier shape and of those names
    followed by one line feed, and of no other. *)
Lemma is_carrier_iff s :
  is_carrier s = true <->
  Spec.carrier_name s = true \/
  exists s0, s = (s0 ++ String newline EmptyString)%string /\ Spec.carrier_name s0 = true.
Proof.
  destruct (Nat.lt_ge_cases (String.length s) 7) as [Hlt|Hge].
  - rewrite is_carrier_short, carrier_name_short by assumption.
    split; [discriminate|]. intros [H|(s0 & -> & H)]; [discriminate|].
    destruct (Nat.lt_ge_cases (String.length s0) 7) as [Hlt0|Hge0].
    + rewrite carrier_name_short in H by assumption. discriminate.
    + rewrite length_append in Hlt. simpl in Hlt. lia.
  - do 7 (destruct s as [|? s]; [simpl in Hge; lia|]).
    rewrite is_carrier_unfold, carrier_name_unfold.
    split.
    + intros H. apply andb_true_iff in H. destruct H as [H Hr].
      apply at_eol_cases in Hr. destruct Hr as [->| ->].
      * left. rewrite H. reflexivity.
      * right. eexists (String _ (String _ (String _ (String _ (String _ (String _ (String _ EmptyString))))))).
        split; [reflexivity|]. rewrite carrier_name_unfold, H. reflexivity.
    + intros [H|(s0 & E & H)].
      * apply andb_true_iff in H. destruct H as [H Hr]. rewrite H.
        destruct s; [reflexivity|discriminate].
      * destruct (Nat.lt_ge_cases (String.length s0) 7) as [Hlt0|Hge0];
          [rewrite carrier_name_short in H by assumption; discriminate|].
        do 7 (destruct s0 as [|? s0]; [simpl in Hge0; lia|]).
        rewrite carrier_name_unfold in H.
        apply andb_true_iff in H. destruct H as [H Hr].
        destruct s0; [|discriminate]. simpl in E. injection E as -> -> -> -> -> -> -> ->.
        rewrite H. reflexivity.
Qed.

Example carrier_examples :
  is_carrier "ABC-123" = true /\ is_carrier "Q1X-9YZ" = true /\
  is_carrier "J1X-7QP" = true /\ is_carrier "abc-123" = true /\
  is_carrier "Jameson Memorial" = false /\ is_carrier "ABCD-123" = false.
Proof. repeat split; vm_compute; reflexivity. Qed.

(** C3, at the input where the code leaves the claim: the name
    "ABC-123" followed by a line feed has eight characters, so it is not
    three alphanumerics, a hyphen and three alphanumerics, and yet
    [is_carrier] holds of it, because [$] also matches before a final line
    feed; the commodity update of such a station is dropped as a carrier's.
    On every other name [is_carrier] is the claim's pattern
    ([is_carrier_iff]). *)
Theorem is_carrier_accepts_trailing_newline :
  is_carrier Sample.carrier_and_newline = true /\
  Spec.carrier_name Sample.carrier_and_newline = false /\
  String.length Sample.carrier_and_newline = 8%nat /\
  persist_commodity Sample.store
    (Sample.market Sample.carrier_and_newline "2024-01-01T12:00:00Z" [Sample.tritium]) =
  {| outcome := Ok Sample.store; events := [] |}.
Proof. repeat split; vm_compute; reflexivity. Qed.

End CarrierFacts.

(* ------------------------------------------------------------------ *)
(** ** Sequences of row updates *)

Section RowsFacts.
Variables (Row U : Type).
Variable hit : U -> Row -> bool.
Variable set : U -> Row -> Row.
Hypothesis hit_set : forall u v r, hit u (set v r) = hit u r.
Hypothesis set_set : forall u v r, set u (set v r) = set u r.

Local Abbreviation upd := (upd hit set).
Local Abbreviation apply_all := (apply_all hit set).

Lemma apply_all_app us vs r :
  apply_all (us ++ vs) r = apply_all vs (apply_all us r).
Proof. apply fold_left_app. Qed.

Lemma hit_upd u v r : hit u (upd v r) = hit u r.
Proof. unfold Batch.upd. destruct (hit v r); [apply hit_set|reflexivity]. Qed.

Lemma set_upd u v r : set u (upd v r) = set u r.
Proof. unfold Batch.upd. destruct (hit v r); [apply set_set|reflexivity]. Qed.

Lemma hit_apply_all u us r : hit u (apply_all us r) = hit u r.
Proof.
  revert r. induction us as [|v us IH]; intros r; simpl; [reflexivity|].
  fold (apply_all us (upd v r)). rewrite IH. apply hit_upd.
Qed.

Lemma set_apply_all u us r : set u (apply_all us r) = set u r.
Proof.
  revert r. induction us as [|v us IH]; intros r; simpl; [reflexivity|].
  fold (apply_all us (upd v r)). rewrite IH. apply set_upd.
Qed.

Lemma apply_all_miss us r :
  (forall u, In u us -> hit u r = false) -> apply_all us r = r.
Proof.
  revert r. induction us as [|v us IH]; intros r H; simpl; [reflexivity|].
  fold (apply_all us (upd v r)).
  assert (E : upd v r = r) by (unfold Batch.upd; rewrite (H v (or_introl eq_refl)); reflexivity).
  rewrite E. apply IH. intros u Hu. apply H. now right.
Qed.

(** The last update that hits a row decides it. *)
Lemma apply_all_last us u vs r :
  hit u r = true ->
  (forall v, In v vs -> hit v r = false) ->
  apply_all (us ++ u :: vs) r = set u r.
Proof.
  intros Hu Hvs. rewrite apply_all_app. simpl.
  fold (apply_all vs (upd u (apply_all us r))).
  unfold Batch.upd at 1. rewrite hit_apply_all, Hu, set_apply_all.
  apply apply_all_miss. intros v Hv. rewrite hit_set. now apply Hvs.
Qed.

Lemma last_hit_split us r :
  (forall u, In u us -> hit u r = false) \/
  exists us1 u vs, us = us1 ++ u :: vs /\ hit u r = true /\
                   forall v, In v vs -> hit v r = false.
Proof.
  induction us as [|a us IH].
  - left. intros u [].
  - destruct IH as [Hmiss|(us1 & u & vs & -> & Hu & Hvs)].
    + destruct (hit a r) eqn:Ha.
      * right. exists [], a, us. repeat split; assumption.
      * left. intros u [<-|Hu]; [assumption|now apply Hmiss].
    + right. exists (a :: us1), u, vs. repeat split; assumption.
Qed.

Lemma apply_all_idem us r : apply_all us (apply_all us r) = apply_all us r.
Proof.
  destruct (last_hit_split us r) as [Hmiss|(us1 & u & vs & -> & Hu & Hvs)].
  - rewrite (apply_all_miss us r Hmiss). now apply apply_all_miss.
  - rewrite (apply_all_last us1 u vs r Hu Hvs).
    rewrite apply_all_last.
    + apply set_set.
    + now rewrite hit_set.
    + intros v Hv. rewrite hit_set. now apply Hvs.
Qed.

End RowsFacts.
(* ------------------------------------------------------------------ *)
(** ** The commodity loop *)

Section StoreFacts.
Local Open Scope Z_scope.

Variable rich_print : event -> option exn.
Variable sqlite_raises : stmt -> shape -> option exn.
Local Abbreviation execute := (Listener.execute sqlite_raises).
Local Abbreviation commodity_step := (Listener.commodity_step sqlite_raises).
Local Abbreviation commodity_loop := (Listener.commodity_loop sqlite_raises).
Local Abbreviation persist_commodity :=
  (Listener.persist_commodity rich_print sqlite_raises).
Local Abbreviation persist_fsdjump :=
  (Listener.persist_fsdjump rich_print sqlite_raises).
Local Abbreviation quiet := (Batch.quiet sqlite_raises).
Local Abbreviation goes_through := (Batch.goes_through rich_print sqlite_raises).
Local Abbreviation jump_goes_through :=
  (Batch.jump_goes_through rich_print sqlite_raises).
Local Abbreviation apply_message := (Batch.apply_message rich_print sqlite_raises).
Local Abbreviation apply_system := (Batch.apply_system rich_print sqlite_raises).

Lemma hit_set_station mid ts (u v : Z * Commodity.t) r :
  hit_station_item mid u (set_from_commodity ts v r) = hit_station_item mid u r.
Proof. reflexivity. Qed.

Lemma set_set_station ts (u v : Z * Commodity.t) r :
  set_from_commodity ts u (set_from_commodity ts v r) = set_from_commodity ts u r.
Proof. reflexivity. Qed.

Lemma hit_set_item (u v : Z * Commodity.t) r :
  hit_item u (set_mean v r) = hit_item u r.
Proof. reflexivity. Qed.

Lemma set_set_item (u v : Z * Commodity.t) r :
  set_mean u (set_mean v r) = set_mean u r.
Proof. reflexivity. Qed.

(** Updates keep the key columns of a row. *)
Lemma station_keys_apply_all mid ts us r :
  let r' := apply_all (hit_station_item mid) (set_from_commodity ts) us r in
  StationItemRow.station_id r' = StationItemRow.station_id r /\
  StationItemRow.item_id r' = StationItemRow.item_id r.
Proof.
  revert r. induction us as [|u us IH]; intros r; simpl; [split; reflexivity|].
  specialize (IH (upd (hit_station_item mid) (set_from_commodity ts) u r)).
  simpl in IH. destruct IH as [-> ->].
  unfold upd. destruct (hit_station_item mid u r); split; reflexivity.
Qed.

Lemma item_keys_apply_all us r :
  let r' := apply_all hit_item set_mean us r in
  ItemRow.item_id r' = ItemRow.item_id r /\ ItemRow.name r' = ItemRow.name r.
Proof.
  revert r. induction us as [|u us IH]; intros r; simpl; [split; reflexivity|].
  specialize (IH (upd hit_item set_mean u r)).
  simpl in IH. destruct IH as [-> ->].
  unfold upd. destruct (hit_item u r); split; reflexivity.
Qed.

(** The lookup reads ids and names only. *)
Lemma select_item_id_ext (f : ItemRow.t -> ItemRow.t) items pat :
  (forall r, ItemRow.item_id (f r) = ItemRow.item_id r /\
             ItemRow.name (f r) = ItemRow.name r) ->
  select_item_id (map f items) pat = select_item_id items pat.
Proof.
  intros Hf. unfold select_item_id.
  induction items as [|a items IH]; simpl; [reflexivity|].
  destruct (Hf a) as [Hid Hname].
  unfold item_matches at 1 3. rewrite Hname.
  destruct (like pat (remove_spaces (ItemRow.name a))); [now rewrite Hid|exact IH].
Qed.

Lemma resolve_ext (f : ItemRow.t -> ItemRow.t) items cs :
  (forall r, ItemRow.item_id (f r) = ItemRow.item_id r /\
             ItemRow.name (f r) = ItemRow.name r) ->
  resolve (map f items) cs = resolve items cs.
Proof.
  intros Hf. unfold resolve.
  apply flat_map_ext. intros c. now rewrite select_item_id_ext.
Qed.

Lemma queries_ext (f : ItemRow.t -> ItemRow.t) items ts mid c :
  (forall r, ItemRow.item_id (f r) = ItemRow.item_id r /\
             ItemRow.name (f r) = ItemRow.name r) ->
  queries (map f items) ts mid c = queries items ts mid c.
Proof. intros Hf. unfold queries. now rewrite select_item_id_ext. Qed.

Lemma statements_ext (f : ItemRow.t -> ItemRow.t) items ts mid c :
  (forall r, ItemRow.item_id (f r) = ItemRow.item_id r /\
             ItemRow.name (f r) = ItemRow.name r) ->
  statements (map f items) ts mid c = statements items ts mid c.
Proof. intros Hf. unfold statements. now rewrite queries_ext. Qed.

Lemma upd_item_keys u r :
  ItemRow.item_id (upd hit_item set_mean u r) = ItemRow.item_id r /\
  ItemRow.name (upd hit_item set_mean u r) = ItemRow.name r.
Proof. unfold upd. destruct (hit_item u r); split; reflexivity. Qed.

Lemma resolve_app items cs1 cs2 :
  resolve items (cs1 ++ cs2) = resolve items cs1 ++ resolve items cs2.
Proof. apply flat_map_app. Qed.

Lemma db_eta d : {| Item := Item d; StationItem := StationItem d; System := System d |} = d.
Proof. destruct d; reflexivity. Qed.

(** No statement changes the rows there are, their keys or their names. *)
Lemma run_keeps_keys q d :
  item_keys (run q d) = item_keys d /\
  station_keys (run q d) = station_keys d /\
  system_names (run q d) = system_names d.
Proof.
  unfold item_keys, station_keys, system_names.
  destruct q; simpl; repeat split; try reflexivity.
  - unfold update_station_item. rewrite map_map. apply map_ext. intros r.
    destruct (station_item_matches station item r); reflexivity.
  - unfold update_item. rewrite map_map. apply map_ext. intros r.
    destruct (ItemRow.item_id r =? item); reflexivity.
  - unfold update_system. rewrite map_map. apply map_ext. intros r.
    destruct (like pat (SystemRow.name r)); reflexivity.
Qed.

Lemma shape_of_run q d : shape_of (run q d) = shape_of d.
Proof.
  unfold shape_of. destruct (run_keeps_keys q d) as (-> & -> & ->). reflexivity.
Qed.

Lemma and_then_ok (m k : call) t t1 :
  m t = (t1, None) -> and_then m k t = k t1.
Proof. intros H. unfold and_then. now rewrite H. Qed.

Lemma and_then_raises (m k : call) t t1 e :
  m t = (t1, Some e) -> and_then m k t = (t1, Some e).
Proof. intros H. unfold and_then. now rewrite H. Qed.

Lemma execute_ok q t :
  sqlite_raises q (shape_of (work t)) = None ->
  execute q t = ({| work := run q (work t); log := log t ++ [Execute q] |}, None).
Proof. intros H. unfold Listener.execute. now rewrite H. Qed.

Lemma execute_raises q t e :
  sqlite_raises q (shape_of (work t)) = Some e -> execute q t = (t, Some e).
Proof. intros H. unfold Listener.execute. now rewrite H. Qed.

Lemma quiet_app s qs1 qs2 : quiet s (qs1 ++ qs2) = quiet s qs1 && quiet s qs2.
Proof. apply forallb_app. Qed.

Lemma quiet_cons s q qs :
  quiet s (q :: qs) = true <-> sqlite_raises q s = None /\ quiet s qs = true.
Proof.
  unfold Batch.quiet. simpl. rewrite andb_true_iff.
  destruct (sqlite_raises q s); intuition congruence.
Qed.

Lemma commodity_loop_cons ts mid c cs t :
  commodity_loop ts mid (c :: cs) t =
  and_then (commodity_step ts mid c) (commodity_loop ts mid cs) t.
Proof. reflexivity. Qed.

(** One commodity none of whose statements is refused: its statements run
    and are logged. *)
Lemma commodity_step_quiet ts mid c t :
  quiet (shape_of (work t)) (queries (Item (work t)) ts mid c) = true ->
  commodity_step ts mid c t =
  ({| work := fold_left (fun d q => run q d) (queries (Item (work t)) ts mid c) (work t);
      log := log t ++ statements (Item (work t)) ts mid c |}, None).
Proof.
  unfold Listener.commodity_step, statements, queries, and_then. intros H.
  apply quiet_cons in H. destruct H as [H1 H].
  rewrite (execute_ok _ t H1). cbn [work log run].
  destruct (select_item_id (Item (work t)) (Commodity.name c)) as [id|].
  - apply quiet_cons in H. destruct H as [H2 H].
    apply quiet_cons in H. destruct H as [H3 _].
    rewrite execute_ok; cbn [work log]; [|exact H2].
    rewrite execute_ok; cbn [work log]; [|now rewrite shape_of_run].
    simpl. rewrite <- !app_assoc. reflexivity.
  - simpl. reflexivity.
Qed.

(** One commodity with a statement that is refused: the loop ends there. *)
Lemma commodity_step_refused ts mid c t :
  quiet (shape_of (work t)) (queries (Item (work t)) ts mid c) = false ->
  exists t1 e, commodity_step ts mid c t = (t1, Some e).
Proof.
  unfold Listener.commodity_step, queries, and_then. intros H.
  destruct (sqlite_raises (SelectItemId (Commodity.name c)) (shape_of (work t)))
    as [e|] eqn:E1.
  - exists t, e. now rewrite (execute_raises _ t e E1).
  - rewrite (execute_ok _ t E1). cbn [work log run].
    destruct (select_item_id (Item (work t)) (Commodity.name c)) as [id|].
    + match type of H with
      | Batch.quiet _ _ (_ :: ?q2 :: ?q3 :: nil) = false =>
          destruct (sqlite_raises q2 (shape_of (work t))) as [e|] eqn:E2;
          [|destruct (sqlite_raises q3 (shape_of (work t))) as [e|] eqn:E3]
      end.
      * eexists _, e. rewrite execute_raises with (e := e); [reflexivity|exact E2].
      * eexists _, e. rewrite execute_ok; cbn [work log]; [|exact E2].
        rewrite execute_raises with (e := e); [reflexivity|].
        cbn [work]. now rewrite shape_of_run.
      * exfalso. unfold Batch.quiet in H. simpl in H.
        rewrite E1, E2, E3 in H. discriminate.
    + exfalso. unfold Batch.quiet in H. simpl in H. rewrite E1 in H. discriminate.
Qed.

Lemma replay_items qs d :
  exists f, (forall r, ItemRow.item_id (f r) = ItemRow.item_id r /\
                       ItemRow.name (f r) = ItemRow.name r) /\
            Item (fold_left (fun d q => run q d) qs d) = map f (Item d).
Proof.
  revert d. induction qs as [|q qs IH]; intros d.
  - exists (fun r => r). split; [intros r; split; reflexivity|]. simpl. now rewrite map_id.
  - simpl. destruct (IH (run q d)) as (f & Hf & E). rewrite E.
    destruct q; simpl; try (exists f; split; [exact Hf|reflexivity]).
    exists (fun r => f (if ItemRow.item_id r =? item then set_avg_price mean r else r)).
    split.
    + intros r. destruct (Hf (if ItemRow.item_id r =? item then set_avg_price mean r else r))
        as [-> ->]. destruct (ItemRow.item_id r =? item); split; reflexivity.
    + unfold update_item. now rewrite map_map.
Qed.

Lemma shape_of_replay qs d : shape_of (fold_left (fun d q => run q d) qs d) = shape_of d.
Proof.
  revert d. induction qs as [|q qs IH]; intros d; simpl; [reflexivity|].
  now rewrite IH, shape_of_run.
Qed.

(** What the statements of one commodity do to the tables. *)
Lemma queries_run items ts mid c d :
  fold_left (fun d q => run q d) (queries items ts mid c) d =
  {| Item := map (apply_all hit_item set_mean (resolve items [c])) (Item d);
     StationItem := map (apply_all (hit_station_item mid) (set_from_commodity ts)
                                   (resolve items [c])) (StationItem d);
     System := System d |}.
Proof.
  unfold queries, resolve. simpl.
  destruct (select_item_id items (Commodity.name c)) as [id|]; simpl.
  - reflexivity.
  - rewrite !map_id. symmetry. apply db_eta.
Qed.

(** The tables and the events after the loop when no statement is refused:
    every row has gone through the updates of the commodities that found
    an item, in message order. *)
Lemma loop_quiet ts mid cs t :
  quiet (shape_of (work t)) (flat_map (queries (Item (work t)) ts mid) cs) = true ->
  commodity_loop ts mid cs t =
  ({| work :=
        {| Item := map (apply_all hit_item set_mean (resolve (Item (work t)) cs))
                       (Item (work t));
           StationItem := map (apply_all (hit_station_item mid) (set_from_commodity ts)
                                         (resolve (Item (work t)) cs))
                              (StationItem (work t));
           System := System (work t) |};
      log := log t ++ flat_map (statements (Item (work t)) ts mid) cs |}, None).
Proof.
  revert t. induction cs as [|c cs IH]; intros t H.
  - simpl. rewrite !map_id, app_nil_r, db_eta. now destruct t.
  - cbn [flat_map] in H. rewrite quiet_app in H. apply andb_true_iff in H.
    destruct H as [Hc Hcs].
    rewrite commodity_loop_cons.
    rewrite (and_then_ok _ _ _ _ (commodity_step_quiet ts mid c t Hc)).
    rewrite queries_run.
    set (d1 := {| Item := _; StationItem := _; System := _ |}).
    assert (Ei : forall cs', resolve (Item d1) cs' = resolve (Item (work t)) cs').
    { intros cs'. unfold d1. cbn [Item]. apply resolve_ext. intros r.
      apply item_keys_apply_all. }
    assert (Eq : forall c', queries (Item d1) ts mid c' = queries (Item (work t)) ts mid c').
    { intros c'. unfold d1. cbn [Item]. apply queries_ext. intros r.
      apply item_keys_apply_all. }
    assert (Es : shape_of d1 = shape_of (work t)).
    { unfold d1. rewrite <- queries_run. apply shape_of_replay. }
    rewrite IH; cbn [work log].
    + rewrite Ei. unfold d1. cbn [Item StationItem System].
      rewrite !map_map.
      change (c :: cs) with ([c] ++ cs).
      rewrite resolve_app, flat_map_app. f_equal. f_equal.
      * f_equal; apply map_ext; intros r; now rewrite apply_all_app.
      * rewrite <- app_assoc. f_equal. f_equal.
        -- simpl. now rewrite app_nil_r.
        -- apply flat_map_ext. intros c'. unfold statements. now rewrite Eq.
    + rewrite Es. rewrite (flat_map_ext _ _ Eq). exact Hcs.
Qed.

(** With a statement that is refused the loop raises. *)
Lemma loop_refused ts mid cs t :
  quiet (shape_of (work t)) (flat_map (queries (Item (work t)) ts mid) cs) = false ->
  exists t1 e, commodity_loop ts mid cs t = (t1, Some e).
Proof.
  revert t. induction cs as [|c cs IH]; intros t H; [discriminate|].
  cbn [flat_map] in H. rewrite quiet_app in H.
  destruct (quiet (shape_of (work t)) (queries (Item (work t)) ts mid c)) eqn:Hc.
  - cbn [andb] in H. rewrite commodity_loop_cons.
    rewrite (and_then_ok _ _ _ _ (commodity_step_quiet ts mid c t Hc)).
    apply IH. cbn [work]. rewrite shape_of_replay.
    destruct (replay_items (queries (Item (work t)) ts mid c) (work t)) as (f & Hf & E).
    rewrite E. rewrite (flat_map_ext _ _ (fun c' => queries_ext f _ ts mid c' Hf)).
    exact H.
  - destruct (commodity_step_refused ts mid c t Hc) as (t1 & e & E).
    exists t1, e. rewrite commodity_loop_cons.
    now rewrite (and_then_raises _ _ _ _ _ E).
Qed.

(** However far the loop gets, the statements it has run are the first of
    the statements of the message, and all of them if it did not raise. *)
Lemma commodity_step_prefix ts mid c t t1 r :
  commodity_step ts mid c t = (t1, r) ->
  exists qs rest,
    queries (Item (work t)) ts mid c = qs ++ rest /\
    log t1 = log t ++ map Execute qs /\
    work t1 = fold_left (fun d q => run q d) qs (work t) /\
    (r = None -> rest = []).
Proof.
  unfold Listener.commodity_step, queries, and_then, Listener.execute.
  destruct (sqlite_raises (SelectItemId (Commodity.name c)) (shape_of (work t))).
  { intros [= <- <-]. eexists [], _. cbn [map fold_left app]. rewrite app_nil_r.
    split; [reflexivity|]. split; [reflexivity|]. split; [reflexivity|discriminate]. }
  cbn [work log run].
  destruct (select_item_id (Item (work t)) (Commodity.name c)) as [id|].
  - destruct (sqlite_raises (UpdateStationItem _ _ _ _ _ _ _) _).
    { intros [= <- <-]. eexists [_], _. cbn [log work map fold_left app].
      split; [reflexivity|]. split; [reflexivity|]. split; [reflexivity|discriminate]. }
    cbn [work log].
    destruct (sqlite_raises (UpdateItem _ _) _).
    { intros [= <- <-]. eexists [_; _], _. cbn [log work map fold_left app].
      rewrite <- app_assoc.
      split; [reflexivity|]. split; [reflexivity|]. split; [reflexivity|discriminate]. }
    intros [= <- <-]. eexists [_; _; _], []. cbn [log work map fold_left app].
    rewrite <- !app_assoc.
    split; [reflexivity|]. split; [reflexivity|]. split; [reflexivity|reflexivity].
  - intros [= <- <-]. eexists [_], []. cbn [log work map fold_left app].
    split; [reflexivity|]. split; [reflexivity|]. split; [reflexivity|reflexivity].
Qed.

Lemma commodity_loop_prefix ts mid cs t t1 r :
  commodity_loop ts mid cs t = (t1, r) ->
  exists qs rest,
    flat_map (queries (Item (work t)) ts mid) cs = qs ++ rest /\
    log t1 = log t ++ map Execute qs /\
    work t1 = fold_left (fun d q => run q d) qs (work t) /\
    (r = None -> rest = []).
Proof.
  revert t. induction cs as [|c cs IH]; intros t.
  - simpl. intros [= <- <-]. exists [], []. simpl. rewrite app_nil_r.
    split; [reflexivity|]. split; [reflexivity|]. split; reflexivity.
  - rewrite commodity_loop_cons. unfold and_then.
    destruct (commodity_step ts mid c t) as [t0 r0] eqn:E0.
    destruct (commodity_step_prefix _ _ _ _ _ _ E0) as (qs0 & rest0 & Q0 & L0 & W0 & R0).
    cbn [flat_map]. destruct r0 as [e|].
    + intros [= <- <-]. exists qs0, (rest0 ++ flat_map (queries (Item (work t)) ts mid) cs).
      rewrite Q0, <- app_assoc. repeat split; try assumption. discriminate.
    + specialize (R0 eq_refl). subst rest0. rewrite app_nil_r in Q0. intros E.
      destruct (IH _ E) as (qs & rest & Q & L & W & R).
      assert (Eq : forall c', queries (Item (work t0)) ts mid c' =
                              queries (Item (work t)) ts mid c').
      { intros c'. rewrite W0.
        destruct (replay_items qs0 (work t)) as (f & Hf & ->). now apply queries_ext. }
      rewrite (flat_map_ext _ _ Eq) in Q.
      exists (qs0 ++ qs), rest. rewrite Q0, Q, L, L0, W, W0.
      rewrite map_app, fold_left_app, !app_assoc. repeat split. exact R.
Qed.

(** The commodity branch on a message that goes through. *)
Lemma persist_commodity_ok store msg ts :
  let m := EDDNCommodityMessage.message msg in
  let us := resolve (Item store) (CommodityMessage.commodities m) in
  goes_through store msg ts ->
  persist_commodity store msg =
  {| outcome :=
       Ok {| Item := map (apply_all hit_item set_mean us) (Item store);
             StationItem :=
               map (apply_all (hit_station_item (CommodityMessage.marketId m))
                              (set_from_commodity ts) us) (StationItem store);
             System := System store |};
     events :=
       [market_line msg; Connect] ++
       flat_map (statements (Item store) ts (CommodityMessage.marketId m))
                (CommodityMessage.commodities m) ++ [Commit; Close] |}.
Proof.
  intros m us H. subst m us. unfold Batch.goes_through in H. cbv zeta in H.
  destruct H as (Hc & Hp & Ht & Hq). unfold Listener.persist_commodity. cbv zeta.
  rewrite Hc, Hp, Ht. unfold emit. cbn [work log app].
  rewrite loop_quiet; [|exact Hq]. cbn [work log].
  rewrite <- !app_assoc. reflexivity.
Qed.

Lemma persist_commodity_carrier store msg :
  is_carrier (CommodityMessage.stationName (EDDNCommodityMessage.message msg)) = true ->
  persist_commodity store msg = {| outcome := Ok store; events := [] |}.
Proof. intros H. unfold Listener.persist_commodity. now rewrite H. Qed.

Lemma persist_commodity_unprinted store msg e :
  is_carrier (CommodityMessage.stationName (EDDNCommodityMessage.message msg)) = false ->
  rich_print (market_line msg) = Some e ->
  persist_commodity store msg = {| outcome := Raise e; events := [] |}.
Proof. intros Hc Hp. unfold Listener.persist_commodity. now rewrite Hc, Hp. Qed.

Lemma persist_commodity_bad_timestamp store msg e :
  let m := EDDNCommodityMessage.message msg in
  is_carrier (CommodityMessage.stationName m) = false ->
  rich_print (market_line msg) = None ->
  db_timestamp (CommodityMessage.timestamp m) = Raise e ->
  persist_commodity store msg =
  {| outcome := Raise e; events := [market_line msg; Connect] |}.
Proof.
  intros m Hc Hp Ht. subst m. unfold Listener.persist_commodity. cbv zeta.
  now rewrite Hc, Hp, Ht.
Qed.

Lemma apply_message_ok store msg ts :
  goes_through store msg ts ->
  apply_message store msg =
  {| Item := map (apply_all hit_item set_mean
                    (resolve (Item store)
                       (CommodityMessage.commodities (EDDNCommodityMessage.message msg))))
                 (Item store);
     StationItem :=
       map (apply_all (hit_station_item
                         (CommodityMessage.marketId (EDDNCommodityMessage.message msg)))
                      (set_from_commodity ts)
                      (resolve (Item store)
                         (CommodityMessage.commodities (EDDNCommodityMessage.message msg))))
           (StationItem store);
     System := System store |}.
Proof.
  intros H. unfold Batch.apply_message, store_after.
  now rewrite (persist_commodity_ok store msg ts H).
Qed.

(** The lookup, the statements of a message and whether the message goes
    through depend on the store by its keys only. *)
Lemma select_item_id_keys items items' pat :
  map (fun r => (ItemRow.item_id r, ItemRow.name r)) items =
  map (fun r => (ItemRow.item_id r, ItemRow.name r)) items' ->
  select_item_id items pat = select_item_id items' pat.
Proof.
  unfold select_item_id. revert items'.
  induction items as [|a items IH]; intros [|a' items'] H; try discriminate;
    [reflexivity|].
  simpl in H. injection H as Hid Hname H. simpl.
  unfold item_matches at 1 3. rewrite Hname.
  destruct (like pat (remove_spaces (ItemRow.name a'))); [now rewrite Hid|].
  now apply IH.
Qed.

Lemma shape_items d d' : shape_of d = shape_of d' -> item_keys d = item_keys d'.
Proof. unfold shape_of. now intros [= H _ _]. Qed.

Lemma resolve_shape d d' cs :
  shape_of d = shape_of d' -> resolve (Item d) cs = resolve (Item d') cs.
Proof.
  intros H. unfold resolve. apply flat_map_ext. intros c.
  now rewrite (select_item_id_keys (Item d) (Item d') _ (shape_items d d' H)).
Qed.

Lemma message_queries_shape d d' ts msg :
  shape_of d = shape_of d' -> message_queries d ts msg = message_queries d' ts msg.
Proof.
  intros H. unfold message_queries, queries. apply flat_map_ext. intros c.
  now rewrite (select_item_id_keys (Item d) (Item d') _ (shape_items d d' H)).
Qed.

Lemma goes_through_shape d d' msg ts :
  shape_of d = shape_of d' -> goes_through d msg ts -> goes_through d' msg ts.
Proof.
  intros H (Hc & Hp & Ht & Hq). repeat split; try assumption.
  now rewrite <- H, <- (message_queries_shape d d' ts msg H).
Qed.

Lemma jump_goes_through_shape d d' msg ts :
  shape_of d = shape_of d' -> jump_goes_through d msg ts -> jump_goes_through d' msg ts.
Proof.
  intros H (Hc & Hp & Ht & Hq). repeat split; try assumption. now rewrite <- H.
Qed.

(** What a message commits has the shape of the store it found. *)
Lemma persist_commodity_shape store msg store' :
  outcome (persist_commodity store msg) = Ok store' -> shape_of store' = shape_of store.
Proof.
  unfold Listener.persist_commodity. cbv zeta.
  destruct (is_carrier _); [now intros [= <-]|].
  destruct (rich_print _); [discriminate|].
  destruct (db_timestamp _) as [ts|e]; [|discriminate].
  destruct (commodity_loop _ _ _ _) as [t1 [e|]] eqn:E; [discriminate|].
  intros [= <-]. destruct (commodity_loop_prefix _ _ _ _ _ _ E) as (qs & _ & _ & _ & W & _).
  cbn [work emit] in *. rewrite W. apply shape_of_replay.
Qed.

Lemma apply_message_shape store msg :
  shape_of (apply_message store msg) = shape_of store.
Proof.
  unfold Batch.apply_message, store_after.
  destruct (outcome (persist_commodity store msg)) as [store'|e] eqn:E; [|reflexivity].
  now apply (persist_commodity_shape store msg).
Qed.

(** A commodity message goes through on a store, or it leaves that store
    and every store of the same shape as it is. *)
Lemma apply_message_cases store msg :
  (exists ts, goes_through store msg ts) \/
  (forall store', shape_of store' = shape_of store -> apply_message store' msg = store').
Proof.
  unfold Batch.goes_through, Batch.apply_message, store_after, Listener.persist_commodity.
  cbv zeta.
  destruct (is_carrier (CommodityMessage.stationName (EDDNCommodityMessage.message msg)))
    eqn:Hc; [right; reflexivity|].
  destruct (rich_print (market_line msg)) as [e|] eqn:Hp; [right; reflexivity|].
  destruct (db_timestamp (CommodityMessage.timestamp (EDDNCommodityMessage.message msg)))
    as [ts|e] eqn:Ht; [|right; reflexivity].
  destruct (quiet (shape_of store) (message_queries store ts msg)) eqn:Hq.
  - left. exists ts. repeat split; assumption.
  - right. intros store' Hs.
    rewrite <- Hs, (message_queries_shape store store' ts msg (eq_sym Hs)) in Hq.
    destruct (loop_refused ts
                (CommodityMessage.marketId (EDDNCommodityMessage.message msg))
                (CommodityMessage.commodities (EDDNCommodityMessage.message msg))
                (emit Connect (emit (market_line msg) {| work := store'; log := [] |}))
                Hq) as (t1 & e & E).
    now rewrite E.
Qed.

End StoreFacts.

(* ------------------------------------------------------------------ *)
(** ** Commodity updates *)

Section CommodityClaims.
Local Open Scope Z_scope.

Variable rich_print : event -> option exn.
Variable sqlite_raises : stmt -> shape -> option exn.
Local Abbreviation persist_commodity :=
  (Listener.persist_commodity rich_print sqlite_raises).
Local Abbreviation quiet := (Batch.quiet sqlite_raises).
Local Abbreviation goes_through := (Batch.goes_through rich_print sqlite_raises).
Local Abbreviation apply_message := (Batch.apply_message rich_print sqlite_raises).

Lemma resolve_hit items pre c post cid :
  select_item_id items (Commodity.name c) = Some cid ->
  resolve items (pre ++ c :: post) =
  resolve items pre ++ (cid, c) :: resolve items post.
Proof.
  intros H. rewrite resolve_app. f_equal.
  unfold resolve. simpl. now rewrite H.
Qed.

Lemma resolve_miss items pre c post :
  select_item_id items (Commodity.name c) = None ->
  resolve items (pre ++ c :: post) = resolve items (pre ++ post).
Proof.
  intros H. rewrite !resolve_app. f_equal.
  unfold resolve. simpl. now rewrite H.
Qed.

(** C1, as amended: for every commodity update that is let through (the
    station is no carrier, the line of the update prints, the timestamp
    parses to [ts] and the database refuses none of the statements) and
    every commodity [c] of it that finds the item [cid] and is the last
    commodity of the message to find that item, handling the message sets,
    in every StationItem row of that market and item, demand_price to
    sellPrice, demand_units to demand, supply_price to buyPrice,
    supply_units to stock, modified to [ts], both levels to 0 and from_live
    to 1, and sets avg_price to meanPrice in every Item row of that id; the
    rows of the two tables keep their keys and their order. *)
Theorem last_commodity_sets_rows store msg ts pre c post cid :
  let m := EDDNCommodityMessage.message msg in
  is_carrier (CommodityMessage.stationName m) = false ->
  rich_print (market_line msg) = None ->
  db_timestamp (CommodityMessage.timestamp m) = Ok ts ->
  quiet (shape_of store) (message_queries store ts msg) = true ->
  CommodityMessage.commodities m = pre ++ c :: post ->
  select_item_id (Item store) (Commodity.name c) = Some cid ->
  (forall c', In c' post -> select_item_id (Item store) (Commodity.name c') <> Some cid) ->
  exists store',
    outcome (persist_commodity store msg) = Ok store' /\
    (forall r, In r (StationItem store') ->
       StationItemRow.station_id r = CommodityMessage.marketId m ->
       StationItemRow.item_id r = cid ->
       StationItemRow.demand_price r = Commodity.sellPrice c /\
       StationItemRow.demand_units r = Commodity.demand c /\
       StationItemRow.supply_price r = Commodity.buyPrice c /\
       StationItemRow.supply_units r = Commodity.stock c /\
       StationItemRow.modified r = ts /\
       StationItemRow.demand_level r = 0 /\
       StationItemRow.supply_level r = 0 /\
       StationItemRow.from_live r = 1) /\
    (forall r, In r (Item store') -> ItemRow.item_id r = cid ->
       ItemRow.avg_price r = Commodity.meanPrice c) /\
    map (fun r => (StationItemRow.station_id r, StationItemRow.item_id r))
        (StationItem store') =
    map (fun r => (StationItemRow.station_id r, StationItemRow.item_id r))
        (StationItem store) /\
    map (fun r => (ItemRow.item_id r, ItemRow.name r)) (Item store') =
    map (fun r => (ItemRow.item_id r, ItemRow.name r)) (Item store).
Proof.
  intros m Hc Hp Ht Hq Hcs Hid Hlast.
  assert (Hgo : goes_through store msg ts) by (repeat split; assumption).
  rewrite (persist_commodity_ok rich_print sqlite_raises store msg ts Hgo).
  fold m. simpl outcome.
  eexists; split; [reflexivity|]. simpl.
  rewrite Hcs, (resolve_hit _ pre c post cid Hid).
  assert (Hpost : forall v, In v (resolve (Item store) post) -> fst v <> cid).
  { intros [id c'] Hv. unfold resolve in Hv. apply in_flat_map in Hv.
    destruct Hv as (c0 & Hc0 & Hv).
    destruct (select_item_id (Item store) (Commodity.name c0)) as [id0|] eqn:E;
      [|destruct Hv].
    destruct Hv as [Hv|[]]. injection Hv as <- <-. simpl.
    intros ->. exact (Hlast c0 Hc0 E). }
  split; [|split; [|split]].
  - intros r Hr Hst Hit.
    apply in_map_iff in Hr. destruct Hr as (r0 & <- & Hr0).
    destruct (station_keys_apply_all (CommodityMessage.marketId m) ts
                (resolve (Item store) pre ++ (cid, c) :: resolve (Item store) post) r0)
      as [Ks Ki].
    rewrite Ks in Hst. rewrite Ki in Hit.
    rewrite (apply_all_last _ _ (hit_station_item (CommodityMessage.marketId m))
               (set_from_commodity ts)
               (hit_set_station (CommodityMessage.marketId m) ts)
               (set_set_station ts)).
    + simpl. repeat split; reflexivity.
    + unfold hit_station_item, station_item_matches. simpl.
      rewrite Hst, Hit, !Z.eqb_refl. reflexivity.
    + intros v Hv. unfold hit_station_item, station_item_matches.
      apply Hpost in Hv. rewrite Hit.
      apply andb_false_intro2. apply Z.eqb_neq. congruence.
  - intros r Hr Hit.
    apply in_map_iff in Hr. destruct Hr as (r0 & <- & Hr0).
    destruct (item_keys_apply_all
                (resolve (Item store) pre ++ (cid, c) :: resolve (Item store) post) r0)
      as [Ki _].
    rewrite Ki in Hit.
    rewrite (apply_all_last _ _ hit_item set_mean hit_set_item set_set_item).
    + reflexivity.
    + unfold hit_item. simpl. rewrite Hit. apply Z.eqb_refl.
    + intros v Hv. unfold hit_item. apply Hpost in Hv. rewrite Hit.
      apply Z.eqb_neq. congruence.
  - rewrite map_map. apply map_ext. intros r0.
    destruct (station_keys_apply_all (CommodityMessage.marketId m) ts
                (resolve (Item store) pre ++ (cid, c) :: resolve (Item store) post) r0)
      as [-> ->]. reflexivity.
  - rewrite map_map. apply map_ext. intros r0.
    destruct (item_keys_apply_all
                (resolve (Item store) pre ++ (cid, c) :: resolve (Item store) post) r0)
      as [-> ->]. reflexivity.
Qed.

(** C5, as amended: in a commodity update that is let through (the station
    is no carrier, the line prints, the timestamp parses and the database
    refuses none of the statements, the lookup of [c] among them), a
    commodity [c] whose name finds no item is skipped: the message ends
    without an exception and leaves the very store the message without [c]
    leaves, its writes are those of the message without [c], and its events
    are those of the message without [c] with one more SELECT, the lookup
    of [c], in between. *)
Theorem unmatched_commodity_skipped store msg ts pre c post :
  let m := EDDNCommodityMessage.message msg in
  let a := persist_commodity store msg in
  let a' := persist_commodity store (with_commodities (pre ++ post) msg) in
  is_carrier (CommodityMessage.stationName m) = false ->
  rich_print (market_line msg) = None ->
  db_timestamp (CommodityMessage.timestamp m) = Ok ts ->
  quiet (shape_of store) (message_queries store ts msg) = true ->
  CommodityMessage.commodities m = pre ++ c :: post ->
  select_item_id (Item store) (Commodity.name c) = None ->
  (exists store', outcome a = Ok store' /\ outcome a' = Ok store') /\
  filter is_write (events a) = filter is_write (events a') /\
  exists before after,
    events a = before ++ Execute (SelectItemId (Commodity.name c)) :: after /\
    events a' = before ++ after.
Proof.
  intros m a a' Hc Hp Ht Hq Hcs Hnone. subst a a'.
  assert (Hgo : goes_through store msg ts) by (repeat split; assumption).
  assert (Hgo' : goes_through store (with_commodities (pre ++ post) msg) ts).
  { repeat split; try assumption.
    unfold message_queries in *. simpl. fold m in Hq |- *. rewrite Hcs in Hq.
    rewrite flat_map_app in *. cbn [flat_map] in Hq.
    rewrite !quiet_app in Hq. rewrite quiet_app.
    apply andb_true_iff in Hq. destruct Hq as [H1 H2].
    apply andb_true_iff in H2. destruct H2 as [_ H2]. now rewrite H1, H2. }
  rewrite (persist_commodity_ok rich_print sqlite_raises store msg ts Hgo).
  rewrite (persist_commodity_ok rich_print sqlite_raises store
             (with_commodities (pre ++ post) msg) ts Hgo').
  fold m. simpl. rewrite Hcs.
  assert (Er : resolve (Item store) (pre ++ c :: post) = resolve (Item store) (pre ++ post)).
  { now apply resolve_miss. }
  assert (Es : flat_map (statements (Item store) ts (CommodityMessage.marketId m))
                 (pre ++ c :: post) =
               flat_map (statements (Item store) ts (CommodityMessage.marketId m)) pre ++
               Execute (SelectItemId (Commodity.name c)) ::
               flat_map (statements (Item store) ts (CommodityMessage.marketId m)) post).
  { rewrite flat_map_app. cbn [flat_map]. unfold statements at 2, queries.
    rewrite Hnone. reflexivity. }
  rewrite Er, Es. repeat split.
  - eexists; split; reflexivity.
  - rewrite flat_map_app. rewrite !filter_app. simpl. reflexivity.
  - eexists (_ :: _ :: flat_map _ pre), (flat_map _ post ++ [Commit; Close]).
    split.
    + simpl. rewrite <- app_assoc. reflexivity.
    + simpl. rewrite flat_map_app, <- app_assoc. reflexivity.
Qed.

(** C7: handling the same commodity message a second time leaves the store
    as the first time left it. *)
Theorem apply_message_idempotent store msg :
  apply_message (apply_message store msg) msg = apply_message store msg.
Proof.
  destruct (apply_message_cases rich_print sqlite_raises store msg) as [(ts & Hgo)|E].
  - assert (Hgo' : goes_through (apply_message store msg) msg ts).
    { apply (goes_through_shape rich_print sqlite_raises store); [|exact Hgo].
      symmetry. apply apply_message_shape. }
    rewrite (apply_message_ok _ _ _ msg ts Hgo').
    rewrite (apply_message_ok _ _ store msg ts Hgo). cbn [Item StationItem System].
    rewrite (resolve_ext _ (Item store) _ (item_keys_apply_all _)).
    rewrite !map_map. f_equal.
    + apply map_ext. intros r.
      apply (apply_all_idem _ _ hit_item set_mean hit_set_item set_set_item).
    + apply map_ext. intros r.
      apply (apply_all_idem _ _ (hit_station_item _) (set_from_commodity ts)
               (hit_set_station _ ts) (set_set_station ts)).
  - rewrite (E store eq_refl). apply (E store eq_refl).
Qed.

End CommodityClaims.

Section CommodityInstances.
Local Open Scope Z_scope.

(** The instance of C1 the specification spells out: sellPrice 1500,
    demand 200, buyPrice 1200, stock 50 at "2024-01-01T12:00:00Z". *)
Lemma last_commodity_sets_rows_witness :
  exists store',
    outcome (Sample.persist_commodity Sample.store Sample.one_tritium) = Ok store' /\
    (forall r, In r (StationItem store') ->
       StationItemRow.station_id r = 128666762 ->
       StationItemRow.item_id r = 2 ->
       StationItemRow.demand_price r = 1500 /\
       StationItemRow.demand_units r = 200 /\
       StationItemRow.supply_price r = 1200 /\
       StationItemRow.supply_units r = 50 /\
       StationItemRow.modified r = "2024-01-01 12:00:00"%string /\
       StationItemRow.demand_level r = 0 /\
       StationItemRow.supply_level r = 0 /\
       StationItemRow.from_live r = 1) /\
    (forall r, In r (Item store') -> ItemRow.item_id r = 2 ->
       ItemRow.avg_price r = 41000) /\
    map (fun r => (StationItemRow.station_id r, StationItemRow.item_id r))
        (StationItem store') =
    map (fun r => (StationItemRow.station_id r, StationItemRow.item_id r))
        (StationItem Sample.store) /\
    map (fun r => (ItemRow.item_id r, ItemRow.name r)) (Item store') =
    map (fun r => (ItemRow.item_id r, ItemRow.name r)) (Item Sample.store).
Proof.
  apply (last_commodity_sets_rows Sample.rich_print Sample.sqlite_raises
           Sample.store Sample.one_tritium "2024-01-01 12:00:00"
           [] Sample.tritium [] 2).
  - vm_compute; reflexivity.
  - vm_compute; reflexivity.
  - vm_compute; reflexivity.
  - vm_compute; reflexivity.
  - reflexivity.
  - vm_compute; reflexivity.
  - intros c' [].
Defined.

Example tritium_update_runs :
  outcome (Sample.persist_commodity Sample.store Sample.one_tritium) =
  Ok {| Item := [ {| ItemRow.item_id := 1; ItemRow.name := "Hydrogen Fuel";
                     ItemRow.avg_price := 110 |};
                  {| ItemRow.item_id := 2; ItemRow.name := "Tritium";
                     ItemRow.avg_price := 41000 |} ];
        StationItem :=
          [ Sample.station_item 128666762 1;
            {| StationItemRow.station_id := 128666762;
               StationItemRow.item_id := 2;
               StationItemRow.demand_price := 1500;
               StationItemRow.demand_units := 200;
               StationItemRow.demand_level := 0;
               StationItemRow.supply_price := 1200;
               StationItemRow.supply_units := 50;
               StationItemRow.supply_level := 0;
               StationItemRow.modified := "2024-01-01 12:00:00";
               StationItemRow.from_live := 1 |};
            Sample.station_item 3228342528 2 ];
        System := System Sample.store |} /\
  events (Sample.persist_commodity Sample.store Sample.one_tritium) =
  [ Print_Market "Shinrarta Dezhra" "Jameson Memorial" "EDMC" "5.10";
    Connect;
    Execute (SelectItemId "Tritium");
    Execute (UpdateStationItem 1500 200 1200 50 "2024-01-01 12:00:00" 128666762 2);
    Execute (UpdateItem 41000 2);
    Commit; Close ].
Proof. split; vm_compute; reflexivity. Qed.

(** C1 as it was stated fails when two commodities of one message find the
    same item: the row ends with the values of the second, so the first
    commodity, which is in the message and finds the item, does not have
    its sellPrice in the row. *)
Lemma first_of_two_is_overwritten :
  let m := EDDNCommodityMessage.message Sample.two_tritium in
  is_carrier (CommodityMessage.stationName m) = false /\
  db_timestamp (CommodityMessage.timestamp m) = Ok "2024-01-01 12:00:00"%string /\
  In Sample.tritium (CommodityMessage.commodities m) /\
  select_item_id (Item Sample.store) (Commodity.name Sample.tritium) = Some 2 /\
  exists store' r,
    outcome (Sample.persist_commodity Sample.store Sample.two_tritium) = Ok store' /\
    In r (StationItem store') /\
    StationItemRow.station_id r = CommodityMessage.marketId m /\
    StationItemRow.item_id r = 2 /\
    StationItemRow.demand_price r = 1600 /\
    StationItemRow.demand_price r <> Commodity.sellPrice Sample.tritium.
Proof.
  cbv zeta. split; [vm_compute; reflexivity|]. split; [vm_compute; reflexivity|].
  split; [left; reflexivity|]. split; [vm_compute; reflexivity|].
  eexists. eexists. split; [vm_compute; reflexivity|].
  split; [right; left; reflexivity|].
  repeat split; vm_compute; discriminate.
Qed.

(** An instance of C5: "Unobtainium" is no item of the store; the message
    that lists it before Tritium does what the message with Tritium alone
    does, after one lookup more. *)
Lemma unmatched_commodity_skipped_witness :
  (exists store',
     outcome (Sample.persist_commodity Sample.store Sample.with_unknown) = Ok store' /\
     outcome (Sample.persist_commodity Sample.store Sample.one_tritium) = Ok store') /\
  filter is_write (events (Sample.persist_commodity Sample.store Sample.with_unknown)) =
  filter is_write (events (Sample.persist_commodity Sample.store Sample.one_tritium)) /\
  exists before after,
    events (Sample.persist_commodity Sample.store Sample.with_unknown) =
      before ++ Execute (SelectItemId "Unobtainium") :: after /\
    events (Sample.persist_commodity Sample.store Sample.one_tritium) = before ++ after.
Proof.
  apply (unmatched_commodity_skipped Sample.rich_print Sample.sqlite_raises
           Sample.store Sample.with_unknown "2024-01-01 12:00:00"
           [] (Sample.commodity "Unobtainium" 1 2 3 4 5) [Sample.tritium]).
  - vm_compute; reflexivity.
  - vm_compute; reflexivity.
  - vm_compute; reflexivity.
  - vm_compute; reflexivity.
  - reflexivity.
  - vm_compute; reflexivity.
Defined.

(** C5 as it was stated fails on a name the database does not take for a
    pattern: the second commodity of this message has a name of 50001
    bytes, which is the name of no item; its lookup raises, the message
    ends there with the update of the first commodity executed and not
    committed, and the store stays as it was, whereas the message without
    that commodity updates the store. *)
Lemma long_name_aborts_siblings :
  let msg := Sample.with_long_name in
  let m := EDDNCommodityMessage.message msg in
  let c := Sample.commodity Sample.long_name 1 2 3 4 5 in
  is_carrier (CommodityMessage.stationName m) = false /\
  db_timestamp (CommodityMessage.timestamp m) = Ok "2024-01-01 12:00:00"%string /\
  CommodityMessage.commodities m = [Sample.tritium] ++ c :: [] /\
  Sample.size (Commodity.name c) = 50001%N /\
  select_item_id (Item Sample.store) (Commodity.name c) = None /\
  outcome (Sample.persist_commodity Sample.store msg) =
    Raise (OperationalError "LIKE or GLOB pattern too complex") /\
  events (Sample.persist_commodity Sample.store msg) =
    [ Print_Market "Shinrarta Dezhra" "Jameson Memorial" "EDMC" "5.10";
      Connect;
      Execute (SelectItemId "Tritium");
      Execute (UpdateStationItem 1500 200 1200 50 "2024-01-01 12:00:00" 128666762 2);
      Execute (UpdateItem 41000 2) ] /\
  Sample.apply_message Sample.store msg = Sample.store /\
  Sample.apply_message Sample.store (with_commodities ([Sample.tritium] ++ []) msg)
    <> Sample.store.
Proof.
  cbv zeta.
  split; [vm_compute; reflexivity|]. split; [vm_compute; reflexivity|].
  split; [reflexivity|]. split; [vm_compute; reflexivity|].
  split; [vm_compute; reflexivity|]. split; [vm_compute; reflexivity|].
  split; [vm_compute; reflexivity|]. split; [vm_compute; reflexivity|].
  vm_compute. discriminate.
Qed.

End CommodityInstances.

(* ------------------------------------------------------------------ *)
(** ** The item lookup *)

Section LookupFacts.
Local Open Scope N_scope.

Lemma byte_code a : Unicode.byte a = N.of_nat (code a).
Proof. unfold Unicode.byte, code, nat_of_ascii. now rewrite N2Nat.id. Qed.

Lemma code_bound a : (code a < 256)%nat.
Proof. apply nat_ascii_bounded. Qed.

Lemma code_inj a b : code a = code b -> a = b.
Proof.
  unfold code. intros H.
  rewrite <- (ascii_nat_embedding a), <- (ascii_nat_embedding b). now rewrite H.
Qed.

Lemma code_lower a :
  code (lower a) = if ((65 <=? code a) && (code a <=? 90))%nat
                   then (code a + 32)%nat else code a.
Proof.
  unfold lower, in_range. change (code "A") with 65%nat. change (code "Z") with 90%nat.
  destruct ((65 <=? code a) && (code a <=? 90))%nat eqn:E; [|reflexivity].
  apply andb_true_iff in E. destruct E as [E1 E2].
  apply Nat.leb_le in E1, E2.
  unfold code at 1. apply nat_ascii_embedding. lia.
Qed.

Lemma fold_cases c : fold c = if (65 <=? c) && (c <=? 90) then c + 32 else c.
Proof. reflexivity. Qed.

Lemma eq_nocase_alike a b :
  eq_nocase a b = true -> alike (Unicode.byte a) (Unicode.byte b).
Proof.
  unfold eq_nocase. intros H. apply Ascii.eqb_eq in H.
  apply (f_equal code) in H. rewrite !code_lower in H.
  unfold alike, letter. rewrite !fold_cases, !byte_code.
  pose proof (code_bound a). pose proof (code_bound b).
  destruct ((65 <=? code a) && (code a <=? 90))%nat eqn:Ea;
    destruct ((65 <=? code b) && (code b <=? 90))%nat eqn:Eb;
    destruct ((65 <=? N.of_nat (code a)) && (N.of_nat (code a) <=? 90)) eqn:Fa;
    destruct ((65 <=? N.of_nat (code b)) && (N.of_nat (code b) <=? 90)) eqn:Fb;
    rewrite ?andb_true_iff, ?andb_false_iff, ?Nat.leb_le, ?Nat.leb_gt,
            ?N.leb_le, ?N.leb_gt in *; lia.
Qed.

Lemma letter_plain c : letter c -> c <> 0 /\ c < 128 /\ c <> percent /\ c <> underscore.
Proof. unfold letter, percent, underscore. lia. Qed.

Lemma alike_same_char c d : alike c d -> same_char c d = true.
Proof.
  unfold same_char. intros [->|(Hc & Hd & Hf)].
  - now rewrite N.eqb_refl.
  - apply letter_plain in Hc, Hd.
    destruct Hc as (_ & Hc & _), Hd as (_ & Hd & _).
    apply N.ltb_lt in Hc, Hd. rewrite Hc, Hd, Hf, N.eqb_refl. apply orb_true_r.
Qed.

Lemma alike_percent d : alike percent d -> d = percent.
Proof.
  intros [<-|(Hc & _)]; [reflexivity|]. apply letter_plain in Hc. tauto.
Qed.

(** The characters of two texts that are equal up to ASCII case are alike
    one by one. *)
Lemma begins_letter b k : letter b -> begins b k = b :: k None.
Proof.
  unfold begins, letter. intros H.
  destruct (N.eqb_spec b 0); [lia|]. destruct (N.leb_spec 192 b); [lia|reflexivity].
Qed.

Lemma letter_not_cont a : letter (Unicode.byte a) -> Unicode.is_cont a = false.
Proof.
  unfold Unicode.is_cont, letter. intros H.
  destruct (N.leb_spec 128 (Unicode.byte a)); [lia|reflexivity].
Qed.

Lemma byte_inj a b : Unicode.byte a = Unicode.byte b -> a = b.
Proof. rewrite !byte_code. intros H. apply code_inj. lia. Qed.

Lemma chars_from_alike s t cur :
  string_eq_nocase s t = true -> Forall2 alike (chars_from cur s) (chars_from cur t).
Proof.
  revert t cur. induction s as [|a s IH]; intros [|b t] cur H; try discriminate.
  - simpl. destruct cur; repeat constructor.
  - simpl in H. apply andb_true_iff in H. destruct H as [Hab Hst].
    apply eq_nocase_alike in Hab. destruct Hab as [E|(La & Lb & Hf)].
    + apply byte_inj in E. subst b. cbn [chars_from].
      assert (B : Forall2 alike (begins (Unicode.byte a) (fun cur' => chars_from cur' s))
                                (begins (Unicode.byte a) (fun cur' => chars_from cur' t))).
      { unfold begins. destruct (_ =? 0); [constructor|].
        destruct (192 <=? _); [now apply IH|].
        constructor; [now left|now apply IH]. }
      destruct cur as [c|]; [|exact B].
      destruct (Unicode.is_cont a); [now apply IH|].
      constructor; [now left|exact B].
    + cbn [chars_from]. rewrite (letter_not_cont a La), (letter_not_cont b Lb).
      rewrite !begins_letter by assumption.
      assert (B : alike (Unicode.byte a) (Unicode.byte b)) by (right; auto).
      destruct cur as [c|].
      * constructor; [now left|]. constructor; [exact B|now apply IH].
      * constructor; [exact B|now apply IH].
Qed.

Lemma like_chars_percent pat x :
  like_chars (percent :: pat) x =
  like_chars pat x || match x with
                      | [] => false
                      | _ :: x' => like_chars (percent :: pat) x'
                      end.
Proof. destruct x; reflexivity. Qed.

Lemma like_chars_char c pat d x :
  c <> percent ->
  like_chars (c :: pat) (d :: x) = ((c =? underscore) || same_char c d) && like_chars pat x.
Proof.
  intros H. cbn [like_chars]. destruct (N.eqb_spec c percent); [contradiction|reflexivity].
Qed.

Lemma like_chars_char_nil c pat : c <> percent -> like_chars (c :: pat) [] = false.
Proof.
  intros H. cbn [like_chars]. destruct (N.eqb_spec c percent); [contradiction|reflexivity].
Qed.

Lemma like_chars_alike pat x : Forall2 alike pat x -> like_chars pat x = true.
Proof.
  induction 1 as [|c d pat x Hcd H IH]; [reflexivity|].
  destruct (N.eq_dec c percent) as [->|Hc].
  - apply alike_percent in Hcd. subst d.
    rewrite like_chars_percent, (like_chars_percent pat x), IH. apply orb_true_r.
  - rewrite (like_chars_char _ _ _ _ Hc), (alike_same_char _ _ Hcd), IH.
    now rewrite orb_true_r.
Qed.

(** A pattern matches any text equal to it up to ASCII case, whatever
    wildcards it holds. *)
Lemma like_self_nocase pat x :
  string_eq_nocase pat x = true -> like pat x = true.
Proof. intros H. apply like_chars_alike. now apply chars_from_alike. Qed.

Lemma has_space_remove_spaces s : has_space (remove_spaces s) = false.
Proof.
  induction s as [|c s IH]; simpl; [reflexivity|].
  destruct (Ascii.eqb c space) eqn:E; simpl; [exact IH|now rewrite E].
Qed.

Lemma settle_high c : 128 <= settle c.
Proof.
  unfold settle. destruct (N.ltb_spec c 128); simpl; [lia|].
  destruct (_ || _); lia.
Qed.

Lemma byte_space a : Unicode.byte a = 32 <-> a = space.
Proof.
  split; [|now intros ->]. intros H. apply byte_inj. exact H.
Qed.

Lemma byte_nul a : Unicode.byte a = 0 <-> a = nul.
Proof.
  split; [|now intros ->]. intros H. apply byte_inj. exact H.
Qed.

(** A blank before the first NUL of a text is one of its characters. *)
Lemma chars_from_space s cur :
  has_space (c_string s) = true -> In 32 (chars_from cur s).
Proof.
  revert cur. induction s as [|a s IH]; intros cur H; [discriminate|].
  cbn [c_string] in H. destruct (Ascii.eqb a nul) eqn:En; [discriminate|].
  cbn [has_space] in H. cbn [chars_from].
  assert (Hb : Unicode.byte a <> 0).
  { intros E. apply byte_nul in E. subst a. discriminate. }
  assert (B : In 32 (begins (Unicode.byte a) (fun cur' => chars_from cur' s))).
  { unfold begins. destruct (N.eqb_spec (Unicode.byte a) 0); [contradiction|].
    destruct (Ascii.eqb a space) eqn:Es.
    - apply Ascii.eqb_eq in Es. subst a. simpl. now left.
    - simpl in H. destruct (192 <=? _); [now apply IH|]. right. now apply IH. }
  destruct cur as [c|]; [|exact B].
  destruct (Unicode.is_cont a) eqn:Ec; [|right; exact B].
  destruct (Ascii.eqb a space) eqn:Es.
  - apply Ascii.eqb_eq in Es. subst a. discriminate.
  - simpl in H. now apply IH.
Qed.

(** A text without blanks has no blank among its characters. *)
Lemma chars_from_no_space s cur :
  has_space s = false -> ~ In 32 (chars_from cur s).
Proof.
  revert cur. induction s as [|a s IH]; intros cur H.
  - simpl. destruct cur as [c|]; [|intros []].
    intros [E|[]]. pose proof (settle_high c). lia.
  - cbn [has_space] in H. apply orb_false_iff in H. destruct H as [Ha Hs].
    assert (Hb : Unicode.byte a <> 32).
    { intros E. apply byte_space in E. subst a. discriminate. }
    cbn [chars_from].
    assert (B : ~ In 32 (begins (Unicode.byte a) (fun cur' => chars_from cur' s))).
    { unfold begins. destruct (_ =? 0); [intros []|].
      destruct (192 <=? _); [now apply IH|].
      intros [E|E]; [contradiction|]. now apply (IH None). }
    destruct cur as [c|]; [|exact B].
    destruct (Unicode.is_cont a); [now apply IH|].
    intros [E|E]; [|contradiction]. pose proof (settle_high c). lia.
Qed.

Lemma same_char_space d : same_char 32 d = true -> d = 32.
Proof.
  unfold same_char. intros H. apply orb_true_iff in H. destruct H as [H|H].
  - apply N.eqb_eq in H. auto.
  - apply andb_true_iff in H. destruct H as [_ H]. apply N.eqb_eq in H.
    change (fold 32) with 32 in H. rewrite fold_cases in H.
    destruct ((65 <=? d) && (d <=? 90)) eqn:E.
    + apply andb_true_iff in E. destruct E as [E1 E2].
      apply N.leb_le in E1, E2. lia.
    + auto.
Qed.

(** A pattern that holds a blank matches no text without blanks. *)
Lemma like_chars_space pat x :
  In 32 pat -> ~ In 32 x -> like_chars pat x = false.
Proof.
  revert x. induction pat as [|c pat IH]; intros x Hp Hx; [destruct Hp|].
  destruct (N.eq_dec c percent) as [->|Hc].
  - destruct Hp as [Hp|Hp]; [discriminate|].
    induction x as [|d x IHx]; rewrite like_chars_percent.
    + now rewrite (IH [] Hp Hx).
    + rewrite (IH (d :: x) Hp Hx). simpl. apply IHx.
      intros H. apply Hx. now right.
  - destruct x as [|d x]; [now apply like_chars_char_nil|].
    rewrite (like_chars_char _ _ _ _ Hc).
    destruct Hp as [->|Hp].
    + destruct (same_char 32 d) eqn:Es.
      * apply same_char_space in Es. subst d. exfalso. apply Hx. now left.
      * reflexivity.
    + rewrite (IH x Hp); [apply andb_false_r|]. intros H. apply Hx. now right.
Qed.

Lemma like_space pat x :
  has_space (c_string pat) = true -> has_space x = false -> like pat x = false.
Proof.
  intros Hp Hx. apply like_chars_space.
  - now apply chars_from_space.
  - now apply chars_from_no_space.
Qed.

Lemma select_item_id_some items pat id :
  select_item_id items pat = Some id <->
  exists before r after,
    items = before ++ r :: after /\ ItemRow.item_id r = id /\
    item_matches pat r = true /\
    forall r', In r' before -> item_matches pat r' = false.
Proof.
  unfold select_item_id. split.
  - induction items as [|a items IH]; simpl; [discriminate|].
    destruct (item_matches pat a) eqn:E.
    + intros [= <-]. exists [], a, items. repeat split; auto. intros r' [].
    + intros H. destruct (IH H) as (before & r & after & -> & Hid & Hm & Hb).
      exists (a :: before), r, after. repeat split; auto.
      intros r' [<-|Hr]; auto.
  - intros (before & r & after & -> & Hid & Hm & Hb).
    induction before as [|a before IH]; simpl.
    + now rewrite Hm, Hid.
    + rewrite (Hb a (or_introl eq_refl)). apply IH. intros r' Hr. apply Hb. now right.
Qed.

Lemma select_item_id_none items pat :
  select_item_id items pat = None <->
  forall r, In r items -> item_matches pat r = false.
Proof.
  unfold select_item_id. induction items as [|a items IH]; simpl.
  - split; [intros _ r []|reflexivity].
  - destruct (item_matches pat a) eqn:E.
    + split; [discriminate|]. intros H. rewrite (H a (or_introl eq_refl)) in E. discriminate.
    + rewrite IH. split.
      * intros H r [<-|Hr]; auto.
      * intros H r Hr. apply H. now right.
Qed.




(** What is behind a NUL in a wire name is not read: "Tritium", a NUL, a
    blank and an x find the item "Tritium". *)
Example name_is_read_up_to_nul :
  let wire := ("Tritium" ++ String nul " x")%string in
  has_space wire = true /\ has_space (c_string wire) = false /\
  select_item_id [Sample.tritium_item] wire = Some 2%Z.
Proof. repeat split; vm_compute; reflexivity. Qed.

End LookupFacts.

(* ------------------------------------------------------------------ *)
(** ** System events *)

Section SystemFacts.
Local Open Scope Z_scope.

Variable rich_print : event -> option exn.
Variable sqlite_raises : stmt -> shape -> option exn.
Local Abbreviation persist_fsdjump :=
  (Listener.persist_fsdjump rich_print sqlite_raises).
Local Abbreviation jump_goes_through :=
  (Batch.jump_goes_through rich_print sqlite_raises).
Local Abbreviation apply_system := (Batch.apply_system rich_print sqlite_raises).

(** C2: the filter lets a system event through if and only if its
    population is greater than 0 and a controlling power is present (the
    field holds a name, that is a string that is not empty) or the powerplay
    state is "Unoccupied"; with the four instances of the claim. *)
Theorem system_filter_accepts_iff :
  (forall m,
     system_filter m = Ok true <->
     (exists n, FSDJumpMessage.Population m = Some n /\ 0 < n) /\
     ((exists p, FSDJumpMessage.ControllingPower m = Some p /\ p <> EmptyString) \/
      FSDJumpMessage.PowerplayState m = Some "Unoccupied"%string)) /\
  (forall m, FSDJumpMessage.Population m = Some 0 -> system_filter m = Ok false) /\
  (forall m, FSDJumpMessage.Population m = Some 1000000 ->
             FSDJumpMessage.ControllingPower m = Some "Federation"%string ->
             system_filter m = Ok true) /\
  (forall m, FSDJumpMessage.Population m = Some 1000000 ->
             FSDJumpMessage.ControllingPower m = None ->
             FSDJumpMessage.PowerplayState m = Some "Unoccupied"%string ->
             system_filter m = Ok true) /\
  (forall m, FSDJumpMessage.Population m = Some 1000000 ->
             FSDJumpMessage.ControllingPower m = None ->
             FSDJumpMessage.PowerplayState m = Some "Controlled"%string ->
             system_filter m = Ok false).
Proof.
  split; [|repeat split].
  - intros m. unfold system_filter, gt_zero.
    destruct (FSDJumpMessage.Population m) as [n|]; simpl.
    + split.
      * intros [= H]. apply andb_true_iff in H. destruct H as [Hn H].
        apply Z.ltb_lt in Hn. split; [now exists n|].
        apply orb_true_iff in H. destruct H as [H|H].
        -- left. destruct (FSDJumpMessage.ControllingPower m) as [p|]; [|discriminate].
           exists p. split; [reflexivity|]. intros ->. discriminate.
        -- right. destruct (FSDJumpMessage.PowerplayState m) as [s|]; [|discriminate].
           simpl in H. apply String.eqb_eq in H. now subst.
      * intros [(n' & En & Hn) Hor]. injection En as <-.
        apply Z.ltb_lt in Hn. rewrite Hn. simpl.
        destruct Hor as [(p & -> & Hp) | -> ].
        -- destruct p; [congruence|reflexivity].
        -- simpl. now rewrite orb_true_r.
    + split; [discriminate|]. intros [(n & H & _) _]. discriminate.
  - intros m H. unfold system_filter. now rewrite H.
  - intros m H1 H2. unfold system_filter. now rewrite H1, H2.
  - intros m H1 H2 H3. unfold system_filter. now rewrite H1, H2, H3.
  - intros m H1 H2 H3. unfold system_filter. now rewrite H1, H2, H3.
Qed.

(** The system branch on an event that goes through. *)
Lemma persist_fsdjump_ok store msg ts :
  jump_goes_through store msg ts ->
  persist_fsdjump store msg =
  {| outcome := Ok (run (jump_query ts msg) store);
     events := [system_line msg; Connect; Execute (jump_query ts msg); Commit; Close] |}.
Proof.
  unfold Batch.jump_goes_through. cbv zeta. intros (Hf & Hp & Ht & Hq).
  unfold Listener.persist_fsdjump. cbv zeta. rewrite Hf, Hp, Ht.
  unfold jump_query in *. cbv zeta in *.
  unfold Listener.execute, emit. cbn [work log]. rewrite Hq. reflexivity.
Qed.

(** A system event goes through on a store, or it leaves that store and
    every store of the same shape as it is. *)
Lemma apply_system_cases store msg :
  (exists ts, jump_goes_through store msg ts) \/
  (forall store', shape_of store' = shape_of store -> apply_system store' msg = store').
Proof.
  unfold Batch.jump_goes_through, Batch.apply_system, store_after,
    Listener.persist_fsdjump. cbv zeta.
  destruct (system_filter _) as [[|]|e]; [|right; reflexivity..].
  destruct (rich_print _) as [e|]; [right; reflexivity|].
  destruct (db_timestamp_opt _) as [ts|e]; [|right; reflexivity].
  destruct (sqlite_raises (jump_query ts msg) (shape_of store)) as [e|] eqn:E.
  - right. intros store' Hs. unfold Listener.execute. cbn [work emit].
    unfold jump_query in E. cbv zeta in E. now rewrite Hs, E.
  - left. exists ts. repeat split. exact E.
Qed.

Lemma apply_system_ok store msg ts :
  jump_goes_through store msg ts ->
  apply_system store msg = run (jump_query ts msg) store.
Proof.
  intros H. unfold Batch.apply_system, store_after.
  now rewrite (persist_fsdjump_ok store msg ts H).
Qed.

Lemma apply_system_shape store msg : shape_of (apply_system store msg) = shape_of store.
Proof.
  destruct (apply_system_cases store msg) as [(ts & H)|E]; [|now rewrite E].
  rewrite (apply_system_ok store msg ts H). apply shape_of_run.
Qed.

(** C10, as amended: a system event that is let through for its
    "Unoccupied" state alone, its controlling power being null or the empty
    string, whose line prints, whose timestamp normalizes to [ts] and whose
    statement the database does not refuse, is persisted: the UPDATE is
    executed with the controlling power as the event has it, every System
    row whose name the star system matches gets that power, whatever it
    held, and modified [ts], and the commit follows; the power written is
    NULL when the field of the event is null. *)
Theorem unoccupied_system_gets_its_power store msg n ts :
  let m := EDDNFSDJumpMessage.message msg in
  let h := EDDNFSDJumpMessage.header msg in
  FSDJumpMessage.Population m = Some n -> 0 < n ->
  truthy (FSDJumpMessage.ControllingPower m) = false ->
  FSDJumpMessage.PowerplayState m = Some "Unoccupied"%string ->
  rich_print (system_line msg) = None ->
  db_timestamp_opt (FSDJumpMessage.timestamp m) = Ok ts ->
  sqlite_raises (jump_query ts msg) (shape_of store) = None ->
  exists store',
    outcome (persist_fsdjump store msg) = Ok store' /\
    events (persist_fsdjump store msg) =
      [Print_System (FSDJumpMessage.StarSystem m) (FSDJumpMessage.ControllingPower m)
                    (Some "Unoccupied"%string)
                    (Header.softwareName h) (Header.softwareVersion h);
       Connect;
       Execute (UpdateSystem (FSDJumpMessage.ControllingPower m) ts
                             (FSDJumpMessage.StarSystem m));
       Commit; Close] /\
    System store' =
      map (fun r => if like (FSDJumpMessage.StarSystem m) (SystemRow.name r)
                    then {| SystemRow.name := SystemRow.name r;
                            SystemRow.power := FSDJumpMessage.ControllingPower m;
                            SystemRow.modified := ts |}
                    else r) (System store) /\
    (forall r, In r (System store') ->
       like (FSDJumpMessage.StarSystem m) (SystemRow.name r) = true ->
       SystemRow.power r = FSDJumpMessage.ControllingPower m /\
       SystemRow.modified r = ts /\
       (FSDJumpMessage.ControllingPower m = None -> SystemRow.power r = None)) /\
    Item store' = Item store /\ StationItem store' = StationItem store.
Proof.
  intros m h Hp Hn Hc Hs Hl Ht Hq.
  assert (Hgo : jump_goes_through store msg ts).
  { repeat split; try assumption. unfold system_filter. fold m.
    rewrite Hp, Hc, Hs. simpl. apply Z.ltb_lt in Hn. now rewrite Hn. }
  rewrite (persist_fsdjump_ok store msg ts Hgo).
  unfold jump_query, system_line. fold m h. rewrite Hs.
  eexists. split; [reflexivity|]. split; [reflexivity|]. cbn [run System Item StationItem].
  split; [reflexivity|]. split; [|split; reflexivity].
  intros r Hr Hlike. unfold update_system in Hr. apply in_map_iff in Hr.
  destruct Hr as (r0 & <- & _).
  destruct (like (FSDJumpMessage.StarSystem m) (SystemRow.name r0)) eqn:E.
  - repeat split. intros ->. reflexivity.
  - rewrite E in Hlike. discriminate.
Qed.

End SystemFacts.

Section SystemInstances.
Local Open Scope Z_scope.

(** An instance of C2: a million inhabitants and the Federation in control. *)
Lemma system_filter_accepts_iff_witness :
  system_filter (EDDNFSDJumpMessage.message
                   (Sample.jump (Some 1000000) (Some "Federation"%string) None None))
  = Ok true.
Proof.
  apply (proj2 (proj1 system_filter_accepts_iff _)). split.
  - exists 1000000. split; [reflexivity|lia].
  - left. exists "Federation"%string. split; [reflexivity|discriminate].
Defined.

(** An instance of C10: Sol was the Federation's; the event leaves it with
    no power. *)
Lemma unoccupied_system_gets_its_power_witness :
  exists store',
    outcome (Sample.persist_fsdjump Sample.store Sample.unoccupied) = Ok store' /\
    events (Sample.persist_fsdjump Sample.store Sample.unoccupied) =
      [Print_System "Sol" None (Some "Unoccupied"%string) "EDMC" "5.10";
       Connect;
       Execute (UpdateSystem None "2024-01-01 12:00:00" "Sol");
       Commit; Close] /\
    System store' =
      [ {| SystemRow.name := "Sol"; SystemRow.power := None;
           SystemRow.modified := "2024-01-01 12:00:00" |};
        {| SystemRow.name := "Achenar"; SystemRow.power := Some "Empire"%string;
           SystemRow.modified := "2023-12-31 08:00:00" |} ] /\
    (forall r, In r (System store') -> like "Sol" (SystemRow.name r) = true ->
       SystemRow.power r = None /\
       SystemRow.modified r = "2024-01-01 12:00:00"%string /\
       (@None string = None -> SystemRow.power r = None)) /\
    Item store' = Item Sample.store /\ StationItem store' = StationItem Sample.store.
Proof.
  apply (unoccupied_system_gets_its_power Sample.rich_print Sample.sqlite_raises
           Sample.store Sample.unoccupied 1000000 "2024-01-01 12:00:00").
  - reflexivity.
  - lia.
  - reflexivity.
  - reflexivity.
  - vm_compute; reflexivity.
  - vm_compute; reflexivity.
  - vm_compute; reflexivity.
Defined.

(** C10 as it was stated fails when the controlling power is the empty
    string: the filter reads it as no power, the event is let through for
    its "Unoccupied" state alone, and what is written into the power column
    of Sol is the empty string, not NULL. *)
Lemma empty_power_is_written_as_text :
  let m := EDDNFSDJumpMessage.message Sample.empty_power in
  truthy (FSDJumpMessage.ControllingPower m) = false /\
  FSDJumpMessage.PowerplayState m = Some "Unoccupied"%string /\
  system_filter m = Ok true /\
  exists store' r,
    outcome (Sample.persist_fsdjump Sample.store Sample.empty_power) = Ok store' /\
    In r (System store') /\
    like (FSDJumpMessage.StarSystem m) (SystemRow.name r) = true /\
    SystemRow.power r = Some EmptyString /\
    SystemRow.power r <> None.
Proof.
  cbv zeta. split; [reflexivity|]. split; [reflexivity|].
  split; [vm_compute; reflexivity|].
  eexists. eexists. split; [vm_compute; reflexivity|].
  split; [left; reflexivity|].
  split; [vm_compute; reflexivity|]. split; [reflexivity|discriminate].
Qed.

End SystemInstances.

(* ------------------------------------------------------------------ *)
(** ** Regular expressions: the engine and the language *)

Section RegexFacts.

Lemma append_nil_r (s : string) : (s ++ EmptyString)%string = s.
Proof. induction s as [|a s IH]; simpl; [reflexivity|now rewrite IH]. Qed.

Lemma append_assoc (a b c : string) : ((a ++ b) ++ c)%string = (a ++ (b ++ c))%string.
Proof. induction a as [|x a IH]; simpl; [reflexivity|now rewrite IH]. Qed.

(** The first character of a text is a prefix of it, and is the first
    character of whatever begins with it. *)
Lemma next_spec s cp c s' :
  Unicode.next s = Some (cp, c, s') ->
  s = (c ++ s')%string /\ forall r, Unicode.next (c ++ r) = Some (cp, c, r).
Proof.
  unfold Unicode.next. destruct s as [|a s1]; [discriminate|].
  destruct (Unicode.byte a <? 128)%N eqn:E1.
  { intros [= <- <- <-]. split; [reflexivity|]. intros r. simpl. now rewrite E1. }
  destruct (Unicode.byte a <? 192)%N eqn:E2; [discriminate|].
  destruct (Unicode.byte a <? 224)%N eqn:E3.
  { destruct s1 as [|b s2]; [discriminate|].
    destruct (Unicode.is_cont b) eqn:Eb; [|discriminate].
    intros [= <- <- <-]. split; [reflexivity|]. intros r. simpl.
    now rewrite E1, E2, E3, Eb. }
  destruct (Unicode.byte a <? 240)%N eqn:E4.
  { destruct s1 as [|b [|c0 s3]]; try discriminate.
    destruct (Unicode.is_cont b && Unicode.is_cont c0) eqn:Eb; [|discriminate].
    intros [= <- <- <-]. split; [reflexivity|]. intros r. simpl.
    now rewrite E1, E2, E3, E4, Eb. }
  destruct (Unicode.byte a <? 248)%N eqn:E5; [|discriminate].
  destruct s1 as [|b [|c0 [|d s4]]]; try discriminate.
  destruct (Unicode.is_cont b && Unicode.is_cont c0 && Unicode.is_cont d) eqn:Eb;
    [|discriminate].
  intros [= <- <- <-]. split; [reflexivity|]. intros r. simpl.
  now rewrite E1, E2, E3, E4, E5, Eb.
Qed.

(** Every match the engine finds is a prefix of the text that is in the
    language. *)
Lemma rmatch_sound r :
  anchor_free r = true ->
  forall pos s g c rest,
    In (g, c, rest) (rmatch r pos s) -> s = (c ++ rest)%string /\ sem r c g.
Proof.
  induction r as [p|p| | | |r1 IH1 r2 IH2|r1 IH1 r2 IH2|n r IH];
    intros Hf pos s g c rest Hin; try discriminate.
  - simpl in Hin. destruct s as [|a s]; [destruct Hin|].
    destruct (p a) eqn:E; [|destruct Hin].
    destruct Hin as [[= <- <- <-]|[]]. split; [reflexivity|now constructor].
  - simpl in Hin. destruct (Unicode.next s) as [[[cp c0] s']|] eqn:E; [|destruct Hin].
    destruct (p cp) eqn:Ep; [|destruct Hin].
    destruct Hin as [[= <- <- <-]|[]].
    destruct (next_spec _ _ _ _ E) as [-> Hn]. split; [reflexivity|].
    apply (sem_uni p cp); [|exact Ep].
    specialize (Hn EmptyString). now rewrite append_nil_r in Hn.
  - destruct Hin as [[= <- <- <-]|[]]. split; [reflexivity|constructor].
  - simpl in Hf. apply andb_true_iff in Hf. destruct Hf as [Hf1 Hf2].
    simpl in Hin. apply in_flat_map in Hin.
    destruct Hin as ([[g1 c1] s1] & H1 & Hin).
    apply in_map_iff in Hin. destruct Hin as ([[g2 c2] s2] & [= <- <- <-] & H2).
    destruct (IH1 Hf1 _ _ _ _ _ H1) as [-> S1].
    destruct (IH2 Hf2 _ _ _ _ _ H2) as [-> S2].
    split; [now rewrite append_assoc|now constructor].
  - simpl in Hf. apply andb_true_iff in Hf. destruct Hf as [Hf1 Hf2].
    simpl in Hin. apply in_app_or in Hin. destruct Hin as [Hin|Hin].
    + destruct (IH1 Hf1 _ _ _ _ _ Hin) as [-> S1]. split; [reflexivity|now apply sem_alt_l].
    + destruct (IH2 Hf2 _ _ _ _ _ Hin) as [-> S2]. split; [reflexivity|now apply sem_alt_r].
  - simpl in Hin. apply in_map_iff in Hin.
    destruct Hin as ([[g0 c0] s0] & [= <- <- <-] & H0).
    destruct (IH Hf _ _ _ _ _ H0) as [-> S0]. split; [reflexivity|now constructor].
Qed.

(** Every text of the language that begins the text is among the matches
    the engine finds. *)
Lemma rmatch_complete r c g :
  sem r c g -> forall pos rest, In (g, c, rest) (rmatch r pos (c ++ rest)).
Proof.
  induction 1 as [p a Hp|p cp c Hn Hp| |r1 r2 c1 c2 g1 g2 _ IH1 _ IH2
                 |r1 r2 c g _ IH|r1 r2 c g _ IH|n r c g _ IH]; intros pos rest.
  - simpl. rewrite Hp. now left.
  - simpl. destruct (next_spec _ _ _ _ Hn) as [_ Hr]. rewrite Hr, Hp. now left.
  - now left.
  - simpl. apply in_flat_map. exists (g1, c1, (c2 ++ rest)%string). split.
    + rewrite append_assoc. apply IH1.
    + apply in_map_iff. exists (g2, c2, rest). split; [reflexivity|apply IH2].
  - simpl. apply in_or_app. left. apply IH.
  - simpl. apply in_or_app. right. apply IH.
  - simpl. apply in_map_iff. exists (g, c, rest). split; [reflexivity|apply IH].
Qed.

Lemma sem_chr_inv p c g :
  sem (Chr p) c g -> exists a, c = String a EmptyString /\ g = [] /\ p a = true.
Proof. inversion 1; subst. eauto. Qed.

Lemma sem_uni_inv p c g :
  sem (Uni p) c g ->
  exists cp, Unicode.next c = Some (cp, c, EmptyString) /\ g = [] /\ p cp = true.
Proof. inversion 1; subst. eauto. Qed.

Lemma sem_eps_inv c g : sem Eps c g -> c = EmptyString /\ g = [].
Proof. inversion 1; subst. auto. Qed.

Lemma sem_cat_inv r1 r2 c g :
  sem (Cat r1 r2) c g ->
  exists c1 c2 g1 g2, c = (c1 ++ c2)%string /\ g = g1 ++ g2 /\ sem r1 c1 g1 /\ sem r2 c2 g2.
Proof. inversion 1; subst. eauto 8. Qed.

Lemma sem_alt_inv r1 r2 c g : sem (Alt r1 r2) c g -> sem r1 c g \/ sem r2 c g.
Proof. inversion 1; subst; auto. Qed.

Lemma sem_grp_inv n r c g : sem (Grp n r) c g -> exists g0, g = (n, c) :: g0 /\ sem r c g0.
Proof. inversion 1; subst. eauto. Qed.

End RegexFacts.

(* ------------------------------------------------------------------ *)
(** ** Timestamps *)

Section ShapeFacts.

Lemma digits_one c :
  Spec.digits 1 c = true <->
  exists cp, Unicode.next c = Some (cp, c, EmptyString) /\ Unicode.is_decimal cp = true.
Proof.
  simpl. split.
  - destruct (Unicode.next c) as [[[cp c0] s']|] eqn:E; [|discriminate].
    intros H. apply andb_true_iff in H. destruct H as [Hd He].
    destruct s'; [|discriminate].
    destruct (next_spec _ _ _ _ E) as [Hc _]. rewrite append_nil_r in Hc. subst c0.
    now exists cp.
  - intros (cp & -> & ->). reflexivity.
Qed.

Lemma sem_dig c g : sem dig c g <-> g = [] /\ Spec.digits 1 c = true.
Proof.
  unfold dig. split.
  - intros H. apply sem_uni_inv in H. destruct H as (cp & H & -> & Hd).
    split; [reflexivity|]. apply digits_one. eauto.
  - intros [-> H]. apply digits_one in H. destruct H as (cp & Hn & Hd).
    now apply (sem_uni _ cp).
Qed.

Ltac sem_inv :=
  repeat match goal with
  | H : sem dig _ _ |- _ => apply sem_dig in H; destruct H as [-> H]
  | H : sem (Cat _ _) _ _ |- _ =>
      apply sem_cat_inv in H; destruct H as (? & ? & ? & ? & -> & -> & H & ?)
  | H : sem (Alt _ _) _ _ |- _ => apply sem_alt_inv in H; destruct H as [H|H]
  | H : sem (Chr _) _ _ |- _ => apply sem_chr_inv in H; destruct H as (? & -> & -> & H)
  | H : sem Eps _ _ |- _ => apply sem_eps_inv in H; destruct H as [-> ->]
  | H : sem (Grp _ _) _ _ |- _ => apply sem_grp_inv in H; destruct H as (? & -> & H)
  end.

Lemma digits_succ k s :
  Spec.digits (S k) s = true <->
  exists c1 c2, s = (c1 ++ c2)%string /\ Spec.digits 1 c1 = true /\ Spec.digits k c2 = true.
Proof.
  split.
  - cbn [Spec.digits].
    destruct (Unicode.next s) as [[[cp c0] s']|] eqn:E; [|discriminate].
    intros H. apply andb_true_iff in H. destruct H as [Hd Hk].
    destruct (next_spec _ _ _ _ E) as [-> Hn].
    exists c0, s'. split; [reflexivity|]. split; [|exact Hk].
    apply digits_one. exists cp. split; [|exact Hd].
    specialize (Hn EmptyString). now rewrite append_nil_r in Hn.
  - intros (c1 & c2 & -> & H1 & Hk). apply digits_one in H1.
    destruct H1 as (cp & Hn & Hd). cbn [Spec.digits].
    destruct (next_spec _ _ _ _ Hn) as [_ Hr]. now rewrite Hr, Hd.
Qed.

Lemma digits_zero s : Spec.digits 0 s = true <-> s = EmptyString.
Proof. simpl. destruct s; split; intros H; first [reflexivity|discriminate]. Qed.

Lemma one_of_inv lo hi s :
  Spec.one_of lo hi s = true <-> exists a, s = String a EmptyString /\ in_range lo hi a = true.
Proof.
  unfold Spec.one_of. split.
  - destruct s as [|a [|b s]]; try discriminate. intros H. now exists a.
  - now intros (a & -> & H).
Qed.

Lemma is_empty_inv s : is_empty s = true <-> s = EmptyString.
Proof. destruct s; split; simpl; intros H; first [reflexivity|discriminate]. Qed.

(** The language of each directive is the spelling the specification
    module gives it. *)
Lemma sem_year c g : sem re_Y c g <-> g = [("Y"%string, c)] /\ Spec.digits 4 c = true.
Proof.
  unfold re_Y. cbn [Regex.seq]. split.
  - intros H. apply sem_grp_inv in H. destruct H as (g0 & -> & H).
    repeat (apply sem_cat_inv in H;
            destruct H as (? & ? & ? & ? & -> & -> & ?%sem_dig & H)).
    apply sem_eps_inv in H. destruct H as [-> ->].
    repeat match goal with H : _ /\ _ |- _ => destruct H as [-> ?] end.
    split; [reflexivity|].
    repeat (apply digits_succ; eexists _, _; split; [reflexivity|]; split; [assumption|]).
    reflexivity.
  - intros [-> H].
    apply digits_succ in H. destruct H as (c1 & r1 & -> & H1 & H).
    apply digits_succ in H. destruct H as (c2 & r2 & -> & H2 & H).
    apply digits_succ in H. destruct H as (c3 & r3 & -> & H3 & H).
    apply digits_succ in H. destruct H as (c4 & r4 & -> & H4 & H).
    apply digits_zero in H. subst r4.
    apply (sem_grp "Y" _ _ []).
    apply (sem_cat _ _ c1 _ [] []); [now apply sem_dig|].
    apply (sem_cat _ _ c2 _ [] []); [now apply sem_dig|].
    apply (sem_cat _ _ c3 _ [] []); [now apply sem_dig|].
    apply (sem_cat _ _ c4 _ [] []); [now apply sem_dig|constructor].
Qed.

(** Turning the tests of a spelling into facts, and back. *)
Ltac tests :=
  repeat match goal with
  | H : _ || _ = true |- _ => apply orb_true_iff in H; destruct H as [H|H]
  | H : _ && _ = true |- _ =>
      let H' := fresh H in apply andb_true_iff in H; destruct H as [H H']
  | H : Spec.one_of _ _ _ = true |- _ => apply one_of_inv in H; destruct H as (? & -> & H)
  | H : is_empty _ = true |- _ => apply is_empty_inv in H; subst
  | H : false = true |- _ => discriminate H
  end.

Ltac passes :=
  repeat match goal with
  | H : _ = true |- _ => rewrite H
  end;
  rewrite ?orb_true_r; reflexivity.

Ltac two_chars a b :=
  apply (sem_cat _ _ (String a EmptyString) (String b EmptyString) [] []);
  constructor; assumption.

Ltac char_digit a rest :=
  apply (sem_cat _ _ (String a EmptyString) rest [] []);
  [constructor; assumption|apply sem_dig; split; [reflexivity|assumption]].

Lemma sem_month c g : sem re_m c g <-> g = [("m"%string, c)] /\ Spec.month_text c = true.
Proof.
  unfold re_m, lit, cls. cbn [alts]. split.
  - intros H. sem_inv; (split; [reflexivity|]);
      cbn [append Spec.month_text Spec.one_of is_empty]; passes.
  - intros [-> H]. apply (sem_grp "m" _ _ []).
    destruct c as [|a rest]; [discriminate|]. cbn [Spec.month_text] in H. tests.
    + apply sem_alt_l. two_chars a x.
    + apply sem_alt_r, sem_alt_l. two_chars a x.
    + apply sem_alt_r, sem_alt_r. now constructor.
Qed.

Lemma sem_day c g : sem re_d c g <-> g = [("d"%string, c)] /\ Spec.day_text c = true.
Proof.
  unfold re_d, lit, cls. cbn [alts]. split.
  - intros H. sem_inv; (split; [reflexivity|]);
      cbn [append Spec.day_text Spec.one_of is_empty]; passes.
  - intros [-> H]. apply (sem_grp "d" _ _ []).
    destruct c as [|a rest]; [discriminate|]. cbn [Spec.day_text] in H. tests.
    + apply sem_alt_l. two_chars a x.
    + apply sem_alt_r, sem_alt_l. char_digit a rest.
    + do 2 apply sem_alt_r. apply sem_alt_l. two_chars a x.
    + do 3 apply sem_alt_r. apply sem_alt_l. now constructor.
    + do 4 apply sem_alt_r. two_chars a x.
Qed.

Lemma sem_hour c g : sem re_H c g <-> g = [("H"%string, c)] /\ Spec.hour_text c = true.
Proof.
  unfold re_H, lit, cls. cbn [alts]. split.
  - intros H. sem_inv; (split; [reflexivity|]);
      unfold Spec.hour_text; cbn [append Spec.one_of is_empty]; passes.
  - intros [-> H]. apply (sem_grp "H" _ _ []).
    unfold Spec.hour_text in H. apply orb_true_iff in H. destruct H as [H|H].
    + destruct c as [|a rest]; [discriminate|]. tests.
      * apply sem_alt_l. two_chars a x.
      * apply sem_alt_r, sem_alt_l. char_digit a rest.
    + do 2 apply sem_alt_r. now apply sem_dig.
Qed.

Lemma sem_minute c g : sem re_M c g <-> g = [("M"%string, c)] /\ Spec.minute_text c = true.
Proof.
  unfold re_M, lit, cls. cbn [alts]. split.
  - intros H. sem_inv; (split; [reflexivity|]);
      unfold Spec.minute_text; cbn [append Spec.one_of is_empty]; passes.
  - intros [-> H]. apply (sem_grp "M" _ _ []).
    unfold Spec.minute_text in H. apply orb_true_iff in H. destruct H as [H|H].
    + destruct c as [|a rest]; [discriminate|]. tests.
      apply sem_alt_l. char_digit a rest.
    + apply sem_alt_r. now apply sem_dig.
Qed.

Lemma sem_second c g : sem re_S c g <-> g = [("S"%string, c)] /\ Spec.second_text c = true.
Proof.
  unfold re_S, lit, cls. cbn [alts]. split.
  - intros H. sem_inv; (split; [reflexivity|]);
      unfold Spec.second_text; cbn [append Spec.one_of is_empty]; passes.
  - intros [-> H]. apply (sem_grp "S" _ _ []).
    unfold Spec.second_text in H. apply orb_true_iff in H. destruct H as [H|H].
    + destruct c as [|a rest]; [discriminate|]. tests.
      * apply sem_alt_l. two_chars a x.
      * apply sem_alt_r, sem_alt_l. char_digit a rest.
    + do 2 apply sem_alt_r. now apply sem_dig.
Qed.

End ShapeFacts.

Section SeparatorFacts.

Lemma free_of_app p a b : free_of p (a ++ b) = free_of p a && free_of p b.
Proof.
  induction a as [|x a IH]; simpl; [reflexivity|]. now rewrite IH, andb_assoc.
Qed.

(** A text is cut at its first separator in one way only. *)
Lemma split_unique p a b x y u v :
  free_of p a = true -> free_of p b = true -> p x = true -> p y = true ->
  (a ++ String x u)%string = (b ++ String y v)%string ->
  a = b /\ x = y /\ u = v.
Proof.
  revert b. induction a as [|c a IH]; intros [|d b] Ha Hb Hx Hy E; simpl in *.
  - injection E as -> ->. auto.
  - injection E as -> _. rewrite Hx in Hb. discriminate.
  - injection E as -> _. rewrite Hy in Ha. discriminate.
  - injection E as -> E.
    apply andb_true_iff in Ha, Hb. destruct Ha as [_ Ha], Hb as [_ Hb].
    destruct (IH b Ha Hb Hx Hy E) as (-> & -> & ->). auto.
Qed.

Lemma sep_is_low a :
  is_sep a = true ->
  ((Unicode.byte a <? 128) &&
   negb ((48 <=? Unicode.byte a) && (Unicode.byte a <=? 57)))%N = true.
Proof.
  destruct a as [[] [] [] [] [] [] [] []]; vm_compute; intros H;
    first [reflexivity | discriminate H].
Qed.

(** The characters the fields are made of are no separators. *)
Lemma field_char_not_sep c :
  Ascii.eqb "0" c || Ascii.eqb "1" c || Ascii.eqb "2" c || Ascii.eqb "3" c ||
  Ascii.eqb "6" c || Ascii.eqb " " c || in_range "0" "9" c = true ->
  is_sep c = false.
Proof.
  destruct c as [[] [] [] [] [] [] [] []]; vm_compute; intros H;
    first [reflexivity | discriminate H].
Qed.

Lemma in_range_digit lo hi c :
  in_range lo hi c = true -> in_range "0" "9" lo = true -> in_range "0" "9" hi = true ->
  in_range "0" "9" c = true.
Proof.
  unfold in_range. intros H Hlo Hhi.
  apply andb_true_iff in H, Hlo, Hhi.
  destruct H as [H1 H2], Hlo as [L1 L2], Hhi as [U1 U2].
  apply Nat.leb_le in H1, H2, L1, L2, U1, U2.
  apply andb_true_iff. split; apply Nat.leb_le; lia.
Qed.

Lemma next_char_not_sep c cp :
  Unicode.next c = Some (cp, c, EmptyString) -> Unicode.is_decimal cp = true ->
  free_of is_sep c = true.
Proof.
  assert (High : forall a, (Unicode.byte a <? 128)%N = false -> is_sep a = false).
  { intros a H. destruct (is_sep a) eqn:E; [|reflexivity].
    apply sep_is_low in E. rewrite H in E. discriminate. }
  assert (Cont : forall a, Unicode.is_cont a = true -> is_sep a = false).
  { intros a H. apply High. unfold Unicode.is_cont in H.
    apply andb_true_iff in H. destruct H as [H _]. apply N.leb_le in H.
    apply N.ltb_ge. exact H. }
  unfold Unicode.next. destruct c as [|a s1]; [discriminate|].
  destruct (Unicode.byte a <? 128)%N eqn:E1.
  { intros [= <- <-] Hd. simpl. rewrite andb_true_r.
    destruct (is_sep a) eqn:E; [|reflexivity].
    apply sep_is_low in E. rewrite E1 in E. simpl in E.
    unfold Unicode.is_decimal, Unicode.decimal in Hd. rewrite E1 in Hd.
    destruct ((48 <=? Unicode.byte a) && (Unicode.byte a <=? 57))%N; discriminate. }
  destruct (Unicode.byte a <? 192)%N; [discriminate|].
  destruct (Unicode.byte a <? 224)%N.
  { destruct s1 as [|b s2]; [discriminate|].
    destruct (Unicode.is_cont b) eqn:Eb; [|discriminate].
    intros [= <- <-] _. simpl. now rewrite (High a E1), (Cont b Eb). }
  destruct (Unicode.byte a <? 240)%N.
  { destruct s1 as [|b [|c0 s3]]; try discriminate.
    destruct (Unicode.is_cont b) eqn:Eb; [|discriminate].
    destruct (Unicode.is_cont c0) eqn:Ec; [|discriminate].
    intros [= <- <-] _. simpl. now rewrite (High a E1), (Cont b Eb), (Cont c0 Ec). }
  destruct (Unicode.byte a <? 248)%N; [|discriminate].
  destruct s1 as [|b [|c0 [|d s4]]]; try discriminate.
  destruct (Unicode.is_cont b) eqn:Eb; [|discriminate].
  destruct (Unicode.is_cont c0) eqn:Ec; [|discriminate].
  destruct (Unicode.is_cont d) eqn:Ed; [|discriminate].
  intros [= <- <-] _. simpl.
  now rewrite (High a E1), (Cont b Eb), (Cont c0 Ec), (Cont d Ed).
Qed.

Lemma digits_free n s : Spec.digits n s = true -> free_of is_sep s = true.
Proof.
  revert s. induction n as [|n IH]; intros s H.
  - apply digits_zero in H. now subst.
  - apply digits_succ in H. destruct H as (c1 & c2 & -> & H1 & H2).
    apply digits_one in H1. destruct H1 as (cp & Hn & Hd).
    rewrite free_of_app, (next_char_not_sep c1 cp Hn Hd). now apply IH.
Qed.

Ltac no_sep :=
  repeat match goal with
  | H : in_range _ _ ?c = true |- _ =>
      apply in_range_digit in H; [|reflexivity|reflexivity]
  end;
  repeat match goal with
  | H : _ = true |- context [is_sep ?c] =>
      rewrite (field_char_not_sep c) by (rewrite H; rewrite ?orb_true_r; reflexivity)
  | H : Spec.digits 1 ?s = true |- context [free_of is_sep ?s] =>
      rewrite (digits_free 1 s H)
  end;
  reflexivity.

Ltac tests :=
  repeat match goal with
  | H : _ || _ = true |- _ => apply orb_true_iff in H; destruct H as [H|H]
  | H : _ && _ = true |- _ =>
      let H' := fresh H in apply andb_true_iff in H; destruct H as [H H']
  | H : Spec.one_of _ _ _ = true |- _ => apply one_of_inv in H; destruct H as (? & -> & H)
  | H : is_empty _ = true |- _ => apply is_empty_inv in H; subst
  | H : false = true |- _ => discriminate H
  end.

Lemma month_free s : Spec.month_text s = true -> free_of is_sep s = true.
Proof.
  destruct s as [|a rest]; [discriminate|]. cbn [Spec.month_text]. intros H.
  tests; cbn [free_of]; no_sep.
Qed.

Lemma day_free s : Spec.day_text s = true -> free_of is_sep s = true.
Proof.
  destruct s as [|a rest]; [discriminate|]. cbn [Spec.day_text]. intros H.
  tests; cbn [free_of]; no_sep.
Qed.

Lemma hour_free s : Spec.hour_text s = true -> free_of is_sep s = true.
Proof.
  unfold Spec.hour_text. intros H. apply orb_true_iff in H.
  destruct H as [H|H]; [|now apply (digits_free 1)].
  destruct s as [|a rest]; [discriminate|]. tests; cbn [free_of]; no_sep.
Qed.

Lemma minute_free s : Spec.minute_text s = true -> free_of is_sep s = true.
Proof.
  unfold Spec.minute_text. intros H. apply orb_true_iff in H.
  destruct H as [H|H]; [|now apply (digits_free 1)].
  destruct s as [|a rest]; [discriminate|]. tests; cbn [free_of]; no_sep.
Qed.

Lemma second_free s : Spec.second_text s = true -> free_of is_sep s = true.
Proof.
  unfold Spec.second_text. intros H. apply orb_true_iff in H.
  destruct H as [H|H]; [|now apply (digits_free 1)].
  destruct s as [|a rest]; [discriminate|]. tests; cbn [free_of]; no_sep.
Qed.

End SeparatorFacts.

Section WireFacts.
Local Open Scope Z_scope.

Ltac piece H c g Hc :=
  apply sem_cat_inv in H;
  let r := fresh "r" in let g' := fresh "g" in
  destruct H as (c & r & g & g' & -> & -> & Hc & H).

Ltac sep H a Ha :=
  let c := fresh "c" in let g := fresh "g" in let Hc := fresh "Hc" in
  piece H c g Hc; apply sem_chr_inv in Hc; destruct Hc as (a & -> & -> & Ha).

(** The language of the pattern of the format: the fields in their
    spellings, the separators between them. *)
Lemma sem_wire c g :
  sem wire_regex c g <->
  exists Y m d T H M S Z,
    c = wire_join Y m d T H M S Z /\ g = wire_groups Y m d H M S /\
    Spec.digits 4 Y = true /\ Spec.month_text m = true /\ Spec.day_text d = true /\
    eq_nocase "T" T = true /\
    Spec.hour_text H = true /\ Spec.minute_text M = true /\ Spec.second_text S = true /\
    eq_nocase "Z" Z = true.
Proof.
  unfold wire_regex, lit, lit_nocase. cbn [Regex.seq]. split.
  - intros H0.
    piece H0 Y gY HY. apply sem_year in HY. destruct HY as [-> HY].
    sep H0 s1 Hs1. apply Ascii.eqb_eq in Hs1. subst s1.
    piece H0 m gm Hm. apply sem_month in Hm. destruct Hm as [-> Hm].
    sep H0 s2 Hs2. apply Ascii.eqb_eq in Hs2. subst s2.
    piece H0 d gd Hd. apply sem_day in Hd. destruct Hd as [-> Hd].
    sep H0 T HT.
    piece H0 H gH HH. apply sem_hour in HH. destruct HH as [-> HH].
    sep H0 s3 Hs3. apply Ascii.eqb_eq in Hs3. subst s3.
    piece H0 M gM HM. apply sem_minute in HM. destruct HM as [-> HM].
    sep H0 s4 Hs4. apply Ascii.eqb_eq in Hs4. subst s4.
    piece H0 Se gS HS. apply sem_second in HS. destruct HS as [-> HS].
    sep H0 Ze HZ.
    apply sem_eps_inv in H0. destruct H0 as [-> ->].
    exists Y, m, d, T, H, M, Se, Ze. repeat split; assumption.
  - intros (Y & m & d & T & H & M & S & Z & -> & -> & HY & Hm & Hd & HT & HH & HM & HS & HZ).
    apply (sem_cat _ _ Y _ [(_, _)] _); [apply sem_year; auto|].
    apply (sem_cat _ _ (String "-" EmptyString) _ [] _); [now constructor|].
    apply (sem_cat _ _ m _ [(_, _)] _); [apply sem_month; auto|].
    apply (sem_cat _ _ (String "-" EmptyString) _ [] _); [now constructor|].
    apply (sem_cat _ _ d _ [(_, _)] _); [apply sem_day; auto|].
    apply (sem_cat _ _ (String T EmptyString) _ [] _); [now constructor|].
    apply (sem_cat _ _ H _ [(_, _)] _); [apply sem_hour; auto|].
    apply (sem_cat _ _ (String ":" EmptyString) _ [] _); [now constructor|].
    apply (sem_cat _ _ M _ [(_, _)] _); [apply sem_minute; auto|].
    apply (sem_cat _ _ (String ":" EmptyString) _ [] _); [now constructor|].
    apply (sem_cat _ _ S _ [(_, _)] _); [apply sem_second; auto|].
    apply (sem_cat _ _ (String Z EmptyString) EmptyString [] []); [now constructor|].
    constructor.
Qed.

Lemma sep_dash : is_sep "-" = true. Proof. reflexivity. Qed.
Lemma sep_colon : is_sep ":" = true. Proof. reflexivity. Qed.
Lemma sep_T T : eq_nocase "T" T = true -> is_sep T = true.
Proof. unfold is_sep. intros ->. now rewrite orb_true_r. Qed.
Lemma sep_Z Z : eq_nocase "Z" Z = true -> is_sep Z = true.
Proof. unfold is_sep. intros ->. now rewrite !orb_true_r. Qed.

Lemma wire_join_app Y m d T H M S Z rest :
  (wire_join Y m d T H M S Z ++ rest)%string =
  (Y ++ String "-" (m ++ String "-" (d ++ String T
     (H ++ String ":" (M ++ String ":" (S ++ String Z rest))))))%string.
Proof.
  unfold wire_join.
  repeat (rewrite append_assoc; cbn [append]). reflexivity.
Qed.

(** Two texts of the language that begin the same text are the same, with
    the same groups. *)
Lemma sem_wire_unique c g c' g' rest rest' :
  sem wire_regex c g -> sem wire_regex c' g' ->
  (c ++ rest)%string = (c' ++ rest')%string ->
  c = c' /\ g = g' /\ rest = rest'.
Proof.
  intros H H' E.
  apply sem_wire in H.
  destruct H as (Y & m & d & T & H & M & S & Z & -> & -> & HY & Hm & Hd & HT & HH & HM & HS & HZ).
  apply sem_wire in H'.
  destruct H' as (Y' & m' & d' & T' & H' & M' & S' & Z' & -> & -> &
                  HY' & Hm' & Hd' & HT' & HH' & HM' & HS' & HZ').
  rewrite !wire_join_app in E.
  apply split_unique with (p := is_sep) in E;
    [|now apply (digits_free 4)|now apply (digits_free 4)|apply sep_dash|apply sep_dash].
  destruct E as (-> & _ & E).
  apply split_unique with (p := is_sep) in E;
    [|now apply month_free|now apply month_free|apply sep_dash|apply sep_dash].
  destruct E as (-> & _ & E).
  apply split_unique with (p := is_sep) in E;
    [|now apply day_free|now apply day_free|now apply sep_T|now apply sep_T].
  destruct E as (-> & -> & E).
  apply split_unique with (p := is_sep) in E;
    [|now apply hour_free|now apply hour_free|apply sep_colon|apply sep_colon].
  destruct E as (-> & _ & E).
  apply split_unique with (p := is_sep) in E;
    [|now apply minute_free|now apply minute_free|apply sep_colon|apply sep_colon].
  destruct E as (-> & _ & E).
  apply split_unique with (p := is_sep) in E;
    [|now apply second_free|now apply second_free|now apply sep_Z|now apply sep_Z].
  destruct E as (-> & -> & ->). auto.
Qed.

Lemma wire_regex_anchor_free : anchor_free wire_regex = true.
Proof. reflexivity. Qed.

(** The first match the engine finds is the only text of the language that
    begins the text, if there is one. *)
Lemma re_match_wire s g c rest :
  re_match wire_regex s = Some (g, c, rest) <->
  s = (c ++ rest)%string /\ sem wire_regex c g.
Proof.
  unfold re_match. split.
  - intros H. apply (rmatch_sound wire_regex wire_regex_anchor_free 0%nat).
    destruct (rmatch wire_regex 0 s) as [|x l]; [discriminate|].
    injection H as ->. now left.
  - intros [-> H].
    pose proof (rmatch_complete _ _ _ H 0%nat rest) as Hin.
    destruct (rmatch wire_regex 0 (c ++ rest)) as [|[[g' c'] rest'] l] eqn:E;
      [destruct Hin|].
    assert (Hx : In (g', c', rest') (rmatch wire_regex 0 (c ++ rest))).
    { rewrite E. now left. }
    apply (rmatch_sound wire_regex wire_regex_anchor_free) in Hx.
    destruct Hx as [Hx Hs].
    destruct (sem_wire_unique _ _ _ _ _ _ H Hs Hx) as (-> & -> & ->). reflexivity.
Qed.

(** What [strptime] takes, and what it makes of it. *)
Lemma parse_lenient s t : parse s = Some t <-> Spec.lenient s t.
Proof.
  unfold parse, Spec.lenient. split.
  - destruct (re_match wire_regex s) as [[[g c] rest]|] eqn:E; [|discriminate].
    apply re_match_wire in E. destruct E as [-> Hs].
    destruct rest; [|discriminate]. cbn [is_empty negb]. rewrite append_nil_r.
    apply sem_wire in Hs.
    destruct Hs as (Y & m & d & T & H & M & S & Z & -> & -> &
                    HY & Hm & Hd & HT & HH & HM & HS & HZ).
    unfold wire_groups.
    change (field _ "Y") with (int Y). change (field _ "m") with (int m).
    change (field _ "d") with (int d). change (field _ "H") with (int H).
    change (field _ "M") with (int M). change (field _ "S") with (int S).
    destruct (int Y) as [y|] eqn:EY; [|discriminate].
    destruct (int m) as [mo|] eqn:Em; [|discriminate].
    destruct (int d) as [dd|] eqn:Ed; [|discriminate].
    destruct (int H) as [hh|] eqn:EH; [|discriminate].
    destruct (int M) as [mi|] eqn:EM; [|discriminate].
    destruct (int S) as [ss|] eqn:ES; [|discriminate].
    intros Ht. exists Y, m, d, T, H, M, S, Z. repeat split; try assumption.
    exists y, mo, dd, hh, mi, ss. rewrite EY, Em, Ed, EH, EM, ES. repeat split. exact Ht.
  - intros (Y & m & d & T & H & M & S & Z & -> & HY & Hm & Hd & HT & HH & HM & HS & HZ &
            y & mo & dd & hh & mi & ss & EY & Em & Ed & EH & EM & ES & Ht).
    assert (Hs : sem wire_regex (wire_join Y m d T H M S Z) (wire_groups Y m d H M S)).
    { apply sem_wire. exists Y, m, d, T, H, M, S, Z. repeat split; assumption. }
    assert (E : re_match wire_regex (wire_join Y m d T H M S Z) =
                Some (wire_groups Y m d H M S, wire_join Y m d T H M S Z, EmptyString)).
    { apply re_match_wire. split; [now rewrite append_nil_r|exact Hs]. }
    unfold wire_join in E. rewrite E. cbn [is_empty negb]. unfold wire_groups.
    change (field _ "Y") with (int Y). change (field _ "m") with (int m).
    change (field _ "d") with (int d). change (field _ "H") with (int H).
    change (field _ "M") with (int M). change (field _ "S") with (int S).
    now rewrite EY, Em, Ed, EH, EM, ES.
Qed.

End WireFacts.

Section TimestampFacts.
Local Open Scope Z_scope.

(** A text [strptime] refuses is refused with [ValueError], and the error
    is made from the text. *)
Lemma strptime_raises s e : strptime s = Raise e -> e = ValueError s.
Proof. unfold strptime. destruct (parse s); [discriminate|]. now intros [= <-]. Qed.

Lemma strptime_parse s t : strptime s = Ok t <-> parse s = Some t.
Proof.
  unfold strptime. destruct (parse s); split; intros H; try discriminate; congruence.
Qed.

Lemma datetime_new_ok y m d hh mm ss t :
  datetime_new y m d hh mm ss = Some t -> valid t = true.
Proof.
  unfold datetime_new.
  destruct (valid _) eqn:E; [|discriminate]. now intros [= <-].
Qed.

(** What [strptime] returns has passed the checks of the constructor. *)
Lemma strptime_valid s t : strptime s = Ok t -> valid t = true.
Proof.
  intros H. apply strptime_parse, parse_lenient in H.
  destruct H as (Y & m & d & T & H & M & Se & Ze & _ & _ & _ & _ & _ & _ & _ & _ & _ &
                 y & mo & dd & hh & mi & ss & _ & _ & _ & _ & _ & _ & Ht).
  now apply datetime_new_ok in Ht.
Qed.

Lemma db_timestamp_raises s e : db_timestamp s = Raise e -> e = ValueError s.
Proof.
  unfold db_timestamp. destruct (strptime s) eqn:E; simpl; [discriminate|].
  intros [= <-]. now apply strptime_raises in E.
Qed.

Lemma db_timestamp_opt_raises o e :
  db_timestamp_opt o = Raise e ->
  (exists s, o = Some s /\ e = ValueError s) \/
  (o = None /\ e = TypeError "strptime() argument 1 must be str, not None").
Proof.
  destruct o as [s|]; simpl.
  - intros H. left. exists s. split; [reflexivity|]. now apply (db_timestamp_raises s).
  - intros [= <-]. now right.
Qed.

Lemma db_timestamp_ok s ts :
  db_timestamp s = Ok ts <-> exists t, strptime s = Ok t /\ ts = strftime t.
Proof.
  unfold db_timestamp. destruct (strptime s) as [t|e]; simpl; split.
  - intros [= <-]. now exists t.
  - intros (t' & [= <-] & ->). reflexivity.
  - discriminate.
  - intros (t' & H & _). discriminate.
Qed.

(** [digit_char n] depends on the last decimal digit of [n] only; a fact
    about it is checked on the ten digits. *)
Ltac by_last_digit n :=
  unfold digit_char;
  let H := fresh "H" in
  let C := fresh "C" in
  assert (H : 0 <= n mod 10 < 10) by (apply Z.mod_pos_bound; lia);
  assert (C : n mod 10 = 0 \/ n mod 10 = 1 \/ n mod 10 = 2 \/ n mod 10 = 3 \/
              n mod 10 = 4 \/ n mod 10 = 5 \/ n mod 10 = 6 \/ n mod 10 = 7 \/
              n mod 10 = 8 \/ n mod 10 = 9) by lia;
  repeat (destruct C as [C|C]; [rewrite C; reflexivity|]);
  rewrite C; reflexivity.

Lemma is_digit_digit_char n : is_digit (digit_char n) = true.
Proof.
  by_last_digit n.
Qed.

Lemma digit_char_nonzero n : 1 <= n <= 9 -> Ascii.eqb (digit_char n) "0" = false.
Proof.
  intros H.
  assert (C : n = 1 \/ n = 2 \/ n = 3 \/ n = 4 \/ n = 5 \/ n = 6 \/ n = 7 \/
              n = 8 \/ n = 9) by lia.
  repeat (destruct C as [C|C]; [rewrite C; reflexivity|]).
  rewrite C; reflexivity.
Qed.

Lemma year_text_four_digits y :
  1000 <= y <= 9999 -> year_text y = (pad2 (y / 100) ++ pad2 (y mod 100))%string.
Proof.
  intros H. unfold year_text, pad2. simpl.
  rewrite digit_char_nonzero; [reflexivity|].
  replace (y / 100 / 10) with (y / 1000) by (rewrite Z.div_div by lia; reflexivity).
  split.
  - apply Z.div_le_lower_bound; lia.
  - apply Z.lt_succ_r. apply Z.div_lt_upper_bound; lia.
Qed.

(** From year 1000 on, [strftime] writes the store format. *)
Lemma strftime_store_format t :
  valid t = true -> 1000 <= year t -> Spec.store_format (strftime t) = true.
Proof.
  intros Hv Hy. unfold valid in Hv.
  repeat (apply andb_true_iff in Hv; destruct Hv as [Hv ?]).
  unfold strftime. rewrite year_text_four_digits by lia.
  unfold Spec.store_format, pad2. simpl.
  rewrite !is_digit_digit_char. reflexivity.
Qed.

Lemma next_digit_char n r :
  Unicode.next (String (digit_char n) r) =
  Some (Z.to_N (48 + n mod 10), String (digit_char n) EmptyString, r).
Proof.
  by_last_digit n.
Qed.

Lemma decimal_digit n : Unicode.decimal (Z.to_N (48 + n mod 10)) = Some (Z.to_N (n mod 10)).
Proof.
  by_last_digit n.
Qed.

Lemma digit_char_not_space n : Ascii.eqb (digit_char n) space = false.
Proof.
  by_last_digit n.
Qed.

Lemma int_pad2 v : 0 <= v <= 99 -> int (pad2 v) = Some v.
Proof.
  intros H. unfold int, pad2. cbn [lstrip]. rewrite digit_char_not_space.
  cbn [String.length digits_value]. rewrite !next_digit_char, !decimal_digit.
  rewrite !Z2N.id by (apply Z.mod_pos_bound; lia).
  f_equal. Z.div_mod_to_equations. lia.
Qed.

Lemma int_year_text y : 1000 <= y <= 9999 -> int (year_text y) = Some y.
Proof.
  intros H. rewrite year_text_four_digits by assumption.
  unfold int, pad2. cbn [lstrip append]. rewrite digit_char_not_space.
  cbn [String.length digits_value].
  repeat (rewrite next_digit_char, decimal_digit; cbn [digits_value]).
  rewrite !Z2N.id by (apply Z.mod_pos_bound; lia).
  f_equal. Z.div_mod_to_equations. lia.
Qed.

Lemma digits_year_text y : 1000 <= y <= 9999 -> Spec.digits 4 (year_text y) = true.
Proof.
  intros H. rewrite year_text_four_digits by assumption.
  unfold pad2. cbn [append Spec.digits].
  unfold Unicode.is_decimal.
  repeat (rewrite next_digit_char, decimal_digit; cbn [andb]).
  reflexivity.
Qed.

(** The two-digit fields are checked on the numbers they can hold. *)
Tactic Notation "field_cases" ident(n) integer(k) :=
  do k (destruct n as [|n]; [try (exfalso; simpl in *; lia); try reflexivity|]);
  exfalso; lia.

Lemma month_pad2 v : 1 <= v <= 12 -> Spec.month_text (pad2 v) = true.
Proof.
  intros H. rewrite <- (Z2Nat.id v) in * by lia.
  generalize dependent (Z.to_nat v). intros n H.
  field_cases n 13.
Qed.

Lemma day_pad2 v : 1 <= v <= 31 -> Spec.day_text (pad2 v) = true.
Proof.
  intros H. rewrite <- (Z2Nat.id v) in * by lia.
  generalize dependent (Z.to_nat v). intros n H.
  field_cases n 32.
Qed.

Lemma hour_pad2 v : 0 <= v <= 23 -> Spec.hour_text (pad2 v) = true.
Proof.
  intros H. rewrite <- (Z2Nat.id v) in * by lia.
  generalize dependent (Z.to_nat v). intros n H.
  field_cases n 24.
Qed.

Lemma minute_pad2 v : 0 <= v <= 59 -> Spec.minute_text (pad2 v) = true.
Proof.
  intros H. rewrite <- (Z2Nat.id v) in * by lia.
  generalize dependent (Z.to_nat v). intros n H.
  field_cases n 60.
Qed.

Lemma second_pad2 v : 0 <= v <= 59 -> Spec.second_text (pad2 v) = true.
Proof.
  intros H. rewrite <- (Z2Nat.id v) in * by lia.
  generalize dependent (Z.to_nat v). intros n H.
  field_cases n 60.
Qed.

Lemma days_in_month_le y m : days_in_month y m <= 31.
Proof.
  unfold days_in_month.
  destruct (m =? 2); [destruct (is_leap y); lia|].
  destruct ((m =? 4) || (m =? 6) || (m =? 9) || (m =? 11)); lia.
Qed.

Lemma valid_bounds t :
  valid t = true ->
  1 <= year t <= 9999 /\ 1 <= month t <= 12 /\ 1 <= day t <= 31 /\
  0 <= hour t <= 23 /\ 0 <= minute t <= 59 /\ 0 <= second t <= 59.
Proof.
  unfold valid. intros H.
  repeat (apply andb_true_iff in H; destruct H as [H ?]).
  pose proof (days_in_month_le (year t) (month t)). lia.
Qed.

Lemma datetime_eta t :
  {| year := year t; month := month t; day := day t;
     hour := hour t; minute := minute t; second := second t |} = t.
Proof. destruct t; reflexivity. Qed.

(** Every date and time from year 1000 on, written in the wire format, is
    read back as it is. *)
Lemma strptime_wire_text t :
  valid t = true -> 1000 <= year t -> strptime (Spec.wire_text t) = Ok t.
Proof.
  intros Hv Hy. destruct (valid_bounds t Hv) as (By & Bm & Bd & BH & BM & BS).
  apply strptime_parse, parse_lenient.
  exists (year_text (year t)), (pad2 (month t)), (pad2 (day t)), "T"%char,
         (pad2 (hour t)), (pad2 (minute t)), (pad2 (second t)), "Z"%char.
  split; [reflexivity|].
  split; [apply digits_year_text; lia|].
  split; [now apply month_pad2|]. split; [now apply day_pad2|].
  split; [reflexivity|].
  split; [now apply hour_pad2|]. split; [now apply minute_pad2|].
  split; [now apply second_pad2|]. split; [reflexivity|].
  exists (year t), (month t), (day t), (hour t), (minute t), (second t).
  rewrite int_year_text by lia. rewrite !int_pad2 by lia.
  repeat split. unfold datetime_new. now rewrite datetime_eta, Hv.
Qed.

Lemma wire_text_wire_format t :
  valid t = true -> 1000 <= year t -> Spec.wire_format (Spec.wire_text t) = true.
Proof.
  intros Hv Hy. destruct (valid_bounds t Hv) as (By & _).
  unfold Spec.wire_text. rewrite year_text_four_digits by lia.
  unfold Spec.wire_format, pad2. simpl.
  rewrite !is_digit_digit_char. reflexivity.
Qed.

(** The digits of the fullwidth forms, U+FF10 to U+FF19, are digits to
    [strptime] where the pattern has [\d], and not where it has a range. *)
Example strptime_examples :
  db_timestamp "2024-01-01T12:00:00Z" = Ok "2024-01-01 12:00:00"%string /\
  db_timestamp "2024-02-29T23:59:59Z" = Ok "2024-02-29 23:59:59"%string /\
  db_timestamp "2024-01-01t12:00:00z" = Ok "2024-01-01 12:00:00"%string /\
  db_timestamp "2024-1-1T1:1:1Z" = Ok "2024-01-01 01:01:01"%string /\
  db_timestamp "2024- 1- 1T1:1:1Z" = Raise (ValueError "2024- 1- 1T1:1:1Z") /\
  db_timestamp "2024-1- 1T1:1:1Z" = Ok "2024-01-01 01:01:01"%string /\
  db_timestamp "２０２４-01-01T01:01:01Z" = Ok "2024-01-01 01:01:01"%string /\
  db_timestamp "2024-01-2１T1１:5６:６Z" = Ok "2024-01-21 11:56:06"%string /\
  db_timestamp "2024-０1-01T01:01:01Z" = Raise (ValueError "2024-０1-01T01:01:01Z") /\
  db_timestamp "2024-01-01T2１:01:01Z" = Raise (ValueError "2024-01-01T2１:01:01Z") /\
  db_timestamp "2023-02-29T00:00:00Z" = Raise (ValueError "2023-02-29T00:00:00Z") /\
  db_timestamp "2024-13-01T00:00:00Z" = Raise (ValueError "2024-13-01T00:00:00Z") /\
  db_timestamp "2024-01-01T24:00:00Z" = Raise (ValueError "2024-01-01T24:00:00Z") /\
  db_timestamp "2024-01-01T00:00:60Z" = Raise (ValueError "2024-01-01T00:00:60Z") /\
  db_timestamp "0000-01-01T00:00:00Z" = Raise (ValueError "0000-01-01T00:00:00Z") /\
  db_timestamp "2024-01-01T12:00:00Z " = Raise (ValueError "2024-01-01T12:00:00Z ") /\
  db_timestamp "2024-01-01 12:00:00" = Raise (ValueError "2024-01-01 12:00:00") /\
  db_timestamp "yesterday" = Raise (ValueError "yesterday") /\
  db_timestamp_opt None = Raise (TypeError "strptime() argument 1 must be str, not None").
Proof. repeat split; vm_compute; reflexivity. Qed.

End TimestampFacts.

(* ------------------------------------------------------------------ *)
(** ** The worker *)

Section WorkerFacts.
Local Open Scope Z_scope.

Variable rich_print : event -> option exn.
Variable sqlite_raises : stmt -> shape -> option exn.
Variable decompress : string -> result string.
Variable commodity_from_json : string -> result EDDNCommodityMessage.t.
Variable fsdjump_from_json : string -> result EDDNFSDJumpMessage.t.

Local Abbreviation persist_commodity :=
  (Listener.persist_commodity rich_print sqlite_raises).
Local Abbreviation persist_fsdjump :=
  (Listener.persist_fsdjump rich_print sqlite_raises).
Local Abbreviation handle :=
  (handle_payload rich_print sqlite_raises commodity_from_json fsdjump_from_json).
Local Abbreviation tried :=
  (try_frame rich_print sqlite_raises decompress commodity_from_json fsdjump_from_json).
Local Abbreviation frame_turn :=
  (process_frame rich_print sqlite_raises decompress commodity_from_json
                 fsdjump_from_json).
Local Abbreviation worker :=
  (process_message rich_print sqlite_raises decompress commodity_from_json
                   fsdjump_from_json).

Lemma classify_cases json :
  classify json =
  if contains "commodity" json then CommodityUpdate
  else if contains "journal" json && contains "FSDJump" json then SystemEvent
       else Discard.
Proof. reflexivity. Qed.

Lemma raised_app ev1 ev2 : raised (ev1 ++ ev2) = raised ev1 || raised ev2.
Proof. apply existsb_app. Qed.

Lemma raised_statements qs : raised (map Execute qs) = false.
Proof. induction qs as [|q qs IH]; [reflexivity|exact IH]. Qed.

(** What a branch does on the database is a line, the opening of the
    connection, statements, and the commit and the closing if it gets
    there. *)
Lemma persist_commodity_events store msg :
  events (persist_commodity store msg) = [] \/
  exists qs rest tail,
    message_queries store
      (match db_timestamp (CommodityMessage.timestamp (EDDNCommodityMessage.message msg))
       with Ok ts => ts | Raise _ => EmptyString end) msg = qs ++ rest /\
    (tail = [] \/ tail = [Commit; Close]) /\
    events (persist_commodity store msg) =
      market_line msg :: Connect :: map Execute qs ++ tail.
Proof.
  unfold Listener.persist_commodity. cbv zeta.
  destruct (is_carrier _); [now left|].
  destruct (rich_print _); [now left|]. right.
  destruct (db_timestamp _) as [ts|e].
  - destruct (commodity_loop _ _ _ _ _) as [t1 r] eqn:E.
    destruct (commodity_loop_prefix _ _ _ _ _ _ _ E) as (qs & rest & Q & L & _ & _).
    cbn [work log emit app] in Q, L.
    exists qs, rest. destruct r as [e|].
    + exists []. split; [exact Q|]. split; [now left|].
      cbn [events]. rewrite L, app_nil_r. reflexivity.
    + exists [Commit; Close]. split; [exact Q|]. split; [now right|].
      cbn [events emit log]. rewrite L, <- !app_assoc. reflexivity.
  - exists [], (message_queries store EmptyString msg), []. split; [reflexivity|].
    split; [now left|]. reflexivity.
Qed.

Lemma persist_fsdjump_events store msg :
  events (persist_fsdjump store msg) = [] \/
  exists qs tail,
    (qs = [] \/ exists ts,
        db_timestamp_opt (FSDJumpMessage.timestamp (EDDNFSDJumpMessage.message msg)) = Ok ts /\
        qs = [jump_query ts msg]) /\
    (tail = [] \/ tail = [Commit; Close]) /\
    events (persist_fsdjump store msg) =
      system_line msg :: Connect :: map Execute qs ++ tail.
Proof.
  unfold Listener.persist_fsdjump. cbv zeta.
  destruct (system_filter _) as [[|]|e]; [|now left..].
  destruct (rich_print _); [now left|]. right.
  destruct (db_timestamp_opt _) as [ts|e].
  - unfold Listener.execute. cbn [work log emit app].
    destruct (sqlite_raises _ _).
    + exists [], []. split; [now left|]. split; [now left|]. reflexivity.
    + exists [jump_query ts msg], [Commit; Close].
      split; [right; now exists ts|]. split; [now right|]. reflexivity.
  - exists [], []. split; [now left|]. split; [now left|]. reflexivity.
Qed.

Lemma raised_tail tail : tail = [] \/ tail = [Commit; Close] -> raised tail = false.
Proof. now intros [->| ->]. Qed.

(** No exception leaves the [try] block: what it raises is its outcome. *)
Lemma tried_not_raised store frame : raised (events (tried store frame)) = false.
Proof.
  unfold try_frame. destruct (decompress frame) as [json|e]; [|reflexivity].
  unfold handle_payload. destruct (classify json); [| |reflexivity].
  - destruct (commodity_from_json json) as [msg|e]; [|reflexivity].
    destruct (persist_commodity_events store msg) as [->|(qs & rest & tail & _ & Ht & ->)];
      [reflexivity|].
    cbn [raised existsb is_uncaught orb]. fold (raised (map Execute qs ++ tail)).
    now rewrite raised_app, raised_statements, (raised_tail tail Ht).
  - destruct (fsdjump_from_json json) as [msg|e]; [|reflexivity].
    destruct (persist_fsdjump_events store msg) as [->|(qs & tail & _ & Ht & ->)];
      [reflexivity|].
    cbn [raised existsb is_uncaught orb]. fold (raised (map Execute qs ++ tail)).
    now rewrite raised_app, raised_statements, (raised_tail tail Ht).
Qed.

(** A frame whose [try] block raises an error the console prints leaves
    the store alone, and the loop goes on with the rest of the queue. *)
Lemma worker_survives store frame rest e :
  outcome (tried store frame) = Raise e ->
  rich_print (Print_Error e) = None ->
  frame_turn store frame = (store, events (tried store frame) ++ [Print_Error e]) /\
  worker true store (Some frame :: rest) =
    (let '(store2, ev2, remaining) := worker true store rest in
     (store2, (events (tried store frame) ++ [Print_Error e]) ++ ev2, remaining)).
Proof.
  intros H Hp.
  assert (E : frame_turn store frame =
              (store, events (tried store frame) ++ [Print_Error e])).
  { unfold process_frame. now rewrite H, Hp. }
  split; [exact E|]. cbn [process_message]. rewrite E.
  now rewrite raised_app, tried_not_raised.
Qed.

(** A frame whose [try] block raises an error the console does not print
    ends the worker: the exception of the console leaves [process_message]
    and the rest of the queue stays where it is. *)
Lemma worker_dies store frame rest e e' :
  outcome (tried store frame) = Raise e ->
  rich_print (Print_Error e) = Some e' ->
  frame_turn store frame = (store, events (tried store frame) ++ [Uncaught e']) /\
  worker true store (Some frame :: rest) =
    (store, events (tried store frame) ++ [Uncaught e'], rest).
Proof.
  intros H Hp.
  assert (E : frame_turn store frame =
              (store, events (tried store frame) ++ [Uncaught e'])).
  { unfold process_frame. now rewrite H, Hp. }
  split; [exact E|]. cbn [process_message]. rewrite E.
  rewrite raised_app. cbn [raised existsb is_uncaught]. now rewrite orb_true_r.
Qed.

(** A frame whose [try] block does nothing is as good as absent. *)
Lemma worker_skips store frame rest :
  tried store frame = {| outcome := Ok store; events := [] |} ->
  frame_turn store frame = (store, []) /\
  worker true store (Some frame :: rest) = worker true store rest.
Proof.
  intros H.
  assert (E : frame_turn store frame = (store, [])).
  { unfold process_frame. now rewrite H. }
  split; [exact E|]. cbn [process_message]. rewrite E. cbn [raised existsb].
  destruct (worker true store rest) as [[s2 e2] r2]. reflexivity.
Qed.

(** C8: the alternatives are tried in the order the claim lists them. A
    payload that contains "commodity" goes to the commodity parser and
    branch; one that does not, and contains both "journal" and "FSDJump",
    goes to the system parser and branch; any other payload is dropped: no
    exception, no event at all (nothing printed, the database not opened),
    the store as it was, and the worker goes on as if the frame had not
    been in the queue. *)
Theorem payload_routing store json :
  (contains "commodity" json = true ->
     classify json = CommodityUpdate /\
     handle store json =
       match commodity_from_json json with
       | Ok eddn_message => persist_commodity store eddn_message
       | Raise e => {| outcome := Raise e; events := [] |}
       end) /\
  (contains "commodity" json = false ->
   contains "journal" json = true -> contains "FSDJump" json = true ->
     classify json = SystemEvent /\
     handle store json =
       match fsdjump_from_json json with
       | Ok eddn_message => persist_fsdjump store eddn_message
       | Raise e => {| outcome := Raise e; events := [] |}
       end) /\
  (contains "commodity" json = false ->
   contains "journal" json && contains "FSDJump" json = false ->
     classify json = Discard /\
     handle store json = {| outcome := Ok store; events := [] |} /\
     forall frame rest,
       decompress frame = Ok json ->
       frame_turn store frame = (store, []) /\
       worker true store (Some frame :: rest) = worker true store rest).
Proof.
  split; [|split].
  - intros H. unfold handle_payload. rewrite classify_cases, H.
    split; [reflexivity|]. destruct (commodity_from_json json); reflexivity.
  - intros H Hj Hf. unfold handle_payload. rewrite classify_cases, H, Hj, Hf.
    split; [reflexivity|]. destruct (fsdjump_from_json json); reflexivity.
  - intros H Hjf.
    assert (E : handle store json = {| outcome := Ok store; events := [] |}).
    { unfold handle_payload. now rewrite classify_cases, H, Hjf. }
    split; [now rewrite classify_cases, H, Hjf|]. split; [exact E|].
    intros frame rest Hd. apply worker_skips.
    unfold try_frame. now rewrite Hd.
Qed.

Lemma queries_timestamp items ts mid c sell demand buy stock ts' station item :
  In (UpdateStationItem sell demand buy stock ts' station item) (queries items ts mid c) ->
  ts' = ts.
Proof.
  unfold queries. intros [H|H]; [discriminate|].
  destruct (select_item_id items (Commodity.name c)); [|destruct H].
  destruct H as [H|[H|[]]]; [|discriminate]. now injection H.
Qed.


End WorkerFacts.

Section WorkerInstances.
Local Open Scope Z_scope.

(** Instances of C8: a market payload goes to the commodity branch; an
    outfitting payload is dropped and the worker goes on. *)
Lemma payload_routing_witness :
  (classify Sample.market_jameson = CommodityUpdate /\
   Sample.handle_payload Sample.store Sample.market_jameson =
   Sample.persist_commodity Sample.store
     (Sample.market "Jameson Memorial" "2024-01-01T12:00:00Z" [Sample.tritium])) /\
  (classify Sample.outfitting = Discard /\
   Sample.handle_payload Sample.store Sample.outfitting =
     {| outcome := Ok Sample.store; events := [] |} /\
   forall frame rest,
     Sample.decompress frame = Ok Sample.outfitting ->
     Sample.process_frame Sample.store frame = (Sample.store, []) /\
     Sample.process_message true Sample.store (Some frame :: rest) =
     Sample.process_message true Sample.store rest).
Proof.
  split.
  - apply (proj1 (payload_routing Sample.rich_print Sample.sqlite_raises
                    Sample.decompress Sample.commodity_from_json
                    Sample.fsdjump_from_json Sample.store Sample.market_jameson)).
    vm_compute; reflexivity.
  - apply (proj2 (proj2 (payload_routing Sample.rich_print Sample.sqlite_raises
                           Sample.decompress Sample.commodity_from_json
                           Sample.fsdjump_from_json Sample.store Sample.outfitting))).
    + vm_compute; reflexivity.
    + vm_compute; reflexivity.
Defined.



End WorkerInstances.

(* ------------------------------------------------------------------ *)
(** ** The pool at shutdown *)

Section PoolFacts.
Import Pool.

Lemma length_set_nth {A} i (x : A) l : List.length (set_nth i x l) = List.length l.
Proof.
  revert i. induction l as [|a l IH]; intros i; [destruct i; reflexivity|].
  destruct i; simpl; [reflexivity|now rewrite IH].
Qed.

Lemma nth_set_nth_same {A} i (x y d : A) l :
  nth_error l i = Some y -> nth i (set_nth i x l) d = x.
Proof.
  revert i. induction l as [|a l IH]; intros i H.
  - destruct i; discriminate.
  - destruct i as [|i]; simpl in *; [reflexivity|now apply IH].
Qed.

Lemma nth_set_nth_other {A} i j (x d : A) l :
  i <> j -> nth i (set_nth j x l) d = nth i l d.
Proof.
  revert i j. induction l as [|a l IH]; intros i j H.
  - destruct j; reflexivity.
  - destruct j as [|j], i as [|i]; simpl; try reflexivity; try congruence.
    apply IH. congruence.
Qed.

Lemma nth_error_nth_default {A} i (y d : A) l :
  nth_error l i = Some y -> nth i l d = y.
Proof.
  revert i. induction l as [|a l IH]; intros i H.
  - destruct i; discriminate.
  - destruct i as [|i]; simpl in *; [congruence|now apply IH].
Qed.

Lemma all_stopped_nth ws i w :
  all_stopped ws = true -> nth_error ws i = Some w -> w = Stopped.
Proof.
  unfold all_stopped. rewrite forallb_forall. intros H Hn.
  apply nth_error_In in Hn. specialize (H w Hn). destruct w; [discriminate..|reflexivity].
Qed.

Lemma all_stopped_set_nth ws i :
  all_stopped ws = true -> all_stopped (set_nth i Stopped ws) = true.
Proof.
  revert i. induction ws as [|w ws IH]; intros i H; [destruct i; reflexivity|].
  simpl in H. apply andb_true_iff in H. destruct H as [Hw Hws].
  destruct i; simpl; [exact Hws|]. rewrite Hw. now apply IH.
Qed.

Lemma sentinels_app l1 l2 : sentinels (l1 ++ l2) = sentinels l1 + sentinels l2.
Proof. unfold sentinels. now rewrite filter_app, length_app. Qed.

Lemma taken_by_app i l1 l2 : taken_by i (l1 ++ l2) = taken_by i l1 ++ taken_by i l2.
Proof. unfold taken_by. now rewrite filter_app, map_app. Qed.

Lemma taken_by_pairs i j taken :
  taken_by i (map (pair j) taken) = if Nat.eqb j i then taken else [].
Proof.
  unfold taken_by. induction taken as [|x taken IH]; simpl.
  - now destruct (Nat.eqb j i).
  - destruct (Nat.eqb j i); simpl; [now rewrite IH|exact IH].
Qed.

(** A move of worker [i], spelled out. *)
Lemma worker_step_move i s s' :
  worker_step i s = Some s' ->
  exists w taken w',
    nth_error (workers s) i = Some w /\
    move (run_loop s) (message_queue s) w taken w' /\
    run_loop s' = run_loop s /\
    message_queue s = taken ++ message_queue s' /\
    enqueued s' = enqueued s /\
    dequeued s' = dequeued s ++ map (pair i) taken /\
    eddn_thread s' = eddn_thread s /\
    main_thread s' = main_thread s /\
    workers s' = set_nth i w' (workers s).
Proof.
  unfold worker_step. intros H.
  destruct (nth_error (workers s) i) as [w|] eqn:E; [|discriminate].
  destruct w; [| |discriminate].
  - injection H as <-. exists AtLoopTest, [], (if run_loop s then InGet else Stopped).
    simpl. rewrite app_nil_r. repeat split. constructor.
  - destruct (message_queue s) as [|[frame|] rest] eqn:Q; injection H as <-.
    + exists InGet, [], AtLoopTest. simpl. rewrite app_nil_r.
      repeat split; auto. now constructor.
    + exists InGet, [Some frame], AtLoopTest. simpl.
      repeat split; auto. now apply (move_frame _ _ frame rest).
    + exists InGet, [None], Stopped. simpl.
      repeat split; auto. now apply (move_sentinel _ _ rest).
Qed.

Lemma crash_step_move i s s' :
  crash_step i s = Some s' ->
  exists w taken w',
    nth_error (workers s) i = Some w /\
    move (run_loop s) (message_queue s) w taken w' /\
    run_loop s' = run_loop s /\
    message_queue s = taken ++ message_queue s' /\
    enqueued s' = enqueued s /\
    dequeued s' = dequeued s ++ map (pair i) taken /\
    eddn_thread s' = eddn_thread s /\
    main_thread s' = main_thread s /\
    workers s' = set_nth i w' (workers s).
Proof.
  unfold crash_step. intros H.
  destruct (nth_error (workers s) i) as [w|] eqn:E; [|discriminate].
  destruct w; try discriminate.
  destruct (message_queue s) as [|[frame|] rest] eqn:Q; try discriminate.
  injection H as <-. exists InGet, [Some frame], Stopped. simpl.
  repeat split; auto. now apply (move_crash _ _ frame rest).
Qed.

(** A move of worker [i], of either kind. *)
Lemma thread_move a i s s' :
  a = Work i \/ a = Crash i ->
  step a s = Some s' ->
  exists w taken w',
    nth_error (workers s) i = Some w /\
    move (run_loop s) (message_queue s) w taken w' /\
    run_loop s' = run_loop s /\
    message_queue s = taken ++ message_queue s' /\
    enqueued s' = enqueued s /\
    dequeued s' = dequeued s ++ map (pair i) taken /\
    eddn_thread s' = eddn_thread s /\
    main_thread s' = main_thread s /\
    workers s' = set_nth i w' (workers s).
Proof.
  intros [-> | ->] H; [now apply worker_step_move|now apply crash_step_move].
Qed.

(** A move is a move of a worker or of another thread. *)
Lemma action_cases a :
  (exists j, a = Work j \/ a = Crash j) \/
  ((forall j, a <> Work j) /\ (forall j, a <> Crash j)).
Proof. destruct a as [|polled| |j|j]; eauto; right; split; discriminate. Qed.

(** A move of another thread leaves the workers and what they took. *)
Lemma other_step a s s' :
  step a s = Some s' -> (forall i, a <> Work i) -> (forall i, a <> Crash i) ->
  workers s' = workers s /\ dequeued s' = dequeued s /\
  (run_loop s = false -> run_loop s' = false).
Proof.
  intros H Ha Hb.
  destruct a as [|polled| |i|i]; [| | |now contradiction (Ha i)|now contradiction (Hb i)];
    unfold step, sub_step, main_step in H;
    repeat match type of H with
           | context [match ?x with _ => _ end] => destruct x eqn:?
           end;
    try discriminate; injection H as <-; simpl; repeat split; auto; congruence.
Qed.

Lemma move_sentinels flag q w taken w' :
  move flag q w taken w' ->
  is_stopped w = 0 /\ sentinels taken <= is_stopped w'.
Proof.
  intros H. inversion H; subst; unfold sentinels; simpl;
    try destruct flag; simpl; split; auto.
Qed.

Lemma move_cleared q w taken w' :
  move false q w taken w' ->
  1 + moves_left w' <= moves_left w /\
  List.length taken + in_get w' <= in_get w.
Proof. intros H. inversion H; simpl; lia. Qed.

Lemma state_of_after i j w w' s s' :
  nth_error (workers s) j = Some w ->
  workers s' = set_nth j w' (workers s) ->
  state_of i s' = if Nat.eqb j i then w' else state_of i s.
Proof.
  intros H E. unfold state_of. rewrite E.
  destruct (Nat.eqb_spec j i) as [->|Hne].
  - now apply (nth_set_nth_same i w' w).
  - apply nth_set_nth_other. congruence.
Qed.

Lemma state_of_nth_error i w s :
  nth_error (workers s) i = Some w -> state_of i s = w.
Proof. apply nth_error_nth_default. Qed.

Lemma inv_boot n : inv n (boot n).
Proof.
  unfold inv, pending. simpl. rewrite repeat_length.
  repeat split; try reflexivity; try lia; try discriminate.
  - intros i. apply Nat.le_0_l.
  - intros H. now contradiction H.
Qed.

Ltac step_cases H :=
  unfold step, sub_step, main_step in H;
  repeat match type of H with
         | context [match ?x with _ => _ end] =>
             let E := fresh "E" in destruct x eqn:E
         end;
  try discriminate; injection H as <-; simpl in *.

Ltac fin :=
  solve [ assumption | reflexivity | discriminate | congruence | lia
        | intros; congruence
        | match goal with
          | Hq : enqueued ?s = _ |- _ =>
              rewrite Hq, <- ?app_assoc; simpl; congruence
          end
        | match goal with
          | Hm : _ <> MainJoinSub -> _ |- _ <> MainJoinSub -> _ =>
              let X := fresh in intros X; specialize (Hm X); congruence
          end
        | intros;
          match goal with
          | Hx : _ -> ?g |- ?g => apply Hx; solve [reflexivity | congruence | discriminate]
          end
        | intros; exfalso;
          match goal with
          | Hx : ?p -> _, X : ?p |- _ => specialize (Hx X); discriminate
          end
        | unfold sentinels in *; simpl in *; lia ].

Lemma inv_step n a s s' : step a s = Some s' -> inv n s -> inv n s'.
Proof.
  intros H (Hq & Hl & Hs & Hd & Hc & Hm & Hf). unfold inv, pending in *.
  assert (Hw : (exists i, a = Work i \/ a = Crash i) \/
               a = Interrupt \/ (exists polled, a = Sub polled) \/ a = Main).
  { destruct a as [|polled| |i|i]; eauto. }
  destruct Hw as [(i & Hw)|[-> |[(polled & ->)| ->]]].
  2: { step_cases H. repeat split; auto. }
  2: { step_cases H; rewrite ?sentinels_app; simpl; repeat split; try fin. }
  2: { step_cases H; rewrite ?sentinels_app; simpl; rewrite ?E in *; simpl in *;
         repeat split; try fin. }
  - apply (thread_move a i) in H; [|exact Hw].
    destruct H as (w & taken & w' & Ew & Hmv & Er & Eq & Ee & Ed & Et & Em & Ews).
    destruct (move_sentinels _ _ _ _ _ Hmv) as [Hw0 Hw'].
    rewrite Er, Ee, Ed, Et, Em, Ews, length_set_nth.
    split; [|split; [|split; [|split; [|split; [|split]]]]]; auto.
    + rewrite Hq, Eq, map_app, map_map, map_id, <- app_assoc. reflexivity.
    + intros k. rewrite taken_by_app, taken_by_pairs, sentinels_app.
      rewrite (state_of_after k i w w' s s' Ew Ews). specialize (Hd k).
      destruct (Nat.eqb_spec i k) as [<-|Hne].
      * rewrite (state_of_nth_error i w s Ew), Hw0 in Hd. lia.
      * unfold sentinels at 2. simpl. lia.
    + intros Hdone. specialize (Hf Hdone).
      rewrite (all_stopped_nth _ _ _ Hf Ew) in Hw0. discriminate.
Qed.

Lemma inv_run n sched s s' : run sched s = Some s' -> inv n s -> inv n s'.
Proof.
  revert s. induction sched as [|a sched IH]; intros s H I; simpl in H.
  - now injection H as <-.
  - destruct (step a s) as [s1|] eqn:E; [|discriminate].
    apply (IH s1 H). now apply (inv_step n a s).
Qed.

(** Once the flag is cleared it stays cleared, every move of a worker uses
    up one of the moves it has left, and only a worker inside [get] takes
    an item. *)
Lemma cleared_step a s s' :
  step a s = Some s' -> run_loop s = false ->
  run_loop s' = false /\
  forall i,
    moves_of i [a] + moves_left (state_of i s') <= moves_left (state_of i s) /\
    List.length (taken_by i (dequeued s')) + in_get (state_of i s') <=
      List.length (taken_by i (dequeued s)) + in_get (state_of i s).
Proof.
  intros H Hf.
  assert (Hw : (exists j, a = Work j \/ a = Crash j) \/
               ((forall j, a <> Work j) /\ (forall j, a <> Crash j) /\
                forall i, moves_of i [a] = 0)).
  { destruct a as [|polled| |j|j]; eauto; right; repeat split; discriminate. }
  destruct Hw as [(j & Hw)|(Ha & Hb & Hc)].
  - assert (Hj : forall i, moves_of i [a] = if Nat.eqb j i then 1 else 0).
    { intros i. unfold moves_of. destruct Hw as [-> | ->]; simpl;
        now destruct (Nat.eqb j i). }
    apply (thread_move a j) in H; [|exact Hw].
    destruct H as (w & taken & w' & Ew & Hmv & Er & Eq & Ee & Ed & Et & Em & Ews).
    rewrite Hf in Hmv. destruct (move_cleared _ _ _ _ Hmv) as [Hm1 Hm2].
    split; [congruence|]. intros i.
    rewrite Ed, taken_by_app, taken_by_pairs, length_app.
    rewrite (state_of_after i j w w' s s' Ew Ews), Hj.
    destruct (Nat.eqb_spec j i) as [<-|Hne].
    + rewrite (state_of_nth_error j w s Ew). simpl. lia.
    + simpl. lia.
  - destruct (other_step _ _ _ H Ha Hb) as (Ew & Ed & Er).
    split; [auto|]. intros i. unfold state_of. rewrite Ew, Ed, Hc. simpl. lia.
Qed.

Lemma moves_of_cons i a sched : moves_of i (a :: sched) = moves_of i [a] + moves_of i sched.
Proof.
  unfold moves_of. simpl.
  destruct a as [|polled| |j|j]; simpl; try reflexivity; now destruct (Nat.eqb j i).
Qed.

Lemma cleared_run sched s s' :
  run sched s = Some s' -> run_loop s = false ->
  run_loop s' = false /\
  forall i,
    moves_of i sched + moves_left (state_of i s') <= moves_left (state_of i s) /\
    List.length (taken_by i (dequeued s')) + in_get (state_of i s') <=
      List.length (taken_by i (dequeued s)) + in_get (state_of i s).
Proof.
  revert s. induction sched as [|a sched IH]; intros s H Hf; simpl in H.
  - injection H as <-. split; [auto|]. intros i. unfold moves_of. simpl. lia.
  - destruct (step a s) as [s1|] eqn:E; [|discriminate].
    destruct (cleared_step a s s1 E Hf) as (Hf1 & H1).
    destruct (IH s1 H Hf1) as (Hf2 & H2).
    split; [exact Hf2|]. intros i.
    destruct (H1 i) as [Hm1 Hd1]. destruct (H2 i) as [Hm2 Hd2].
    rewrite moves_of_cons. lia.
Qed.

(** Once every worker has stopped nothing is taken from the queue. *)
Lemma stopped_step a s s' :
  step a s = Some s' -> all_stopped (workers s) = true ->
  dequeued s' = dequeued s /\ all_stopped (workers s') = true.
Proof.
  intros H Hs. destruct (action_cases a) as [(i & Hw)|(Ha & Hb)].
  - apply (thread_move a i) in H; [|exact Hw].
    destruct H as (w & taken & w' & Ew & Hmv & _).
    rewrite (all_stopped_nth _ _ _ Hs Ew) in Hmv. inversion Hmv.
  - destruct (other_step _ _ _ H Ha Hb) as (Ew & Ed & Er).
    now rewrite Ew, Ed.
Qed.

Lemma stopped_run sched s s' :
  run sched s = Some s' -> all_stopped (workers s) = true ->
  dequeued s' = dequeued s /\ all_stopped (workers s') = true.
Proof.
  revert s. induction sched as [|a sched IH]; intros s H Hs; simpl in H.
  - injection H as <-. auto.
  - destruct (step a s) as [s1|] eqn:E; [|discriminate].
    destruct (stopped_step a s s1 E Hs) as [Hd1 Hs1].
    destruct (IH s1 H Hs1) as [Hd2 Hs2]. split; [congruence|assumption].
Qed.

(** C9, as amended: in every state the threads can reach, the queue is
    first in, first out (what was put is what was taken followed by what is
    queued); once the main thread is past its loop of puts exactly one
    sentinel per worker has been put, and no sentinel is put before the run
    flag is cleared; a worker has taken at most one sentinel, and none
    unless it has stopped. From the moment the flag is cleared it stays
    cleared and every worker stops within two moves of its own: the loop
    test stops it, and only a worker that was inside [get] takes one more
    item before that. Once all workers have stopped nothing is taken any
    more: what is still queued stays there. *)
Theorem shutdown_protocol n sched s :
  run sched (boot n) = Some s ->
  enqueued s = map snd (dequeued s) ++ message_queue s /\
  (main_thread s = MainJoinWorkers \/ main_thread s = MainDone ->
     sentinels (enqueued s) = n) /\
  (0 < sentinels (enqueued s) -> run_loop s = false) /\
  (forall i, sentinels (taken_by i (dequeued s)) <= is_stopped (state_of i s)) /\
  (main_thread s = MainDone -> all_stopped (workers s) = true) /\
  (run_loop s = false ->
   forall sched' s', run sched' s = Some s' ->
     run_loop s' = false /\
     forall i,
       moves_of i sched' + moves_left (state_of i s') <= moves_left (state_of i s) /\
       List.length (taken_by i (dequeued s')) + in_get (state_of i s') <=
         List.length (taken_by i (dequeued s)) + in_get (state_of i s)) /\
  (all_stopped (workers s) = true ->
   forall sched' s', run sched' s = Some s' ->
     dequeued s' = dequeued s /\ all_stopped (workers s') = true).
Proof.
  intros H.
  destruct (inv_run n sched (boot n) s H (inv_boot n)) as (Hq & Hl & Hs & Hd & Hc & Hm & Hf).
  unfold pending in Hs.
  split; [exact Hq|]. split; [|split; [|split; [exact Hd|split; [exact Hf|split]]]].
  - intros [E|E]; rewrite E in Hs; lia.
  - intros Hpos. apply Hc. apply Hm. intros E. rewrite E in Hs.
    rewrite Hl in Hs. lia.
  - intros Hflag sched' s' Hrun. now apply (cleared_run sched' s s').
  - intros Hall sched' s' Hrun. now apply (stopped_run sched' s s').
Qed.

Lemma backlog_run : run Sample.backlog_schedule (boot 2) = Some Sample.backlog_final.
Proof. reflexivity. Qed.

(** An instance of C9: the state the backlog schedule ends in. *)
Lemma shutdown_protocol_witness :
  enqueued Sample.backlog_final =
    map snd (dequeued Sample.backlog_final) ++ message_queue Sample.backlog_final /\
  (main_thread Sample.backlog_final = MainJoinWorkers \/
   main_thread Sample.backlog_final = MainDone ->
     sentinels (enqueued Sample.backlog_final) = 2) /\
  (0 < sentinels (enqueued Sample.backlog_final) ->
     run_loop Sample.backlog_final = false) /\
  (forall i, sentinels (taken_by i (dequeued Sample.backlog_final)) <=
             is_stopped (state_of i Sample.backlog_final)) /\
  (main_thread Sample.backlog_final = MainDone ->
     all_stopped (workers Sample.backlog_final) = true) /\
  (run_loop Sample.backlog_final = false ->
   forall sched' s', run sched' Sample.backlog_final = Some s' ->
     run_loop s' = false /\
     forall i,
       moves_of i sched' + moves_left (state_of i s') <=
         moves_left (state_of i Sample.backlog_final) /\
       List.length (taken_by i (dequeued s')) + in_get (state_of i s') <=
         List.length (taken_by i (dequeued Sample.backlog_final)) +
         in_get (state_of i Sample.backlog_final)) /\
  (all_stopped (workers Sample.backlog_final) = true ->
   forall sched' s', run sched' Sample.backlog_final = Some s' ->
     dequeued s' = dequeued Sample.backlog_final /\ all_stopped (workers s') = true).
Proof.
  apply (shutdown_protocol 2 Sample.backlog_schedule Sample.backlog_final).
  reflexivity.
Defined.

(** C9 as it was stated fails: with two workers waiting in [get] and three
    frames queued when the flag is cleared, each worker handles one frame
    and stops at its next loop test; the main thread puts its two sentinels
    and joins the workers; the third frame and both sentinels are still in
    the queue when the pool has stopped. *)
Lemma frame_left_behind_at_shutdown :
  exists s,
    run Sample.backlog_schedule (boot 2) = Some s /\
    main_thread s = MainDone /\
    all_stopped (workers s) = true /\
    message_queue s = [Some "f3"%string; None; None] /\
    ~ In "f3"%string (handled (map snd (dequeued s))) /\
    taken_by 0 (dequeued s) = [Some "f1"%string] /\
    taken_by 1 (dequeued s) = [Some "f2"%string] /\
    sentinels (enqueued s) = 2 /\
    sentinels (map snd (dequeued s)) = 0.
Proof.
  exists Sample.backlog_final. split; [reflexivity|].
  repeat split; try reflexivity.
  simpl. intros [H|[H|[]]]; discriminate.
Qed.

End PoolFacts.

(* ------------------------------------------------------------------ *)
(** ** One frame, one transaction *)

Section TransactionFacts.
Local Open Scope Z_scope.

Variable rich_print : event -> option exn.
Variable sqlite_raises : stmt -> shape -> option exn.
Local Abbreviation persist_commodity :=
  (Listener.persist_commodity rich_print sqlite_raises).
Local Abbreviation persist_fsdjump :=
  (Listener.persist_fsdjump rich_print sqlite_raises).

Lemma persist_commodity_transaction store msg :
  transaction store (persist_commodity store msg).
Proof.
  unfold Listener.persist_commodity. cbv zeta.
  destruct (is_carrier _); [constructor|].
  destruct (rich_print _); [constructor|].
  destruct (db_timestamp _) as [ts|e].
  - destruct (commodity_loop _ _ _ _ _) as [t1 r] eqn:E.
    destruct (commodity_loop_prefix _ _ _ _ _ _ _ E) as (qs & rest & _ & L & W & _).
    cbn [work log emit app] in L, W.
    destruct r as [e|].
    + rewrite L. now apply (tx_left_open store _ qs).
    + cbn [emit work log]. rewrite L, W, <- !app_assoc.
      now apply (tx_committed store _ qs).
  - now apply (tx_left_open store _ []).
Qed.

Lemma persist_fsdjump_transaction store msg :
  transaction store (persist_fsdjump store msg).
Proof.
  unfold Listener.persist_fsdjump. cbv zeta.
  destruct (system_filter _) as [[|]|e]; [|constructor|constructor].
  destruct (rich_print _); [constructor|].
  destruct (db_timestamp_opt _) as [ts|e].
  - unfold Listener.execute. cbn [work log emit app].
    destruct (sqlite_raises _ _).
    + now apply (tx_left_open store _ []).
    + match goal with
      | |- context [UpdateSystem ?p ?ts ?pat] =>
          apply (tx_committed store _ [UpdateSystem p ts pat])
      end. reflexivity.
  - now apply (tx_left_open store _ []).
Qed.

Section FrameDecoders.
Variable decompress : string -> result string.
Variable commodity_from_json : string -> result EDDNCommodityMessage.t.
Variable fsdjump_from_json : string -> result EDDNFSDJumpMessage.t.

Local Abbreviation tried :=
  (try_frame rich_print sqlite_raises decompress commodity_from_json fsdjump_from_json).

(** Whatever the libraries answer, the handling of a frame takes one of
    the forms of [transaction]. *)
Lemma frame_is_one_transaction store frame :
  transaction store (tried store frame).
Proof.
  unfold try_frame. destruct (decompress frame) as [json|e]; [|constructor].
  unfold handle_payload. destruct (classify json).
  - destruct (commodity_from_json json); [apply persist_commodity_transaction|constructor].
  - destruct (fsdjump_from_json json); [apply persist_fsdjump_transaction|constructor].
  - constructor.
Qed.

End FrameDecoders.
End TransactionFacts.
(* ------------------------------------------------------------------ *)
(** ** Two sequences of row updates *)

Section TwoFamilies.
Variables (Row U : Type).
Variables (hit hit' : U -> Row -> bool).
Variables (set set' : U -> Row -> Row).
Hypothesis hit_set : forall u v r, hit u (set v r) = hit u r.
Hypothesis set_set : forall u v r, set u (set v r) = set u r.
Hypothesis hit'_set' : forall u v r, hit' u (set' v r) = hit' u r.
Hypothesis set'_set' : forall u v r, set' u (set' v r) = set' u r.
Hypothesis hit'_set : forall u v r, hit' u (set v r) = hit' u r.
Hypothesis hit_set' : forall u v r, hit u (set' v r) = hit u r.
Hypothesis set'_set : forall u v r, set' u (set v r) = set' u r.

(** A test the updates do not change holds after them as before. *)
Lemma kept_apply_all (P : Row -> bool) us r :
  (forall v r, P (set v r) = P r) -> P (apply_all hit set us r) = P r.
Proof.
  intros HP. revert r. induction us as [|v us IH]; intros r; simpl; [reflexivity|].
  fold (apply_all hit set us (upd hit set v r)). rewrite IH.
  unfold upd. destruct (hit v r); [apply HP|reflexivity].
Qed.

(** Updates that reach every row the earlier ones reached leave nothing of
    the earlier ones. *)
Lemma apply_all_covered us us' r :
  (forall u, In u us -> hit u r = true -> exists u', In u' us' /\ hit' u' r = true) ->
  apply_all hit' set' us' (apply_all hit set us r) = apply_all hit' set' us' r.
Proof.
  intros Hcov.
  destruct (last_hit_split Row U hit us r) as [Hmiss|(us1 & u & vs & -> & Hu & Hvs)].
  - now rewrite (apply_all_miss Row U hit set us r Hmiss).
  - rewrite (apply_all_last Row U hit set hit_set set_set us1 u vs r Hu Hvs).
    destruct (Hcov u) as (u' & Hin & Hu'); [apply in_or_app; right; now left|exact Hu|].
    destruct (last_hit_split Row U hit' us' r)
      as [Hmiss'|(us1' & w & vs' & -> & Hw & Hvs')].
    + rewrite (Hmiss' u' Hin) in Hu'. discriminate.
    + rewrite (apply_all_last Row U hit' set' hit'_set' set'_set' us1' w vs' r Hw Hvs').
      rewrite (apply_all_last Row U hit' set' hit'_set' set'_set' us1' w vs' (set u r)).
      * apply set'_set.
      * now rewrite hit'_set.
      * intros v Hv. rewrite hit'_set. now apply Hvs'.
Qed.

End TwoFamilies.

Section Commuting.
Variables (Row U : Type).
Variables (hit hit' : U -> Row -> bool).
Variables (set set' : U -> Row -> Row).
Hypothesis hit'_set : forall u v r, hit' u (set v r) = hit' u r.
Hypothesis hit_set' : forall u v r, hit u (set' v r) = hit u r.

(** Updates that reach no common row can be done in either order. *)
Lemma apply_all_apart us us' r :
  (forall u u', In u us -> In u' us' -> hit u r = true -> hit' u' r = false) ->
  apply_all hit' set' us' (apply_all hit set us r) =
  apply_all hit set us (apply_all hit' set' us' r).
Proof.
  intros Hapart.
  destruct (last_hit_split Row U hit us r) as [Hmiss|(us1 & u & vs & E & Hu & Hvs)].
  - rewrite (apply_all_miss Row U hit set us r Hmiss).
    symmetry. apply apply_all_miss. intros u Hin.
    rewrite (kept_apply_all Row U hit' set' (hit u) us' r (hit_set' u)).
    now apply Hmiss.
  - assert (Hmiss' : forall u', In u' us' -> hit' u' r = false).
    { intros u' Hin. apply (Hapart u u'); auto.
      rewrite E. apply in_or_app. right. now left. }
    rewrite (apply_all_miss Row U hit' set' us' r Hmiss').
    apply apply_all_miss. intros u' Hin.
    rewrite (kept_apply_all Row U hit set (hit' u') us r (hit'_set u')).
    now apply Hmiss'.
Qed.

End Commuting.

Section ComposeFacts.
Local Open Scope Z_scope.

Variable rich_print : event -> option exn.
Variable sqlite_raises : stmt -> shape -> option exn.
Local Abbreviation goes_through := (Batch.goes_through rich_print sqlite_raises).
Local Abbreviation jump_goes_through :=
  (Batch.jump_goes_through rich_print sqlite_raises).
Local Abbreviation apply_message := (Batch.apply_message rich_print sqlite_raises).
Local Abbreviation apply_system := (Batch.apply_system rich_print sqlite_raises).
Local Abbreviation msg_of m := (EDDNCommodityMessage.message m).

Local Abbreviation cases := (apply_message_cases rich_print sqlite_raises).
Local Abbreviation ok := (apply_message_ok rich_print sqlite_raises).
Local Abbreviation shape_kept := (apply_message_shape rich_print sqlite_raises).
Local Abbreviation through := (goes_through_shape rich_print sqlite_raises).

(** A commodity message finds the same items after any commodity message. *)
Lemma resolve_apply_message store msg cs :
  resolve (Item (apply_message store msg)) cs = resolve (Item store) cs.
Proof. apply resolve_shape, shape_kept. Qed.

Lemma in_found_ids (us : list (Z * Commodity.t)) u : In u us -> In (fst u) (map fst us).
Proof. apply in_map. Qed.

Lemma hit_item_id u r : hit_item u r = true -> ItemRow.item_id r = fst u.
Proof. unfold hit_item. apply Z.eqb_eq. Qed.

Lemma hit_station_item_id mid u r :
  hit_station_item mid u r = true ->
  StationItemRow.station_id r = mid /\ StationItemRow.item_id r = fst u.
Proof.
  unfold hit_station_item, station_item_matches. intros H.
  apply andb_true_iff in H. destruct H as [H1 H2].
  split; now apply Z.eqb_eq.
Qed.

Lemma found_id_hits us id :
  In id (map fst us) -> exists u : Z * Commodity.t, In u us /\ fst u = id.
Proof.
  intros H. apply in_map_iff in H. destruct H as (u & E & Hin). now exists u.
Qed.


(** Two messages on one store: each goes through after the other as it
    does before, or changes nothing after the other as before. *)
Lemma two_messages store msg1 msg2 :
  (exists ts1 ts2,
     goes_through store msg1 ts1 /\ goes_through store msg2 ts2 /\
     goes_through (apply_message store msg2) msg1 ts1 /\
     goes_through (apply_message store msg1) msg2 ts2) \/
  apply_message (apply_message store msg1) msg2 =
  apply_message (apply_message store msg2) msg1.
Proof.
  destruct (cases store msg1) as [(ts1 & H1)|E1].
  - destruct (cases store msg2) as [(ts2 & H2)|E2].
    + left. exists ts1, ts2. split; [exact H1|]. split; [exact H2|]. split.
      * apply (through store); [symmetry; apply shape_kept|exact H1].
      * apply (through store); [symmetry; apply shape_kept|exact H2].
    + right. rewrite (E2 store eq_refl). apply E2. apply shape_kept.
  - right. rewrite (E1 store eq_refl). symmetry. apply E1. apply shape_kept.
Qed.



Local Abbreviation jump_cases := (apply_system_cases rich_print sqlite_raises).
Local Abbreviation jump_ok := (apply_system_ok rich_print sqlite_raises).
Local Abbreviation jump_shape := (apply_system_shape rich_print sqlite_raises).
Local Abbreviation jump_through := (jump_goes_through_shape rich_print sqlite_raises).


Lemma update_system_twice p ts p' ts' pat rows :
  update_system p' ts' pat (update_system p ts pat rows) = update_system p' ts' pat rows.
Proof.
  unfold update_system. rewrite map_map. apply map_ext. intros r.
  destruct (like pat (SystemRow.name r)) eqn:E; simpl; now rewrite E.
Qed.

(** X14: a system event that goes through (the filter lets it pass, its
    line prints, its timestamp parses and the database does not refuse its
    statement) leaves nothing of an earlier event with the same star
    system name: the store after both is the store after the later one
    alone. *)
Theorem later_system_event_overwrites store jump jump' ts' :
  let m := EDDNFSDJumpMessage.message jump in
  let m' := EDDNFSDJumpMessage.message jump' in
  jump_goes_through store jump' ts' ->
  FSDJumpMessage.StarSystem m = FSDJumpMessage.StarSystem m' ->
  apply_system (apply_system store jump) jump' = apply_system store jump'.
Proof.
  intros m m' Hgo Hname.
  destruct (jump_cases store jump) as [(ts & Hj)|Ej]; [|now rewrite (Ej store eq_refl)].
  assert (Hgo' : jump_goes_through (apply_system store jump) jump' ts').
  { apply (jump_through store); [symmetry; apply jump_shape|exact Hgo]. }
  rewrite (jump_ok _ jump' ts' Hgo'), (jump_ok _ jump' ts' Hgo), (jump_ok _ jump ts Hj).
  unfold jump_query. fold m m'. cbn [run Item StationItem System].
  rewrite Hname, update_system_twice. reflexivity.
Qed.

End ComposeFacts.

(* ------------------------------------------------------------------ *)
(** ** What a worker leaves alone *)

Section FrameFacts.
Local Open Scope Z_scope.

Variable rich_print : event -> option exn.
Variable sqlite_raises : stmt -> shape -> option exn.
Local Abbreviation apply_message := (Batch.apply_message rich_print sqlite_raises).

Lemma replay_keeps_keys qs d :
  item_keys (replay qs d) = item_keys d /\
  station_keys (replay qs d) = station_keys d /\
  system_names (replay qs d) = system_names d.
Proof.
  revert d. induction qs as [|q qs IH]; intros d; simpl; [repeat split|].
  destruct (IH (run q d)) as (-> & -> & ->). apply run_keeps_keys.
Qed.

Section WorkerDecoders.
Variable decompress : string -> result string.
Variable commodity_from_json : string -> result EDDNCommodityMessage.t.
Variable fsdjump_from_json : string -> result EDDNFSDJumpMessage.t.

Local Abbreviation tried :=
  (try_frame rich_print sqlite_raises decompress commodity_from_json fsdjump_from_json).
Local Abbreviation frame_turn :=
  (process_frame rich_print sqlite_raises decompress commodity_from_json
                 fsdjump_from_json).
Local Abbreviation worker :=
  (process_message rich_print sqlite_raises decompress commodity_from_json
                   fsdjump_from_json).
Local Abbreviation one_transaction :=
  (frame_is_one_transaction rich_print sqlite_raises decompress commodity_from_json
                            fsdjump_from_json).

(** X2: whatever the libraries answer, one turn of the loop on a frame
    ends in one of three ways. Nothing happens at all. Or a line is
    printed, the connection is opened, statements are executed, and the
    whole is committed and then closed: the store is then what these
    statements, run in order, make of it. Or the turn fails and the store
    is as it was: up to the failure either nothing was done, or a line was
    printed, the connection opened and statements executed, with neither
    commit nor close; then the error is printed, or, when the console
    refuses the error, the exception of the console leaves
    [process_message]. *)
Theorem frame_outcomes store frame :
  let store' := fst (frame_turn store frame) in
  let ev := snd (frame_turn store frame) in
  (store' = store /\ ev = []) \/
  (exists p qs,
     is_print p = true /\
     ev = p :: Connect :: map Execute qs ++ [Commit; Close] /\
     store' = replay qs store) \/
  (store' = store /\
   exists started e,
     (started = [] \/
      exists p qs, is_print p = true /\ started = p :: Connect :: map Execute qs) /\
     ((rich_print (Print_Error e) = None /\ ev = started ++ [Print_Error e]) \/
      (exists e', rich_print (Print_Error e) = Some e' /\
                  ev = started ++ [Uncaught e']))).
Proof.
  unfold process_frame.
  destruct (one_transaction store frame) as [|e|p qs e Hp|p qs Hp]; cbn [outcome events].
  - left. split; reflexivity.
  - right. right. destruct (rich_print (Print_Error e)) as [e'|] eqn:E;
      (split; [reflexivity|]); exists [], e; (split; [now left|]).
    + right. now exists e'.
    + left. now split.
  - right. right. destruct (rich_print (Print_Error e)) as [e'|] eqn:E;
      (split; [reflexivity|]); exists (p :: Connect :: map Execute qs), e;
      (split; [right; now exists p, qs|]).
    + right. now exists e'.
    + left. now split.
  - right. left. exists p, qs. repeat split. exact Hp.
Qed.

Lemma frame_keeps_keys store frame :
  item_keys (fst (frame_turn store frame)) = item_keys store /\
  station_keys (fst (frame_turn store frame)) = station_keys store /\
  system_names (fst (frame_turn store frame)) = system_names store.
Proof.
  unfold process_frame.
  destruct (one_transaction store frame) as [|e|p qs e Hp|p qs Hp]; cbn [outcome events];
    try (destruct (rich_print _); repeat split; reflexivity);
    try (repeat split; reflexivity).
  apply replay_keeps_keys.
Qed.

Lemma worker_cons store frame rest :
  worker true store (Some frame :: rest) =
  if raised (snd (frame_turn store frame))
  then (fst (frame_turn store frame), snd (frame_turn store frame), rest)
  else
    (let '(store2, ev2, remaining) := worker true (fst (frame_turn store frame)) rest in
     (store2, snd (frame_turn store frame) ++ ev2, remaining)).
Proof. cbn [process_message]. destruct (frame_turn store frame). reflexivity. Qed.

(** X3: a worker, whatever it finds in its queue and whatever the decoders
    answer, leaves every table with the rows it had, in the same order and
    with the same keys: ids and names of [Item], station and item ids of
    [StationItem], names of [System]. It inserts nothing, deletes nothing
    and renames nothing. *)
Theorem tables_keep_their_keys run_loop store queue :
  let store' := fst (fst (worker run_loop store queue)) in
  item_keys store' = item_keys store /\
  station_keys store' = station_keys store /\
  system_names store' = system_names store.
Proof.
  destruct run_loop; [|destruct queue; simpl; repeat split].
  revert store. induction queue as [|[frame|] rest IH]; intros store;
    [simpl; repeat split| |simpl; repeat split].
  rewrite worker_cons.
  destruct (raised (snd (frame_turn store frame))); [apply frame_keeps_keys|].
  specialize (IH (fst (frame_turn store frame))).
  destruct (worker true (fst (frame_turn store frame)) rest) as [[s2 e2] r2].
  simpl in *. destruct IH as (-> & -> & ->). apply frame_keeps_keys.
Qed.


End WorkerDecoders.

Local Abbreviation cases := (apply_message_cases rich_print sqlite_raises).
Local Abbreviation ok := (apply_message_ok rich_print sqlite_raises).

(** X6: handling a commodity message leaves [System] as it is and
    the tables as long as they were; a row of [Item] whose id no commodity
    of the message found is left as it is, and so is a row of [StationItem]
    that belongs to another market or to an item no commodity found. *)
Theorem commodity_update_leaves_the_rest store msg :
  let store' := apply_message store msg in
  let mid := CommodityMessage.marketId (EDDNCommodityMessage.message msg) in
  System store' = System store /\
  List.length (Item store') = List.length (Item store) /\
  List.length (StationItem store') = List.length (StationItem store) /\
  (forall i r,
     nth_error (Item store) i = Some r ->
     ~ In (ItemRow.item_id r) (found_ids (Item store) msg) ->
     nth_error (Item store') i = Some r) /\
  (forall i r,
     nth_error (StationItem store) i = Some r ->
     StationItemRow.station_id r <> mid \/
     ~ In (StationItemRow.item_id r) (found_ids (Item store) msg) ->
     nth_error (StationItem store') i = Some r).
Proof.
  intros store' mid. subst store'.
  destruct (cases store msg) as [(ts & Hgo)|E].
  - rewrite (ok store msg ts Hgo). simpl.
    rewrite !length_map.
    split; [reflexivity|]. split; [reflexivity|]. split; [reflexivity|]. split.
    + intros i r Hr Hid. rewrite nth_error_map, Hr. simpl. f_equal.
      apply apply_all_miss. intros u Hin.
      destruct (hit_item u r) eqn:Hu; [|reflexivity].
      apply hit_item_id in Hu. exfalso. apply Hid. rewrite Hu.
      now apply in_found_ids.
    + intros i r Hr Hor. rewrite nth_error_map, Hr. simpl. f_equal.
      apply apply_all_miss. intros u Hin.
      match goal with |- ?h = false => destruct h eqn:Hu; [|reflexivity] end.
      apply hit_station_item_id in Hu. destruct Hu as [Hs Hi]. exfalso.
      destruct Hor as [Hn|Hn]; [now apply Hn|].
      apply Hn. rewrite Hi. now apply in_found_ids.
  - rewrite (E store eq_refl). repeat split; auto.
Qed.

End FrameFacts.

(* ------------------------------------------------------------------ *)
(** ** Names on the wire *)

Section NameFacts.
Local Open Scope Z_scope.

Variable rich_print : event -> option exn.
Variable sqlite_raises : stmt -> shape -> option exn.
Local Abbreviation jump_goes_through :=
  (Batch.jump_goes_through rich_print sqlite_raises).
Local Abbreviation apply_system := (Batch.apply_system rich_print sqlite_raises).

(** X1: [is_carrier] holds of a name exactly when the name is three
    characters of [[a-zA-Z0-9]], a hyphen and three more such characters,
    followed by nothing or by one line feed: of seven or eight characters,
    upper or lower case alike, and of no other name. *)
Theorem is_carrier_characterized s :
  is_carrier s = true <->
  exists a b c d e f tail,
    s = String a (String b (String c (String "-" (String d (String e (String f tail)))))) /\
    is_alnum a = true /\ is_alnum b = true /\ is_alnum c = true /\
    is_alnum d = true /\ is_alnum e = true /\ is_alnum f = true /\
    (tail = EmptyString \/ tail = String newline EmptyString).
Proof.
  split.
  - intros H.
    destruct (Nat.lt_ge_cases (String.length s) 7) as [Hlt|Hge];
      [rewrite (is_carrier_short s Hlt) in H; discriminate|].
    do 7 (destruct s as [|? s]; [simpl in Hge; lia|]).
    rewrite is_carrier_unfold in H.
    repeat (apply andb_true_iff in H; destruct H as [H ?]).
    match goal with Hh : Ascii.eqb "-" _ = true |- _ => apply Ascii.eqb_eq in Hh; subst end.
    match goal with Ht : at_eol _ = true |- _ => apply at_eol_cases in Ht end.
    do 7 eexists. split; [reflexivity|]. repeat split; assumption.
  - intros (a & b & c & d & e & f & tail & -> & Ha & Hb & Hc & Hd & He & Hf & Ht).
    rewrite is_carrier_unfold, Ha, Hb, Hc, Hd, He, Hf. simpl.
    apply at_eol_cases. exact Ht.
Qed.

Local Open Scope N_scope.

Lemma byte_lower a : Unicode.byte (lower a) = fold (Unicode.byte a).
Proof.
  rewrite fold_cases, !byte_code, code_lower.
  pose proof (code_bound a).
  destruct ((65 <=? code a) && (code a <=? 90))%nat eqn:Ea;
    destruct ((65 <=? N.of_nat (code a)) && (N.of_nat (code a) <=? 90)) eqn:Fa;
    rewrite ?andb_true_iff, ?andb_false_iff, ?Nat.leb_le, ?Nat.leb_gt,
            ?N.leb_le, ?N.leb_gt in *; lia.
Qed.

Lemma eqb_byte a b : Ascii.eqb a b = (Unicode.byte a =? Unicode.byte b).
Proof.
  destruct (Ascii.eqb_spec a b) as [->|Hne].
  - now rewrite N.eqb_refl.
  - symmetry. apply N.eqb_neq. intros H. apply Hne. now apply byte_inj.
Qed.

Lemma eq_nocase_fold a b :
  eq_nocase a b = (fold (Unicode.byte a) =? fold (Unicode.byte b)).
Proof. unfold eq_nocase. now rewrite eqb_byte, !byte_lower. Qed.

Lemma same_char_low c a :
  Unicode.byte c < 128 -> Unicode.byte a < 128 ->
  same_char (Unicode.byte c) (Unicode.byte a) = eq_nocase c a.
Proof.
  intros Hc Ha. unfold same_char. rewrite eq_nocase_fold.
  apply N.ltb_lt in Hc, Ha. rewrite Hc, Ha. cbn [andb].
  destruct (N.eqb_spec (Unicode.byte c) (Unicode.byte a)) as [->|_];
    [now rewrite N.eqb_refl|reflexivity].
Qed.

Lemma same_char_high c d : c < 128 -> 128 <= d -> same_char c d = false.
Proof.
  intros Hc Hd. unfold same_char.
  destruct (N.eqb_spec c d); [lia|].
  destruct (N.ltb_spec d 128); [lia|]. now rewrite andb_false_r.
Qed.

Lemma eq_nocase_high c a :
  Unicode.byte c < 128 -> 128 <= Unicode.byte a -> eq_nocase c a = false.
Proof.
  intros Hc Ha. destruct (eq_nocase c a) eqn:E; [|reflexivity].
  apply eq_nocase_alike in E. unfold alike, letter in E. lia.
Qed.

(** A character begun is a character read, and none of ASCII. *)
Lemma chars_from_begun c0 s :
  exists d l, chars_from (Some c0) s = d :: l /\ 128 <= d.
Proof.
  revert c0. induction s as [|a s IH]; intros c0; cbn [chars_from].
  - exists (settle c0), []. split; [reflexivity|apply settle_high].
  - destruct (Unicode.is_cont a); [apply IH|].
    eexists _, _. split; [reflexivity|apply settle_high].
Qed.

Lemma plain_char_byte c :
  plain_char c = true ->
  0 < Unicode.byte c < 128 /\ Unicode.byte c <> percent /\ Unicode.byte c <> underscore.
Proof.
  unfold plain_char. cbv zeta. intros H.
  repeat (apply andb_true_iff in H; destruct H as [H ?]).
  repeat match goal with
         | H : negb _ = true |- _ => apply negb_true_iff in H; apply N.eqb_neq in H
         | H : (_ <? _) = true |- _ => apply N.ltb_lt in H
         end.
  auto.
Qed.

Lemma begins_low b k : 0 < b < 192 -> begins b k = b :: k None.
Proof.
  intros H. unfold begins.
  destruct (N.eqb_spec b 0); [lia|]. destruct (N.leb_spec 192 b); [lia|reflexivity].
Qed.

Lemma chars_low a s :
  0 < Unicode.byte a < 192 -> chars (String a s) = Unicode.byte a :: chars s.
Proof. intros H. unfold chars. cbn [chars_from]. now apply begins_low. Qed.

Lemma chars_nul a s : Unicode.byte a = 0 -> chars (String a s) = [].
Proof. intros H. unfold chars. cbn [chars_from]. unfold begins. now rewrite H. Qed.

Lemma chars_lead a s :
  192 <= Unicode.byte a -> exists d l, chars (String a s) = d :: l /\ 128 <= d.
Proof.
  intros H. unfold chars. cbn [chars_from]. unfold begins.
  destruct (N.eqb_spec (Unicode.byte a) 0); [lia|].
  destruct (N.leb_spec 192 (Unicode.byte a)); [|lia]. apply chars_from_begun.
Qed.

Lemma c_string_cons a s :
  Unicode.byte a <> 0 -> c_string (String a s) = String a (c_string s).
Proof.
  intros H. cbn [c_string]. destruct (Ascii.eqb_spec a nul) as [->|_]; [|reflexivity].
  now contradiction H.
Qed.

Lemma c_string_nul a s : Unicode.byte a = 0 -> c_string (String a s) = EmptyString.
Proof. intros H. apply byte_nul in H. now subst a. Qed.

(** A plain name matches the texts that are equal to it up to ASCII case,
    read up to their first NUL, and no other. *)
Lemma like_plain pat x : plain pat = true -> like pat x = string_eq_nocase pat (c_string x).
Proof.
  unfold like. revert x. induction pat as [|c pat IH]; intros x H.
  - change (chars EmptyString) with (@nil N). cbn [like_chars string_eq_nocase].
    destruct x as [|a x]; [reflexivity|].
    destruct (N.eq_dec (Unicode.byte a) 0) as [E|E].
    + now rewrite (chars_nul a x E), (c_string_nul a x E).
    + rewrite (c_string_cons a x E).
      destruct (N.le_gt_cases 192 (Unicode.byte a)) as [Hh|Hl].
      * destruct (chars_lead a x Hh) as (d & l & -> & _). reflexivity.
      * rewrite chars_low by lia. reflexivity.
  - cbn [plain] in H. apply andb_true_iff in H. destruct H as [Hc Hp].
    apply plain_char_byte in Hc. destruct Hc as (Hc & Hc1 & Hc2).
    rewrite chars_low by lia.
    destruct x as [|a x].
    { change (chars EmptyString) with (@nil N). now rewrite like_chars_char_nil. }
    destruct (N.eq_dec (Unicode.byte a) 0) as [E|E].
    { rewrite (chars_nul a x E), (c_string_nul a x E). now rewrite like_chars_char_nil. }
    rewrite (c_string_cons a x E). cbn [string_eq_nocase].
    assert (Hu : (Unicode.byte c =? underscore) = false) by now apply N.eqb_neq.
    destruct (N.le_gt_cases 128 (Unicode.byte a)) as [Hh|Hl].
    + rewrite (eq_nocase_high c a) by lia. cbn [andb].
      destruct (N.le_gt_cases 192 (Unicode.byte a)) as [Hh2|Hl2].
      * destruct (chars_lead a x Hh2) as (d & l & -> & Hd).
        rewrite (like_chars_char _ _ _ _ Hc1), Hu, (same_char_high _ d) by lia.
        reflexivity.
      * rewrite chars_low by lia.
        rewrite (like_chars_char _ _ _ _ Hc1), Hu, (same_char_high _ _) by lia.
        reflexivity.
    + rewrite chars_low by lia.
      rewrite (like_chars_char _ _ _ _ Hc1), Hu, same_char_low by lia.
      cbn [orb]. now rewrite (IH x Hp).
Qed.

Lemma like_chars_any y : like_chars [percent] y = true.
Proof.
  induction y as [|d y IH]; rewrite like_chars_percent; [reflexivity|].
  rewrite IH. apply orb_true_r.
Qed.

(** A plain name followed by [%] matches every text that begins with the
    name, up to ASCII case. *)
Lemma like_prefix pat s1 s2 :
  plain pat = true -> string_eq_nocase pat s1 = true ->
  like (pat ++ "%") (s1 ++ s2) = true.
Proof.
  unfold like. revert s1. induction pat as [|c pat IH]; intros s1 Hp H.
  - destruct s1; [|discriminate]. cbn [append].
    rewrite chars_low by (vm_compute; split; reflexivity).
    change (chars EmptyString) with (@nil N). apply like_chars_any.
  - destruct s1 as [|a s1]; [discriminate|].
    cbn [string_eq_nocase] in H. apply andb_true_iff in H. destruct H as [Hca H].
    cbn [plain] in Hp. apply andb_true_iff in Hp. destruct Hp as [Hc Hp].
    apply plain_char_byte in Hc. destruct Hc as (Hc & Hc1 & Hc2).
    pose proof (eq_nocase_alike c a Hca) as Ha.
    assert (Hlow : 0 < Unicode.byte a < 128).
    { destruct Ha as [<-|(_ & La & _)]; [exact Hc|]. unfold letter in La. lia. }
    cbn [append]. rewrite !chars_low by lia.
    rewrite (like_chars_char _ _ _ _ Hc1), (alike_same_char _ _ Ha), orb_true_r.
    now apply IH.
Qed.

Local Close Scope N_scope.

(** X10: a name of ASCII characters that holds neither [%] nor [_] nor NUL
    is matched by [LIKE] as a whole: the lookup answers with the first item
    whose name, blanks removed and read up to its first NUL, equals the
    wire name up to ASCII case, and a system event updates the systems
    whose name, read up to its first NUL, equals the star system's up to
    ASCII case, and no other. *)
Theorem plain_names_match_exactly wire :
  plain wire = true ->
  (forall r,
     item_matches wire r =
     string_eq_nocase wire (c_string (remove_spaces (ItemRow.name r)))) /\
  (forall items,
     select_item_id items wire =
     option_map ItemRow.item_id
       (find (fun r => string_eq_nocase wire (c_string (remove_spaces (ItemRow.name r))))
             items)) /\
  (forall power ts rows,
     update_system power ts wire rows =
     map (fun r => if string_eq_nocase wire (c_string (SystemRow.name r))
                   then set_power power ts r else r) rows).
Proof.
  intros Hp. split; [|split].
  - intros r. unfold item_matches. now apply like_plain.
  - intros items. unfold select_item_id.
    induction items as [|a items IH]; simpl; [reflexivity|].
    unfold item_matches at 1. rewrite (like_plain wire _ Hp).
    destruct (string_eq_nocase wire (c_string (remove_spaces (ItemRow.name a))));
      [reflexivity|].
    exact IH.
  - intros power ts rows. unfold update_system. apply map_ext. intros r.
    now rewrite like_plain.
Qed.

(** X11: names on the wire are patterns. A commodity name that is a plain
    name followed by [%] finds an item as soon as the table holds one whose
    name, blanks removed, begins with the plain name up to ASCII case. A
    system event that goes through and whose star system name is a plain
    name followed by [%] sets power and timestamp of every system whose
    name begins with the plain name; with the name [%] alone, of every
    system. *)
Theorem trailing_percent_matches_every_extension pat :
  plain pat = true ->
  (forall items r s1 s2,
     In r items ->
     remove_spaces (ItemRow.name r) = (s1 ++ s2)%string ->
     string_eq_nocase pat s1 = true ->
     exists id, select_item_id items (pat ++ "%") = Some id) /\
  (forall store jump ts i r s1 s2,
     let m := EDDNFSDJumpMessage.message jump in
     jump_goes_through store jump ts ->
     FSDJumpMessage.StarSystem m = (pat ++ "%")%string ->
     nth_error (System store) i = Some r ->
     SystemRow.name r = (s1 ++ s2)%string ->
     string_eq_nocase pat s1 = true ->
     nth_error (System (apply_system store jump)) i =
       Some (set_power (FSDJumpMessage.ControllingPower m) ts r)).
Proof.
  intros Hp. split.
  - intros items r s1 s2 Hin Hname Hl.
    destruct (select_item_id items (pat ++ "%")) as [id|] eqn:E; [now exists id|].
    rewrite select_item_id_none in E. specialize (E r Hin).
    unfold item_matches in E. rewrite Hname, (like_prefix pat s1 s2 Hp Hl) in E.
    discriminate.
  - intros store jump ts i r s1 s2 m Hgo Hs Hr Hname Hl.
    rewrite (apply_system_ok rich_print sqlite_raises store jump ts Hgo).
    unfold jump_query. fold m. cbn [run System].
    unfold update_system. rewrite nth_error_map, Hr. simpl.
    now rewrite Hs, Hname, (like_prefix pat s1 s2 Hp Hl).
Qed.

End NameFacts.

(* ------------------------------------------------------------------ *)
(** ** The statements of one message *)

Section StatementFacts.
Local Open Scope Z_scope.

Variable rich_print : event -> option exn.
Variable sqlite_raises : stmt -> shape -> option exn.
Local Abbreviation persist_commodity :=
  (Listener.persist_commodity rich_print sqlite_raises).
Local Abbreviation quiet := (Batch.quiet sqlite_raises).
Local Abbreviation apply_system := (Batch.apply_system rich_print sqlite_raises).

Lemma lookups_app ev1 ev2 : lookups (ev1 ++ ev2) = lookups ev1 ++ lookups ev2.
Proof.
  induction ev1 as [|e ev1 IH]; simpl; [reflexivity|].
  destruct e as [| | | |q| | |]; simpl; try exact IH.
  destruct q; simpl; rewrite ?IH; reflexivity.
Qed.

Lemma lookups_statements items ts mid cs :
  lookups (flat_map (statements items ts mid) cs) = map Commodity.name cs.
Proof.
  induction cs as [|c cs IH]; simpl; [reflexivity|].
  rewrite lookups_app, IH. f_equal. unfold queries.
  destruct (select_item_id items (Commodity.name c)); reflexivity.
Qed.

Lemma writes_statements items ts mid cs :
  List.length (filter is_write (flat_map (statements items ts mid) cs)) =
  (2 * List.length (resolve items cs))%nat.
Proof.
  unfold resolve.
  induction cs as [|c cs IH]; simpl; [reflexivity|].
  rewrite filter_app, !length_app, IH. unfold queries.
  destruct (select_item_id items (Commodity.name c)); simpl; lia.
Qed.

(** X5: a commodity message that goes through (its station is no carrier,
    its line prints, its timestamp parses and the database refuses none of
    its statements) issues one lookup per commodity, in message order, with
    the commodity's name as the pattern, and two updates for each commodity
    whose lookup finds an item. Every update of [StationItem] carries the
    converted timestamp, the market id of the message and an id that a
    lookup found; every update of [Item] carries such an id; [System] is
    not updated. *)
Theorem one_lookup_per_commodity store msg ts :
  let m := EDDNCommodityMessage.message msg in
  let ev := events (persist_commodity store msg) in
  is_carrier (CommodityMessage.stationName m) = false ->
  rich_print (market_line msg) = None ->
  db_timestamp (CommodityMessage.timestamp m) = Ok ts ->
  quiet (shape_of store) (message_queries store ts msg) = true ->
  lookups ev = map Commodity.name (CommodityMessage.commodities m) /\
  List.length (filter is_write ev) =
    (2 * List.length (found_ids (Item store) msg))%nat /\
  (forall sell demand buy stock ts' station item,
     In (Execute (UpdateStationItem sell demand buy stock ts' station item)) ev ->
     ts' = ts /\ station = CommodityMessage.marketId m /\
     In item (found_ids (Item store) msg)) /\
  (forall mean item,
     In (Execute (UpdateItem mean item)) ev -> In item (found_ids (Item store) msg)) /\
  (forall power ts' pat, ~ In (Execute (UpdateSystem power ts' pat)) ev).
Proof.
  intros m ev Hc Hl Ht Hq. subst ev.
  assert (Hgo : Batch.goes_through rich_print sqlite_raises store msg ts)
    by (repeat split; assumption).
  rewrite (persist_commodity_ok rich_print sqlite_raises store msg ts Hgo).
  fold m. cbn [events].
  assert (Hin : forall q,
            In (Execute q)
               ([market_line msg; Connect] ++
                flat_map (statements (Item store) ts (CommodityMessage.marketId m))
                         (CommodityMessage.commodities m) ++ [Commit; Close]) ->
            exists c, In c (CommodityMessage.commodities m) /\
                      In (Execute q)
                         (statements (Item store) ts (CommodityMessage.marketId m) c)).
  { intros q H. simpl in H. destruct H as [H|[H|H]]; [discriminate..|].
    apply in_app_or in H. destruct H as [H|[H|[H|[]]]]; [|discriminate..].
    apply in_flat_map in H. exact H. }
  assert (Hfound : forall c id,
            In c (CommodityMessage.commodities m) ->
            select_item_id (Item store) (Commodity.name c) = Some id ->
            In id (found_ids (Item store) msg)).
  { intros c id Hc' Hs. unfold found_ids, resolve. fold m.
    apply in_map_iff. exists (id, c). split; [reflexivity|].
    apply in_flat_map. exists c. split; [exact Hc'|]. rewrite Hs. now left. }
  split; [|split; [|split; [|split]]].
  - change (lookups (flat_map (statements (Item store) ts (CommodityMessage.marketId m))
                               (CommodityMessage.commodities m) ++ [Commit; Close]) =
            map Commodity.name (CommodityMessage.commodities m)).
    rewrite lookups_app, lookups_statements. simpl. now rewrite app_nil_r.
  - change (List.length
              (filter is_write
                 (flat_map (statements (Item store) ts (CommodityMessage.marketId m))
                           (CommodityMessage.commodities m) ++ [Commit; Close])) =
            (2 * List.length (found_ids (Item store) msg))%nat).
    rewrite filter_app, length_app, writes_statements. unfold found_ids. fold m.
    rewrite length_map. simpl. lia.
  - intros sell demand buy stock ts' station item H.
    destruct (Hin _ H) as (c & Hc' & Hq'). unfold statements, queries in Hq'.
    destruct Hq' as [Hq'|Hq']; [discriminate|].
    destruct (select_item_id (Item store) (Commodity.name c)) as [id|] eqn:Es;
      [|destruct Hq'].
    destruct Hq' as [Hq'|[Hq'|[]]]; [|discriminate].
    injection Hq' as _ _ _ _ <- <- <-. repeat split. now apply (Hfound c).
  - intros mean item H.
    destruct (Hin _ H) as (c & Hc' & Hq'). unfold statements, queries in Hq'.
    destruct Hq' as [Hq'|Hq']; [discriminate|].
    destruct (select_item_id (Item store) (Commodity.name c)) as [id|] eqn:Es;
      [|destruct Hq'].
    destruct Hq' as [Hq'|[Hq'|[]]]; [discriminate|].
    injection Hq' as _ <-. now apply (Hfound c).
  - intros power ts' pat H.
    destruct (Hin _ H) as (c & Hc' & Hq'). unfold statements, queries in Hq'.
    destruct Hq' as [Hq'|Hq']; [discriminate|].
    destruct (select_item_id (Item store) (Commodity.name c)) as [id|] eqn:Es;
      [|destruct Hq'].
    destruct Hq' as [Hq'|[Hq'|[]]]; discriminate.
Qed.

(** X13: handling a system event leaves [Item] and [StationItem] as
    they are and [System] as long as it was; a system whose name the star
    system name, read as a pattern, does not match is left as it is, and
    every system keeps its name. *)
Theorem system_event_leaves_the_rest store jump :
  let store' := apply_system store jump in
  let m := EDDNFSDJumpMessage.message jump in
  Item store' = Item store /\
  StationItem store' = StationItem store /\
  List.length (System store') = List.length (System store) /\
  (forall i r,
     nth_error (System store) i = Some r ->
     like (FSDJumpMessage.StarSystem m) (SystemRow.name r) = false ->
     nth_error (System store') i = Some r) /\
  (forall i r',
     nth_error (System store') i = Some r' ->
     exists r, nth_error (System store) i = Some r /\
               SystemRow.name r' = SystemRow.name r).
Proof.
  intros store' m. subst store'.
  destruct (apply_system_cases rich_print sqlite_raises store jump) as [(ts & Hgo)|E].
  - rewrite (apply_system_ok rich_print sqlite_raises store jump ts Hgo).
    unfold jump_query. fold m. cbn [run Item StationItem System].
    unfold update_system. rewrite length_map.
    repeat split.
    + intros i r Hr Hl. now rewrite nth_error_map, Hr; simpl; rewrite Hl.
    + intros i r' H. rewrite nth_error_map in H.
      destruct (nth_error (System store) i) as [r|]; [|discriminate].
      exists r. split; [reflexivity|]. simpl in H. injection H as <-.
      destruct (like _ _); reflexivity.
  - rewrite (E store eq_refl). repeat split; auto. intros i r' H. now exists r'.
Qed.

End StatementFacts.

(* ------------------------------------------------------------------ *)
(** ** The pool before and after the interrupt *)

Section ShutdownFacts.
Import Pool Shutdown.

Ltac pool_cases H :=
  unfold step, sub_step, main_step in H;
  repeat match type of H with
         | context [match ?x with _ => _ end] =>
             let E := fresh "E" in destruct x eqn:E
         end;
  try discriminate; injection H as <-; simpl in *.

Ltac known :=
  repeat match goal with
         | E : ?x = _ |- context [?x] => rewrite E
         end.

Lemma handled_app l1 l2 : handled (l1 ++ l2) = handled l1 ++ handled l2.
Proof.
  induction l1 as [|[f|] l1 IH]; simpl; [reflexivity| |exact IH].
  now rewrite IH.
Qed.

Lemma all_frames l : sentinels l = 0 -> l = map Some (handled l).
Proof.
  induction l as [|[f|] l IH]; intros H; [reflexivity| |discriminate].
  simpl. f_equal. apply IH. exact H.
Qed.

Lemma all_sentinels l : handled l = [] -> l = repeat None (sentinels l).
Proof.
  induction l as [|[f|] l IH]; intros H; [reflexivity|discriminate|].
  change (sentinels (None :: l)) with (S (sentinels l)). simpl. f_equal. now apply IH.
Qed.

Lemma ordered_put_sentinel l : ordered l -> ordered (l ++ [None]).
Proof.
  unfold ordered. intros H.
  rewrite handled_app, sentinels_app, repeat_app. simpl.
  rewrite app_nil_r, app_assoc, <- H. reflexivity.
Qed.

Lemma ordered_put_frame l f : sentinels l = 0 -> ordered (l ++ [Some f]).
Proof.
  unfold ordered. intros H.
  assert (E : sentinels (l ++ [Some f]) = 0) by (rewrite sentinels_app, H; reflexivity).
  rewrite E. simpl. rewrite app_nil_r. now apply all_frames.
Qed.

Lemma ordered_tail x l : ordered (x :: l) -> ordered l.
Proof.
  unfold ordered. destruct x as [f|]; simpl.
  - intros H. injection H as H. exact H.
  - change (sentinels (None :: l)) with (S (sentinels l)).
    destruct (handled l) as [|g hs] eqn:E; simpl; [|discriminate].
    intros H. injection H as H. exact H.
Qed.

(** Behind a sentinel there are sentinels only. *)
Lemma ordered_behind l1 l2 :
  ordered (l1 ++ l2) -> 0 < sentinels l1 -> l2 = repeat None (sentinels l2).
Proof.
  induction l1 as [|[f|] l1 IH]; intros H Hpos.
  - unfold sentinels in Hpos. simpl in Hpos. lia.
  - apply IH; [now apply (ordered_tail (Some f))|exact Hpos].
  - unfold ordered in H. simpl in H.
    destruct (handled (l1 ++ l2)) as [|g hs] eqn:E; [|discriminate].
    rewrite handled_app in E. apply app_eq_nil in E. now apply all_sentinels.
Qed.

(** While the subscriber runs the main thread waits for it and no sentinel
    has been put. *)
Lemma before_close n s :
  inv n s -> eddn_thread s <> SubClosed ->
  main_thread s = MainJoinSub /\ sentinels (enqueued s) = 0.
Proof.
  intros (Hq & Hl & Hs & Hd & Hc & Hm & Hf) Hsub.
  assert (E : main_thread s = MainJoinSub).
  { destruct (main_thread s) eqn:E; [reflexivity|..];
      exfalso; apply Hsub, Hm; discriminate. }
  split; [exact E|]. unfold pending in Hs. rewrite E in Hs. lia.
Qed.

Lemma ordered_step n a s s' :
  inv n s -> step a s = Some s' -> ordered (enqueued s) -> ordered (enqueued s').
Proof.
  intros I H Ho. destruct a as [|polled| |i|i].
  - pool_cases H. exact Ho.
  - pool_cases H; try exact Ho.
    apply ordered_put_frame.
    apply (before_close n s I). rewrite E. discriminate.
  - pool_cases H; try exact Ho. now apply ordered_put_sentinel.
  - simpl in H. apply worker_step_move in H.
    destruct H as (w & taken & w' & _ & _ & _ & _ & Ee & _). now rewrite Ee.
  - simpl in H. apply crash_step_move in H.
    destruct H as (w & taken & w' & _ & _ & _ & _ & Ee & _). now rewrite Ee.
Qed.

Lemma ordered_run n sched s s' :
  run sched s = Some s' -> inv n s -> ordered (enqueued s) -> ordered (enqueued s').
Proof.
  revert s. induction sched as [|a sched IH]; intros s H I Ho; simpl in H.
  - now injection H as <-.
  - destruct (step a s) as [s1|] eqn:E; [|discriminate].
    apply (IH s1 H); [now apply (inv_step n a s)|now apply (ordered_step n a s)].
Qed.

(** X16: in every state the threads can reach, what has been put into the
    queue is frames first and sentinels after: no frame is ever put behind
    a sentinel. So once a worker has taken a sentinel the queue holds
    sentinels only. *)
Theorem frames_precede_sentinels n sched s :
  run sched (boot n) = Some s ->
  enqueued s = map Some (handled (enqueued s)) ++ repeat None (sentinels (enqueued s)) /\
  (0 < sentinels (map snd (dequeued s)) ->
     message_queue s = repeat None (sentinels (message_queue s))).
Proof.
  intros H.
  assert (Ho : ordered (enqueued s)).
  { apply (ordered_run n sched (boot n) s H (inv_boot n)). reflexivity. }
  split; [exact Ho|].
  destruct (inv_run n sched (boot n) s H (inv_boot n)) as (Hq & _).
  rewrite Hq in Ho. now apply ordered_behind.
Qed.

Lemma flag_step a s s' : step a s = Some s' -> run_loop s' = true -> a <> Interrupt /\ run_loop s = true.
Proof.
  intros H Hf. destruct a as [|polled| |i|i].
  - pool_cases H. discriminate.
  - split; [discriminate|].
    destruct (other_step _ _ _ H ltac:(discriminate) ltac:(discriminate)) as (_ & _ & Er).
    destruct (run_loop s); [reflexivity|]. rewrite Er in Hf; [discriminate|reflexivity].
  - split; [discriminate|].
    destruct (other_step _ _ _ H ltac:(discriminate) ltac:(discriminate)) as (_ & _ & Er).
    destruct (run_loop s); [reflexivity|]. rewrite Er in Hf; [discriminate|reflexivity].
  - split; [discriminate|]. simpl in H. apply worker_step_move in H.
    destruct H as (w & taken & w' & _ & _ & Er & _). congruence.
  - split; [discriminate|]. simpl in H. apply crash_step_move in H.
    destruct H as (w & taken & w' & _ & _ & Er & _). congruence.
Qed.

Lemma flag_kept a s s' :
  step a s = Some s' -> a <> Interrupt -> run_loop s' = run_loop s.
Proof.
  intros H Ha. destruct a as [|polled| |i|i]; [now contradiction Ha| | | |].
  - pool_cases H; congruence.
  - pool_cases H; congruence.
  - simpl in H. apply worker_step_move in H.
    destruct H as (w & taken & w' & _ & _ & Er & _). exact Er.
  - simpl in H. apply crash_step_move in H.
    destruct H as (w & taken & w' & _ & _ & Er & _). exact Er.
Qed.

Lemma nth_error_set_nth {A} i j (x y : A) l :
  nth_error (set_nth j x l) i = Some y -> (i = j /\ y = x) \/ nth_error l i = Some y.
Proof.
  revert i j. induction l as [|a l IH]; intros i j H; [destruct j; now right|].
  destruct j as [|j]; destruct i as [|i]; simpl in H.
  - injection H as <-. now left.
  - now right.
  - now right.
  - destruct (IH i j H) as [[-> ->]|E]; [now left|now right].
Qed.

(** While the flag is set a worker stops on an exception only. *)
Lemma alive_step n a s s' :
  inv n s -> step a s = Some s' -> run_loop s = true ->
  forall i, nth_error (workers s') i = Some Stopped ->
            nth_error (workers s) i = Some Stopped \/ a = Crash i.
Proof.
  intros I H Hf i Hi. destruct (action_cases a) as [(j & Hw)|(Ha & Hb)].
  - destruct Hw as [-> | ->].
    + left. simpl in H. unfold worker_step in H.
      destruct (nth_error (workers s) j) as [w|] eqn:Ew; [|discriminate].
      destruct w; [| |discriminate].
      * injection H as <-. rewrite Hf in Hi. simpl in Hi.
        apply nth_error_set_nth in Hi. destruct Hi as [[_ E]|E]; [discriminate|exact E].
      * destruct (message_queue s) as [|[frame|] rest] eqn:Eq; injection H as <-;
          simpl in Hi; apply nth_error_set_nth in Hi;
          destruct Hi as [[_ E]|E]; try discriminate; try exact E.
        exfalso.
        assert (Hsub : eddn_thread s <> SubClosed).
        { destruct I as (_ & _ & _ & _ & Hc & _). intros Ec.
          rewrite (Hc Ec) in Hf. discriminate. }
        destruct (before_close n s I Hsub) as [_ Hs0].
        destruct I as (Hq & _). rewrite Hq, Eq, sentinels_app in Hs0.
        change (sentinels (None :: rest)) with (S (sentinels rest)) in Hs0. lia.
    + simpl in H. apply crash_step_move in H.
      destruct H as (w & taken & w' & _ & _ & _ & _ & _ & _ & _ & _ & Ews).
      rewrite Ews in Hi. apply nth_error_set_nth in Hi.
      destruct Hi as [[-> _]|E]; [now right|now left].
  - left. destruct (other_step _ _ _ H Ha Hb) as (Ew & _). now rewrite <- Ew.
Qed.

Lemma alive_run n sched s s' :
  run sched s = Some s' -> inv n s -> ~ In Interrupt sched -> run_loop s = true ->
  run_loop s' = true /\
  forall i, nth_error (workers s') i = Some Stopped ->
            nth_error (workers s) i = Some Stopped \/ In (Crash i) sched.
Proof.
  revert s. induction sched as [|a sched IH]; intros s H I Hn Hf; simpl in H.
  - injection H as <-. split; [exact Hf|]. intros i Hi. now left.
  - destruct (step a s) as [s1|] eqn:E; [|discriminate].
    assert (Hf1 : run_loop s1 = true).
    { rewrite (flag_kept a s s1 E); [exact Hf|]. intros ->. apply Hn. now left. }
    destruct (IH s1 H (inv_step n a s s1 E I)) as [Hf' Hs]; [|exact Hf1|].
    { intros Hin. apply Hn. now right. }
    split; [exact Hf'|]. intros i Hi.
    destruct (Hs i Hi) as [H1|H1]; [|right; now right].
    destruct (alive_step n a s s1 I E Hf i H1) as [H0| ->]; [now left|right; now left].
Qed.

(** X17: as long as neither the signal handler nor the key handler
    has cleared the flag, the flag is set, the subscriber has not finished,
    the main thread waits for it and no sentinel has been put; a worker
    that has left [process_message] has left it on an exception that the
    handling of a frame let through. *)
Theorem nothing_ends_before_the_interrupt n sched s :
  run sched (boot n) = Some s ->
  ~ In Interrupt sched ->
  run_loop s = true /\
  eddn_thread s <> SubClosed /\
  main_thread s = MainJoinSub /\
  sentinels (enqueued s) = 0 /\
  (forall i, nth_error (workers s) i = Some Stopped -> In (Crash i) sched) /\
  List.length (workers s) = n.
Proof.
  intros H Hn.
  pose proof (inv_run n sched (boot n) s H (inv_boot n)) as I.
  destruct (alive_run n sched (boot n) s H (inv_boot n) Hn eq_refl) as [Hf Ha].
  assert (Hsub : eddn_thread s <> SubClosed).
  { destruct I as (_ & _ & _ & _ & Hc & _). intros Ec. rewrite (Hc Ec) in Hf. discriminate. }
  destruct (before_close n s I Hsub) as [Hm Hs0].
  destruct I as (_ & Hl & _).
  repeat split; try assumption.
  intros i Hi. destruct (Ha i Hi) as [H0|H0]; [|exact H0].
  simpl in H0. apply nth_error_In, repeat_spec in H0. discriminate.
Qed.

Lemma clear_flag_cleared s : run_loop s = false -> clear_flag s = s.
Proof. destruct s; simpl. now intros ->. Qed.

Lemma list_sum_set_nth (f : wstate -> nat) i w w' ws :
  nth_error ws i = Some w ->
  list_sum (map f (set_nth i w' ws)) + f w = list_sum (map f ws) + f w'.
Proof.
  revert i. induction ws as [|a ws IH]; intros i H; [destruct i; discriminate|].
  destruct i as [|i]; simpl in *.
  - injection H as ->. lia.
  - specialize (IH i H). lia.
Qed.

(** Once the flag is cleared every move of a thread uses up effort. *)
Lemma effort_step a s s' :
  step a s = Some s' -> run_loop s = false ->
  (if is_thread_move a then 1 else 0) + effort s' <= effort s.
Proof.
  intros H Hf. unfold effort. destruct a as [|polled| |i|i].
  - simpl in H. injection H as <-. simpl. lia.
  - pool_cases H; try congruence; known; simpl; lia.
  - pool_cases H; known; simpl; lia.
  - simpl in H. apply worker_step_move in H.
    destruct H as (w & taken & w' & Ew & Hmv & _ & _ & _ & _ & Et & Em & Ews).
    rewrite Hf in Hmv. destruct (move_cleared _ _ _ _ Hmv) as [Hm1 _].
    rewrite Et, Em, Ews, length_set_nth.
    pose proof (list_sum_set_nth moves_left i w w' (workers s) Ew). simpl. lia.
  - simpl in H. apply crash_step_move in H.
    destruct H as (w & taken & w' & Ew & Hmv & _ & _ & _ & _ & Et & Em & Ews).
    rewrite Hf in Hmv. destruct (move_cleared _ _ _ _ Hmv) as [Hm1 _].
    rewrite Et, Em, Ews, length_set_nth.
    pose proof (list_sum_set_nth moves_left i w w' (workers s) Ew). simpl. lia.
Qed.

Lemma effort_run sched s s' :
  run sched s = Some s' -> run_loop s = false ->
  run_loop s' = false /\ thread_moves sched + effort s' <= effort s.
Proof.
  revert s. induction sched as [|a sched IH]; intros s H Hf; simpl in H.
  - injection H as <-. split; [exact Hf|]. unfold thread_moves. simpl. lia.
  - destruct (step a s) as [s1|] eqn:E; [|discriminate].
    pose proof (effort_step a s s1 E Hf) as H1.
    assert (Hf1 : run_loop s1 = false).
    { destruct (run_loop s1) eqn:F; [|reflexivity].
      destruct (flag_step a s s1 E F) as [_ F']. congruence. }
    destruct (IH s1 H Hf1) as [Hf2 H2]. split; [exact Hf2|].
    unfold thread_moves in *. simpl. destruct (is_thread_move a); simpl; lia.
Qed.

Lemma list_sum_moves_left ws : list_sum (map moves_left ws) <= 2 * List.length ws.
Proof.
  induction ws as [|w ws IH]; simpl; [lia|]. destruct w; simpl; lia.
Qed.

Lemma effort_bound n s : inv n s -> effort s <= 3 * n + 5.
Proof.
  intros (_ & Hl & Hs & _). unfold effort.
  pose proof (list_sum_moves_left (workers s)) as Hw. rewrite Hl in *.
  unfold pending in Hs.
  assert (sub_effort (eddn_thread s) <= 2) by (destruct (eddn_thread s); simpl; lia).
  assert (main_effort n (main_thread s) <= n + 3).
  { destruct (main_thread s); simpl; lia. }
  lia.
Qed.

Lemma not_all_stopped ws :
  all_stopped ws = false ->
  exists i w, nth_error ws i = Some w /\ w <> Stopped.
Proof.
  induction ws as [|w ws IH]; [discriminate|]. simpl.
  destruct w; simpl.
  - intros _. exists 0, AtLoopTest. split; [reflexivity|discriminate].
  - intros _. exists 0, InGet. split; [reflexivity|discriminate].
  - intros H. destruct (IH H) as (i & w & Hn & Hw). now exists (S i), w.
Qed.

(** Once the flag is cleared some thread can move until the main thread is
    done. *)
Lemma shutdown_progress n s :
  inv n s -> run_loop s = false -> main_thread s <> MainDone ->
  exists a s', is_thread_move a = true /\ step a s = Some s'.
Proof.
  intros I Hf Hm.
  destruct (eddn_thread s) eqn:Es.
  - exists (Sub None). eexists. split; [reflexivity|]. simpl. unfold sub_step.
    rewrite Es. reflexivity.
  - exists (Sub None). eexists. split; [reflexivity|]. simpl. unfold sub_step.
    rewrite Es, Hf. reflexivity.
  - exists (Sub None). eexists. split; [reflexivity|]. simpl. unfold sub_step.
    rewrite Es. reflexivity.
  - destruct (main_thread s) as [|[|k]| |] eqn:Em; [| | | |now contradiction Hm].
    + exists Main. eexists. split; [reflexivity|]. simpl. unfold main_step.
      rewrite Em, Es. reflexivity.
    + exists Main. eexists. split; [reflexivity|]. simpl. unfold main_step.
      rewrite Em. reflexivity.
    + exists Main. eexists. split; [reflexivity|]. simpl. unfold main_step.
      rewrite Em. reflexivity.
    + destruct (all_stopped (workers s)) eqn:Ea.
      * exists Main. eexists. split; [reflexivity|]. simpl. unfold main_step.
        rewrite Em, Ea. reflexivity.
      * destruct (not_all_stopped _ Ea) as (i & w & Hn & Hw).
        exists (Work i). simpl. unfold worker_step. rewrite Hn.
        destruct w; [| |now contradiction Hw].
        -- eexists. split; reflexivity.
        -- destruct (message_queue s) as [|[f|] rest]; eexists; split; reflexivity.
Qed.

Lemma run_app sched1 sched2 s s1 :
  run sched1 s = Some s1 -> run (sched1 ++ sched2) s = run sched2 s1.
Proof.
  revert s. induction sched1 as [|a sched1 IH]; intros s H; simpl in *.
  - now injection H as <-.
  - destruct (step a s) as [s'|]; [now apply IH|discriminate].
Qed.

Lemma done_or_not (t : main_state) : t = MainDone \/ t <> MainDone.
Proof. destruct t; [right; discriminate..|left; reflexivity]. Qed.

Lemma shutdown_reaches_done n k s :
  effort s <= k -> inv n s -> run_loop s = false ->
  exists sched s',
    run sched s = Some s' /\ main_thread s' = MainDone /\ ~ In Interrupt sched.
Proof.
  revert s. induction k as [|k IH]; intros s Hk I Hf;
    (destruct (done_or_not (main_thread s)) as [Hd|Hd];
     [exists [], s; split; [reflexivity|split; [exact Hd|intros []]]|]);
    destruct (shutdown_progress n s I Hf Hd) as (a & s1 & Ha & Hs);
    pose proof (effort_step a s s1 Hs Hf) as He; rewrite Ha in He; [lia|].
  assert (Hf1 : run_loop s1 = false).
  { rewrite (flag_kept a s s1 Hs); [exact Hf|]. intros ->. discriminate. }
  destruct (IH s1 ltac:(lia) (inv_step n a s s1 Hs I) Hf1) as (sched & s' & Hr & Hd' & Hn).
  exists (a :: sched), s'. simpl. rewrite Hs. repeat split; auto.
  intros [->|Hin]; [discriminate|now apply Hn].
Qed.

(** X18: once the flag is cleared it stays cleared, and with [n] workers
    the threads together make at most [3 * n + 5] moves from then on,
    however they are scheduled. *)
Theorem shutdown_takes_bounded_moves n sched s :
  run sched (boot n) = Some s ->
  run_loop s = false ->
  forall sched' s',
    run sched' s = Some s' ->
    run_loop s' = false /\ thread_moves sched' <= 3 * n + 5.
Proof.
  intros H Hf sched' s' H'.
  pose proof (inv_run n sched (boot n) s H (inv_boot n)) as I.
  destruct (effort_run sched' s s' H' Hf) as [Hf' He].
  split; [exact Hf'|]. pose proof (effort_bound n s I). lia.
Qed.

(** X19: in every state the threads can reach, once the flag is cleared some
    thread can move as long as the main thread is not done; and from every
    such state an interrupt can be followed by moves that end with the
    subscriber finished, every worker stopped and the main thread done. *)
Theorem shutdown_never_deadlocks n sched s :
  run sched (boot n) = Some s ->
  (run_loop s = false -> main_thread s <> MainDone ->
     exists a s', is_thread_move a = true /\ step a s = Some s') /\
  exists sched' s',
    run (Interrupt :: sched') s = Some s' /\
    main_thread s' = MainDone /\
    all_stopped (workers s') = true /\
    eddn_thread s' = SubClosed.
Proof.
  intros H.
  pose proof (inv_run n sched (boot n) s H (inv_boot n)) as I.
  split; [now apply (shutdown_progress n s)|].
  assert (I1 : inv n (clear_flag s)) by (apply (inv_step n Interrupt s); auto).
  destruct (shutdown_reaches_done n (effort (clear_flag s)) (clear_flag s)
              (Nat.le_refl _) I1 eq_refl) as (sched' & s' & Hr & Hd & _).
  exists sched', s'. split; [exact Hr|]. split; [exact Hd|].
  pose proof (inv_run n sched' (clear_flag s) s' Hr I1) as (_ & _ & _ & _ & _ & Hm & Hfin).
  split; [now apply Hfin|]. apply Hm. rewrite Hd. discriminate.
Qed.

(** Once the flag is cleared the subscriber puts the frame it holds, if it
    holds one, and no other. *)
Lemma late_frame_step a s s' :
  step a s = Some s' -> run_loop s = false ->
  List.length (handled (enqueued s')) + in_hand (eddn_thread s') <=
  List.length (handled (enqueued s)) + in_hand (eddn_thread s).
Proof.
  intros H Hf. destruct a as [|polled| |i|i].
  - pool_cases H. lia.
  - pool_cases H; try congruence; known; rewrite ?handled_app, ?length_app; simpl; lia.
  - pool_cases H; known; rewrite ?handled_app, ?length_app; simpl; lia.
  - simpl in H. apply worker_step_move in H.
    destruct H as (w & taken & w' & _ & _ & _ & _ & Ee & _ & Et & _).
    rewrite Ee, Et. lia.
  - simpl in H. apply crash_step_move in H.
    destruct H as (w & taken & w' & _ & _ & _ & _ & Ee & _ & Et & _).
    rewrite Ee, Et. lia.
Qed.

(** X20: once the flag is cleared the subscriber puts at most one
    more frame into the queue, the one it had received before; whatever
    the threads do, the frames put and the frame in hand never count more
    than they did. *)
Theorem at_most_one_frame_after_the_interrupt s sched' s' :
  run_loop s = false ->
  run sched' s = Some s' ->
  List.length (handled (enqueued s')) + in_hand (eddn_thread s') <=
  List.length (handled (enqueued s)) + in_hand (eddn_thread s).
Proof.
  intros Hf. revert s Hf. induction sched' as [|a sched' IH]; intros s Hf H; simpl in H.
  - injection H as <-. lia.
  - destruct (step a s) as [s1|] eqn:E; [|discriminate].
    assert (Hf1 : run_loop s1 = false).
    { destruct (run_loop s1) eqn:F; [|reflexivity].
      destruct (flag_step a s s1 E F) as [_ F']. congruence. }
    pose proof (late_frame_step a s s1 E Hf). specialize (IH s1 Hf1 H). lia.
Qed.

End ShutdownFacts.

(* ------------------------------------------------------------------ *)
(** ** Instances *)

Section ExtraInstances.
Local Open Scope Z_scope.




(** An instance of X14: Sol reported under the Federation, then
    unoccupied. *)
Lemma later_system_event_overwrites_witness :
  Sample.apply_system (Sample.apply_system Sample.store Cases.federation)
    Sample.unoccupied =
  Sample.apply_system Sample.store Sample.unoccupied.
Proof.
  apply (later_system_event_overwrites Sample.rich_print Sample.sqlite_raises
           Sample.store Cases.federation Sample.unoccupied "2024-01-01 12:00:00").
  - repeat split; vm_compute; reflexivity.
  - reflexivity.
Defined.

(** An instance of X10: the name hydrogenfuel. *)
Lemma plain_names_match_exactly_witness :
  (forall r,
     item_matches "hydrogenfuel" r =
     string_eq_nocase "hydrogenfuel" (c_string (remove_spaces (ItemRow.name r)))) /\
  (forall items,
     select_item_id items "hydrogenfuel" =
     option_map ItemRow.item_id
       (find (fun r => string_eq_nocase "hydrogenfuel"
                         (c_string (remove_spaces (ItemRow.name r))))
             items)) /\
  (forall power ts rows,
     update_system power ts "hydrogenfuel" rows =
     map (fun r => if string_eq_nocase "hydrogenfuel" (c_string (SystemRow.name r))
                   then set_power power ts r else r) rows).
Proof.
  apply (plain_names_match_exactly "hydrogenfuel"). vm_compute; reflexivity.
Defined.

(** Instances of X11: the commodity name trit followed by a percent sign
    finds Tritium, and a system event named by the percent sign alone
    rewrites Achenar. *)
Lemma trailing_percent_matches_every_extension_witness :
  (exists id, select_item_id (Item Sample.store) "trit%" = Some id) /\
  nth_error (System (Sample.apply_system Sample.store Cases.every_system)) 1 =
    Some {| SystemRow.name := "Achenar"; SystemRow.power := Some "Nobody"%string;
            SystemRow.modified := "2024-01-01 12:00:00" |}.
Proof.
  split.
  - apply (proj1 (trailing_percent_matches_every_extension Sample.rich_print
                    Sample.sqlite_raises "trit"%string eq_refl)
             (Item Sample.store) Sample.tritium_item "Trit"%string "ium"%string).
    + right; left; reflexivity.
    + reflexivity.
    + vm_compute; reflexivity.
  - apply (proj2 (trailing_percent_matches_every_extension Sample.rich_print
                    Sample.sqlite_raises EmptyString eq_refl) Sample.store
             Cases.every_system "2024-01-01 12:00:00"%string 1%nat
             {| SystemRow.name := "Achenar"; SystemRow.power := Some "Empire"%string;
                SystemRow.modified := "2023-12-31 08:00:00" |}
             EmptyString "Achenar"%string).
    + repeat split; vm_compute; reflexivity.
    + reflexivity.
    + reflexivity.
    + reflexivity.
    + reflexivity.
Defined.

(** An instance of X5: two commodities, one of them unknown. *)
Lemma one_lookup_per_commodity_witness :
  lookups (events (Sample.persist_commodity Sample.store Sample.with_unknown)) =
    ["Unobtainium"; "Tritium"]%string /\
  List.length (filter is_write
                 (events (Sample.persist_commodity Sample.store Sample.with_unknown)))
    = 2%nat.
Proof.
  destruct (one_lookup_per_commodity Sample.rich_print Sample.sqlite_raises
              Sample.store Sample.with_unknown "2024-01-01 12:00:00")
    as (H1 & H2 & _).
  - vm_compute; reflexivity.
  - vm_compute; reflexivity.
  - vm_compute; reflexivity.
  - vm_compute; reflexivity.
  - split; [exact H1|exact H2].
Defined.

End ExtraInstances.

Section ShutdownInstances.
Import Pool Shutdown.

(** An instance of X16: the pool wound down. *)
Lemma frames_precede_sentinels_witness :
  enqueued Cases.late_final =
    map Some (handled (enqueued Cases.late_final)) ++
    repeat None (sentinels (enqueued Cases.late_final)) /\
  (0 < sentinels (map snd (dequeued Cases.late_final)) ->
     message_queue Cases.late_final =
     repeat None (sentinels (message_queue Cases.late_final))).
Proof.
  apply (frames_precede_sentinels 2
           (Cases.busy_schedule ++ [Interrupt] ++ Cases.winding_down) Cases.late_final).
  vm_compute; reflexivity.
Defined.

(** An instance of X17: two workers, of which the first has met a frame
    whose error the console refused. *)
Lemma nothing_ends_before_the_interrupt_witness :
  run_loop Cases.crash_state = true /\
  eddn_thread Cases.crash_state <> SubClosed /\
  main_thread Cases.crash_state = MainJoinSub /\
  sentinels (enqueued Cases.crash_state) = 0 /\
  (forall i, nth_error (workers Cases.crash_state) i = Some Stopped ->
             In (Crash i) Cases.crash_schedule) /\
  List.length (workers Cases.crash_state) = 2.
Proof.
  apply (nothing_ends_before_the_interrupt 2 Cases.crash_schedule Cases.crash_state).
  - vm_compute; reflexivity.
  - simpl. intros H. repeat (destruct H as [H|H]; [discriminate|]). exact H.
Defined.

(** The first worker of that pool has ended, the second goes on. *)
Example a_worker_lost :
  workers Cases.crash_state = [Stopped; AtLoopTest] /\
  dequeued Cases.crash_state = [(0, Some "f1"%string)] /\
  run_loop Cases.crash_state = true.
Proof. repeat split. Qed.

(** An instance of X18: ten moves wind two workers down. *)
Lemma shutdown_takes_bounded_moves_witness :
  run_loop Cases.late_final = false /\ thread_moves Cases.winding_down <= 3 * 2 + 5.
Proof.
  apply (shutdown_takes_bounded_moves 2 (Cases.busy_schedule ++ [Interrupt])
           Cases.late_state).
  - vm_compute; reflexivity.
  - reflexivity.
  - vm_compute; reflexivity.
Defined.

(** An instance of X19: the pool just after the interrupt. *)
Lemma shutdown_never_deadlocks_witness :
  (run_loop Cases.late_state = false -> main_thread Cases.late_state <> MainDone ->
     exists a s', is_thread_move a = true /\ step a Cases.late_state = Some s') /\
  exists sched' s',
    run (Interrupt :: sched') Cases.late_state = Some s' /\
    main_thread s' = MainDone /\
    all_stopped (workers s') = true /\
    eddn_thread s' = SubClosed.
Proof.
  apply (shutdown_never_deadlocks 2 (Cases.busy_schedule ++ [Interrupt]) Cases.late_state).
  vm_compute; reflexivity.
Defined.

(** An instance of X20: the frame in hand at the interrupt is put, and
    no other. *)
Lemma at_most_one_frame_after_the_interrupt_witness :
  List.length (handled (enqueued Cases.late_final)) + in_hand (eddn_thread Cases.late_final)
  <= List.length (handled (enqueued Cases.late_state)) +
     in_hand (eddn_thread Cases.late_state).
Proof.
  apply (at_most_one_frame_after_the_interrupt Cases.late_state Cases.winding_down).
  - reflexivity.
  - vm_compute; reflexivity.
Defined.

End ShutdownInstances.
